(** * token-view: the static-asset resolver and request dispatcher of server.js

    A shallow embedding of the embedded HTTP server (server.js): the
    POSIX path operations it imports from node:path, the static resolver
    ([resolveStatic], [safeJoin]), the error routine ([handleError]) and
    the request callback passed to [createServer] ([dispatch]).

    Strings are [string]; the allow-list is a [gset string], the MIME
    table a [gmap string string].  Everything effectful (filesystem
    metadata, file streams, console, the response object) is threaded
    through a small state-and-exception monad.  An [await] is the
    sequencing of that monad; a stream is the list of chunks it will
    deliver, followed by its end or by an error, and piping it runs the
    listeners in that order.  Paths are POSIX paths, as in the Linux
    images the Dockerfiles build.  What the platform decides is a
    parameter: the [URL] and [Request] constructors, the working
    directory, and what the global object holds; the response object
    follows node:http, which sends no payload in answer to HEAD. *)

From Stdlib Require Import Ascii String Sorted.
From stdpp Require Import gmap strings list pretty.

(** ** Characters and strings, as the JavaScript string methods used *)

Module Str.

Definition slash : ascii := "/"%char.
Definition dot : ascii := "."%char.

Definition isSlash (c : ascii) : bool := Ascii.eqb c slash.

(** [s.charCodeAt(0) === CHAR_FORWARD_SLASH] *)
Definition startsWithSlash (s : string) : bool :=
  match s with
  | String c _ => isSlash c
  | EmptyString => false
  end.

(** [s.startsWith(prefix)] *)
Fixpoint startsWith (s prefix : string) : bool :=
  match prefix with
  | EmptyString => true
  | String a prefix' =>
      match s with
      | EmptyString => false
      | String b s' => Ascii.eqb a b && startsWith s' prefix'
      end
  end.

(** [s.charCodeAt(s.length - 1) === CHAR_FORWARD_SLASH] *)
Fixpoint endsWithSlash (s : string) : bool :=
  match s with
  | EmptyString => false
  | String c EmptyString => isSlash c
  | String _ r => endsWithSlash r
  end.

(** [s.replace(/^\/+/, '')] *)
Fixpoint stripLeadingSlashes (s : string) : string :=
  match s with
  | String c r => if isSlash c then stripLeadingSlashes r else s
  | EmptyString => EmptyString
  end.

(** [s.replace(/^\//, '')] *)
Definition stripOneSlash (s : string) : string :=
  match s with
  | String c r => if isSlash c then r else s
  | EmptyString => EmptyString
  end.

(** [s.split('/')]: the pieces between separators, empty pieces kept. *)
Fixpoint split (s : string) : list string :=
  match s with
  | EmptyString => [EmptyString]
  | String c r =>
      if isSlash c then EmptyString :: split r
      else match split r with
           | h :: t => String c h :: t
           | [] => [String c EmptyString]
           end
  end.

(** [segs.join('/')], the inverse of [split] *)
Definition unsplit (segs : list string) : string := String.concat "/" segs.

Fixpoint slashFree (s : string) : bool :=
  match s with
  | EmptyString => true
  | String c r => negb (isSlash c) && slashFree r
  end.

Definition isEmpty (s : string) : bool :=
  match s with EmptyString => true | _ => false end.

(** ASCII lower-casing, for case-insensitive header names. *)
Definition lowerChar (c : ascii) : ascii :=
  let n := nat_of_ascii c in
  if (65 <=? n)%nat && (n <=? 90)%nat then ascii_of_nat (n + 32) else c.

Fixpoint toLowerCase (s : string) : string :=
  match s with
  | EmptyString => EmptyString
  | String c r => String (lowerChar c) (toLowerCase r)
  end.

End Str.

(** ** node:path (POSIX flavour)

    The library functions [normalize], [join], [resolve] and [extname]
    that server.js imports.  [normalizeString] walks the path once and
    keeps the segments seen so far; the embedding does the same walk on
    the list of '/'-separated pieces, with the kept segments as a stack
    (most recent first). *)

Module Path.

Definition isDots1 (s : string) : bool := String.eqb s ".".
Definition isDots2 (s : string) : bool := String.eqb s "..".

(** One separator reached with piece [seg] since the previous one. *)
Definition normalizeStep (allowAboveRoot : bool) (res : list string) (seg : string)
  : list string :=
  if Str.isEmpty seg || isDots1 seg then res
  else if isDots2 seg then
    match res with
    | last :: res' =>
        if isDots2 last
        then (if allowAboveRoot then seg :: res else res)
        else res'
    | [] => if allowAboveRoot then [seg] else []
    end
  else seg :: res.

Fixpoint normalizeLoop (allowAboveRoot : bool) (res : list string) (segs : list string)
  : list string :=
  match segs with
  | [] => res
  | seg :: rest => normalizeLoop allowAboveRoot (normalizeStep allowAboveRoot res seg) rest
  end.

(** The kept segments, first to last. *)
Definition normalizeSegments (allowAboveRoot : bool) (path : string) : list string :=
  rev (normalizeLoop allowAboveRoot [] (Str.split path)).

Definition normalizeString (path : string) (allowAboveRoot : bool) : string :=
  Str.unsplit (normalizeSegments allowAboveRoot path).

Definition normalize (path : string) : string :=
  if Str.isEmpty path then "."
  else
    let isAbsolute := Str.startsWithSlash path in
    let trailingSeparator := Str.endsWithSlash path in
    let p := normalizeString path (negb isAbsolute) in
    if Str.isEmpty p then
      (if isAbsolute then "/" else if trailingSeparator then "./" else ".")
    else
      let p := if trailingSeparator then p +:+ "/" else p in
      if isAbsolute then "/" +:+ p else p.

(** [join(...args)]: the non-empty arguments glued with '/', normalized. *)
Fixpoint joinArgs (joined : option string) (args : list string) : option string :=
  match args with
  | [] => joined
  | arg :: rest =>
      if Str.isEmpty arg then joinArgs joined rest
      else match joined with
           | None => joinArgs (Some arg) rest
           | Some j => joinArgs (Some (j +:+ "/" +:+ arg)) rest
           end
  end.

Definition join (args : list string) : string :=
  match joinArgs None args with
  | None => "."
  | Some joined => normalize joined
  end.

(** [resolve(...args)]: right to left until an absolute piece is met,
    the working directory being tried last. *)
Fixpoint resolveLoop (cwd : string) (argsRev : list string) (resolvedPath : string)
  : string * bool :=
  match argsRev with
  | [] =>
      if Str.isEmpty cwd then (resolvedPath, false)
      else (cwd +:+ "/" +:+ resolvedPath, Str.startsWithSlash cwd)
  | path :: rest =>
      if Str.isEmpty path then resolveLoop cwd rest resolvedPath
      else
        let resolvedPath := path +:+ "/" +:+ resolvedPath in
        if Str.startsWithSlash path then (resolvedPath, true)
        else resolveLoop cwd rest resolvedPath
  end.

Definition resolve (cwd : string) (args : list string) : string :=
  let '(resolvedPath, resolvedAbsolute) := resolveLoop cwd (rev args) "" in
  let resolvedPath := normalizeString resolvedPath (negb resolvedAbsolute) in
  if resolvedAbsolute then "/" +:+ resolvedPath
  else if Str.isEmpty resolvedPath then "." else resolvedPath.

(** [extname(path)]: from the last '.' of the last path component to its
    end; empty when there is no '.', when the only '.' starts the
    component, or when the component is "..". *)
Fixpoint lastNonEmpty (segs : list string) : string :=
  match segs with
  | [] => EmptyString
  | s :: rest =>
      let r := lastNonEmpty rest in
      if Str.isEmpty r then s else r
  end.

Definition basename (path : string) : string := lastNonEmpty (Str.split path).

(** Suffix of [s] from its last '.', if any and if not at its start;
    [atStart] tells whether the scan is at the first character. *)
Fixpoint lastDotSuffix (atStart : bool) (s : string) : option string :=
  match s with
  | EmptyString => None
  | String c r =>
      match lastDotSuffix false r with
      | Some ext => Some ext
      | None => if Ascii.eqb c Str.dot && negb atStart then Some s else None
      end
  end.

Definition extname (path : string) : string :=
  let base := basename path in
  if isDots2 base then EmptyString
  else match lastDotSuffix true base with
       | Some ext => ext
       | None => EmptyString
       end.

End Path.

(** ** Values, errors and the world the server runs in *)

Inductive JsError : Type :=
| ReferenceError (identifier : string)   (* "<identifier> is not defined" *)
| TypeError (message : string)
| SystemError (code : string)            (* ENOENT, EACCES, ENOTDIR, EIO, ... *)
| HeadersSentError                        (* ERR_HTTP_HEADERS_SENT *)
| ThrownValue (message : string).

Inductive Completion (A : Type) : Type :=
| Normal (value : A)
| Throw (error : JsError).
Arguments Normal {A} value.
Arguments Throw {A} error.

(** What [stat] reports about a path (links followed). *)
Inductive FileKind : Type := RegularFile | Directory | OtherKind.

(** [fileStat.isFile()] *)
Definition isFile (k : FileKind) : bool :=
  match k with RegularFile => true | _ => false end.

(** What a read stream opened on a path will deliver: some chunks, then
    either the end of the file or an error. *)
Record ReadScript : Type := mkReadScript {
  chunks : list string;
  failure : option JsError
}.

Definition Headers : Type := list (string * string).

(** http.IncomingMessage *)
Record IncomingMessage : Type := mkIncoming {
  reqMethod : string;
  reqUrl : option string;
  reqHeaders : Headers;
  reqBody : list string
}.

(** The WHATWG [URL] object, as far as the server reads it. *)
Record URL : Type := mkURL {
  href : string;       (* url.toString() *)
  pathname : string
}.

(** The fetch-style [Request] handed to the application handler. *)
Record Request : Type := mkRequest {
  rqUrl : string;
  rqMethod : string;
  rqHeaders : Headers;
  rqBody : option (list string)
}.

(** The second argument of [new Request(input, init)]. *)
Record RequestInit : Type := mkRequestInit {
  initMethod : string;
  initHeaders : Headers;
  initBody : option (list string)
}.

(** The fetch-style [Response] the application handler returns. *)
Record Response : Type := mkResponse {
  status : Z;
  headers : Headers;
  body : option (list string)
}.

(** http.ServerResponse: the pending head ([statusCode], [pendingHeaders]),
    the head as committed to the wire, the payload written so far, and
    whether the response may carry a payload at all: node clears
    [hasBody] when the response is created for a HEAD request, and then
    drops every chunk given to [write] and [end].  (It also clears it
    when a head with status 204 or 304 is sent; this server sets such a
    status only from a handler response, which then has no body.) *)
Record ServerResponse : Type := mkRes {
  statusCode : Z;
  pendingHeaders : Headers;
  sentHead : option (Z * Headers);
  written : list string;
  endCalls : nat;
  finished : bool;
  hasBody : bool
}.

(** [res.headersSent] *)
Definition headersSent (r : ServerResponse) : bool :=
  match sentHead r with Some _ => true | None => false end.

(** [new ServerResponse(req)] *)
Definition newResponse (withBody : bool) : ServerResponse :=
  mkRes 200 [] None [] 0 false withBody.

Definition freshResponse : ServerResponse := newResponse true.

(** [req.method === 'HEAD'] *)
Definition isHead (req : IncomingMessage) : bool := String.eqb (reqMethod req) "HEAD".

(** The response object the server hands to the callback with [req]. *)
Definition responseFor (req : IncomingMessage) : ServerResponse :=
  newResponse (negb (isHead req)).

Record World : Type := mkWorld {
  fileStat : string -> Completion FileKind;   (* fs/promises stat *)
  fileStream : string -> ReadScript;          (* createReadStream *)
  consoleErrors : list JsError;               (* console.error, oldest first *)
  handlerCalls : list Request;                (* calls of the application handler *)
  res : ServerResponse
}.

Definition withRes (w : World) (r : ServerResponse) : World :=
  mkWorld (fileStat w) (fileStream w) (consoleErrors w) (handlerCalls w) r.

Definition withConsole (w : World) (l : list JsError) : World :=
  mkWorld (fileStat w) (fileStream w) l (handlerCalls w) (res w).

Definition withCalls (w : World) (l : list Request) : World :=
  mkWorld (fileStat w) (fileStream w) (consoleErrors w) l (res w).

(** ** The monad: state passing with exceptions *)

Definition M (A : Type) : Type := World -> Completion A * World.

Definition ret {A} (a : A) : M A := fun w => (Normal a, w).

Definition throw {A} (e : JsError) : M A := fun w => (Throw e, w).

Definition bind {A B} (m : M A) (k : A -> M B) : M B :=
  fun w =>
    match m w with
    | (Normal a, w') => k a w'
    | (Throw e, w') => (Throw e, w')
    end.

(** [try { m } catch (error) { h error }] *)
Definition tryCatch {A} (m : M A) (h : JsError -> M A) : M A :=
  fun w =>
    match m w with
    | (Normal a, w') => (Normal a, w')
    | (Throw e, w') => h e w'
    end.

Definition liftCompletion {A} (c : Completion A) : M A := fun w => (c, w).

Definition getWorld : M World := fun w => (Normal w, w).

#[global] Instance M_ret : MRet M := @ret.
#[global] Instance M_bind : MBind M := fun A B k m => bind m k.

(** ** The response object *)

Module Res.

Definition sameName (a b : string) : bool :=
  String.eqb (Str.toLowerCase a) (Str.toLowerCase b).

(** [res.getHeader(name)] on a header list; names compare without case. *)
Fixpoint lookup (name : string) (hs : Headers) : option string :=
  match hs with
  | [] => None
  | (k, v) :: rest => if sameName k name then Some v else lookup name rest
  end.

Definition remove (name : string) (hs : Headers) : Headers :=
  filter (fun kv => sameName (fst kv) name = false) hs.

Definition update (f : ServerResponse -> ServerResponse) : M unit :=
  fun w => (Normal tt, withRes w (f (res w))).

(** [res.statusCode = n] *)
Definition setStatusCode (n : Z) : M unit :=
  update (fun r => mkRes n (pendingHeaders r) (sentHead r) (written r) (endCalls r)
                           (finished r) (hasBody r)).

(** [res.setHeader(name, value)]; refused once the head is on the wire. *)
Definition setHeader (name value : string) : M unit :=
  w ← getWorld;
  if headersSent (res w) then throw HeadersSentError
  else update (fun r =>
         mkRes (statusCode r) ((name, value) :: remove name (pendingHeaders r))
               (sentHead r) (written r) (endCalls r) (finished r) (hasBody r)).

(** The head goes out with the first payload byte or with [end]. *)
Definition flushHead (r : ServerResponse) : ServerResponse :=
  match sentHead r with
  | Some _ => r
  | None => mkRes (statusCode r) (pendingHeaders r)
                  (Some (statusCode r, pendingHeaders r))
                  (written r) (endCalls r) (finished r) (hasBody r)
  end.

(** The chunk follows the head, unless the response takes no payload:
    then the head goes out and the chunk is dropped. *)
Definition writeRaw (chunk : string) (r : ServerResponse) : ServerResponse :=
  if finished r then r
  else let r := flushHead r in
       if hasBody r
       then mkRes (statusCode r) (pendingHeaders r) (sentHead r)
                  (written r ++ [chunk]) (endCalls r) (finished r) (hasBody r)
       else r.

(** [res.write(chunk)] *)
Definition write (chunk : string) : M unit := update (writeRaw chunk).

(** [res.end(data)] / [res.end()] *)
Definition endRaw (data : option string) (r : ServerResponse) : ServerResponse :=
  if finished r then
    mkRes (statusCode r) (pendingHeaders r) (sentHead r) (written r)
          (S (endCalls r)) true (hasBody r)
  else
    let r := match data with Some d => writeRaw d r | None => r end in
    let r := flushHead r in
    mkRes (statusCode r) (pendingHeaders r) (sentHead r) (written r)
          (S (endCalls r)) true (hasBody r).

Definition end_ (data : option string) : M unit := update (endRaw data).

(** The payload as the client receives it. *)
Definition payload (r : ServerResponse) : string := String.concat "" (written r).

End Res.

(** ** server.js *)

(** [const staticFiles = new Set([...])] *)
Definition staticFiles : gset string :=
  {[ "favicon.ico";
     "manifest.json";
     "robots.txt";
     "logo192.png";
     "logo512.png";
     "tanstack-circle-logo.png";
     "tanstack-word-logo-white.svg" ]}.

(** [const mimeMap = {...}] *)
Definition mimeMap : gmap string string :=
  list_to_map
    [ (".html", "text/html");
      (".js", "application/javascript");
      (".css", "text/css");
      (".json", "application/json");
      (".ico", "image/x-icon");
      (".png", "image/png");
      (".svg", "image/svg+xml");
      (".txt", "text/plain");
      (".woff2", "font/woff2");
      (".webp", "image/webp");
      (".avif", "image/avif") ].

(** [mimeMap[ext] ?? 'application/octet-stream'] *)
Definition contentTypeOf (ext : string) : string :=
  default "application/octet-stream" (mimeMap !! ext).

Definition cacheControl : string := "public, max-age=31536000, immutable".
Definition errorText : string := "Internal Server Error".

(** What an identifier of the module can be bound to. *)
Inductive Binding : Type :=
| FunctionValue (call : Request -> M Response)
| ObjectValue (method : string -> option (Request -> M Response))
| OtherValue.

Fixpoint assoc {A} (name : string) (l : list (string * A)) : option A :=
  match l with
  | [] => None
  | (k, v) :: rest => if String.eqb k name then Some v else assoc name rest
  end.

(** [obj.member(request)] *)
Definition callMethod (obj : Binding) (member : string) (request : Request) : M Response :=
  match obj with
  | ObjectValue methods =>
      match methods member with
      | Some call => call request
      | None => throw (TypeError (member +:+ " is not a function"))
      end
  | _ => throw (TypeError (member +:+ " is not a function"))
  end.

Section Server.

(** The process working directory when the module is loaded. *)
Variable cwd : string.
(** [new URL(input, base)] of the platform. *)
Variable parseURL : string -> string -> Completion URL.
(** [new Request(input, init)] of the platform: the request object, or
    what the constructor throws. *)
Variable newRequest : string -> RequestInit -> Completion Request.
(** The application handler found in ./dist/server/server.js. *)
Variable handlerImpl : Request -> Completion Response.
(** What the global object holds besides the platform's own globals:
    a name that the module does not bind is looked up there. *)
Variable globalThis : list (string * Binding).

(** [const clientDir = resolve('dist/client')] *)
Definition clientDir : string := Path.resolve cwd ["dist/client"].

(** [handlerFetch]: calling it runs the application handler once. *)
Definition handlerFetch (request : Request) : M Response :=
  fun w => (handlerImpl request, withCalls w (handlerCalls w ++ [request])).

(** Every name bound where the request callback runs: the imports, the
    module's constants and functions, the callback's parameters and
    locals, and the platform globals the callback mentions. *)
Definition scope : list (string * Binding) :=
  [ ("createServer", OtherValue); ("createReadStream", OtherValue);
    ("stat", OtherValue); ("extname", OtherValue); ("join", OtherValue);
    ("normalize", OtherValue); ("resolve", OtherValue); ("Readable", OtherValue);
    ("handlerModule", OtherValue);
    ("port", OtherValue); ("clientDir", OtherValue);
    ("handlerObj", OtherValue); ("handlerFetch", FunctionValue handlerFetch);
    ("staticFiles", OtherValue); ("mimeMap", OtherValue);
    ("resolveStatic", OtherValue); ("safeJoin", OtherValue);
    ("handleError", OtherValue);
    ("req", OtherValue); ("res", OtherValue); ("url", OtherValue);
    ("staticPath", OtherValue); ("body", OtherValue); ("request", OtherValue);
    ("process", OtherValue); ("console", OtherValue); ("URL", OtherValue);
    ("Request", OtherValue); ("error", OtherValue) ].

(** Evaluating an identifier: the names of [scope], then the global
    object. *)
Definition identifier (name : string) : M Binding :=
  match assoc name scope with
  | Some b => mret b
  | None =>
      match assoc name globalThis with
      | Some b => mret b
      | None => throw (ReferenceError name)
      end
  end.

(** [await stat(fsPath)] *)
Definition stat (fsPath : string) : M FileKind :=
  fun w => (fileStat w fsPath, w).

(** [createReadStream(path)] *)
Definition createReadStream (path : string) : M ReadScript :=
  fun w => (Normal (fileStream w path), w).

(** [console.error(error)] *)
Definition consoleError (error : JsError) : M unit :=
  fun w => (Normal tt, withConsole w (consoleErrors w ++ [error])).

Definition safeJoinPath (root pathname : string) : string :=
  let normalized := Str.stripLeadingSlashes (Path.normalize pathname) in
  Path.join [root; normalized].

Definition safeJoin (root pathname : string) : M (option string) :=
  let fsPath := safeJoinPath root pathname in
  tryCatch
    (fileStat ← stat fsPath;
     if isFile fileStat then mret (Some fsPath) else mret None)
    (fun _ => mret None).

Definition resolveStatic (pathname : string) : M (option string) :=
  if Str.startsWith pathname "/assets/" then safeJoin clientDir pathname
  else
    let trimmed := Str.stripOneSlash pathname in
    if bool_decide (trimmed ∈ staticFiles) then safeJoin clientDir pathname
    else mret None.

Definition handleError (error : JsError) : M unit :=
  consoleError error;;
  w ← getWorld;
  (if headersSent (res w) then mret tt
   else Res.setStatusCode 500;; Res.setHeader "Content-Type" "text/plain");;
  Res.end_ (Some errorText).

Fixpoint writeAll (data : list string) : M unit :=
  match data with
  | [] => mret tt
  | chunk :: rest => Res.write chunk;; writeAll rest
  end.

(** [createReadStream(staticPath).on('error', err => handleError(err, res)).pipe(res)] *)
Definition pipeFile (staticPath : string) : M unit :=
  script ← createReadStream staticPath;
  writeAll (chunks script);;
  match failure script with
  | None => Res.end_ None
  | Some err => handleError err
  end.

Definition respondStatic (staticPath : string) : M unit :=
  Res.setStatusCode 200;;
  Res.setHeader "Content-Type" (contentTypeOf (Path.extname staticPath));;
  Res.setHeader "Cache-Control" cacheControl;;
  pipeFile staticPath.

Fixpoint copyHeaders (hs : Headers) : M unit :=
  match hs with
  | [] => mret tt
  | (key, value) :: rest => Res.setHeader key value;; copyHeaders rest
  end.

Definition bodyless (method : string) : bool :=
  String.eqb method "GET" || String.eqb method "HEAD".

(** [new Request(url.toString(), { method, headers, body })] *)
Definition buildRequest (req : IncomingMessage) (url : URL) : Completion Request :=
  let stream := if bodyless (reqMethod req) then None else Some (reqBody req) in
  newRequest (href url) (mkRequestInit (reqMethod req) (reqHeaders req) stream).

(** [handler.fetch(request)] *)
Definition callHandler (request : Request) : M Response :=
  handler ← identifier "handler";
  callMethod handler "fetch" request.

Definition delegate (req : IncomingMessage) (url : URL) : M unit :=
  request ← liftCompletion (buildRequest req url);
  response ← callHandler request;
  Res.setStatusCode (status response);;
  copyHeaders (headers response);;
  match body response with
  | None => Res.end_ None
  | Some data => writeAll data;; Res.end_ None
  end.

Definition hostOf (req : IncomingMessage) : string :=
  default "localhost" (assoc "host" (reqHeaders req)).

(** The callback given to [createServer]. *)
Definition dispatch (req : IncomingMessage) : M unit :=
  tryCatch
    (url ← liftCompletion (parseURL (default "/" (reqUrl req)) ("http://" +:+ hostOf req));
     staticPath ← resolveStatic (pathname url);
     match staticPath with
     | Some p => if Str.isEmpty p then delegate req url else respondStatic p
     | None => delegate req url
     end)
    handleError.

End Server.

(** ** Containment of paths

    A path is read through its components: the non-empty pieces between
    separators.  [within root p] says that [p] is absolute, has no "."
    or ".." component, and that its components extend those of [root];
    [isDescendant] is the strict version. *)

Definition components (p : string) : list string :=
  List.filter (fun s => negb (Str.isEmpty s)) (Str.split p).

Definition isDotSegment (s : string) : bool := Path.isDots1 s || Path.isDots2 s.

Fixpoint isPrefixOf (l1 l2 : list string) : bool :=
  match l1, l2 with
  | [], _ => true
  | x :: l1', y :: l2' => String.eqb x y && isPrefixOf l1' l2'
  | _ :: _, [] => false
  end.

Definition within (root p : string) : bool :=
  Str.startsWithSlash p
  && forallb (fun s => negb (isDotSegment s)) (components p)
  && isPrefixOf (components root) (components p).

Definition isDescendant (root p : string) : bool :=
  within root p && (length (components root) <? length (components p))%nat.

(** A segment that [normalizeString] keeps as it is. *)
Definition cleanSegment (s : string) : bool :=
  negb (Str.isEmpty s) && negb (isDotSegment s) && Str.slashFree s.

(** Segments as [normalizeString] leaves them, and paths made of them. *)

Definition clean (s : string) : Prop := cleanSegment s = true.
Definition tame (s : string) : Prop := Str.isEmpty s = true \/ clean s.

(** An optional trailing separator. *)
Definition isTrail (t : string) : Prop := t = "" \/ t = "/".

(** The shape [/seg/.../seg] (with an optional trailing separator). *)
Definition rooted (l : list string) (t : string) : string :=
  "/" +:+ Str.unsplit l +:+ t.

(** ** Observations and sample data *)

Definition candidate (pathname : string) : bool :=
  Str.startsWith pathname "/assets/"
  || bool_decide (Str.stripOneSlash pathname ∈ staticFiles).

(** [stat] found a regular file at [p]. *)
Definition statFindsFile (w : World) (p : string) : bool :=
  match fileStat w p with
  | Normal k => isFile k
  | Throw _ => false
  end.

Definition staticHeaders (p : string) : Headers :=
  [("Cache-Control", cacheControl); ("Content-Type", contentTypeOf (Path.extname p))].

(** The response as the client sees it. *)
Definition sentStatus (r : ServerResponse) : option Z := fst <$> sentHead r.

Definition sentHeader (name : string) (r : ServerResponse) : option string :=
  match sentHead r with
  | Some head => Res.lookup name (snd head)
  | None => None
  end.

Definition getRequest (target : string) : IncomingMessage :=
  mkIncoming "GET" (Some target) [("host", "localhost:4173")] [].

Definition headRequest (target : string) : IncomingMessage :=
  mkIncoming "HEAD" (Some target) [("host", "localhost:4173")] [].

Definition postRequest (target : string) (payload : list string) : IncomingMessage :=
  mkIncoming "POST" (Some target) [("host", "localhost:4173")] payload.

(** A world for worked examples: the image of the Dockerfile, with one
    hashed asset, the page shell and an icon under /app/dist/client. *)
Definition sampleStat (p : string) : Completion FileKind :=
  if String.eqb p "/app/dist/client/assets/app.js" then Normal RegularFile
  else if String.eqb p "/app/dist/client/index.html" then Normal RegularFile
  else if String.eqb p "/app/dist/client/favicon.ico" then Normal RegularFile
  else if String.eqb p "/app/dist/client/assets" then Normal Directory
  else if String.eqb p "/app/dist/client" then Normal Directory
  else if String.eqb p "/app/dist/client/assets/secret.js" then Throw (SystemError "EACCES")
  else Throw (SystemError "ENOENT").

Definition sampleStream (p : string) : ReadScript :=
  if String.eqb p "/app/dist/client/assets/app.js"
  then mkReadScript ["console.log("; "1)"] None
  else if String.eqb p "/app/dist/client/favicon.ico"
  then mkReadScript ["icon, first half"] (Some (SystemError "EIO"))
  else mkReadScript [] (Some (SystemError "ENOENT")).

Definition sampleWorld : World :=
  mkWorld sampleStat sampleStream [] [] freshResponse.

(** [new URL(target, base)] on an origin-form target without query,
    fragment, dot segments or characters to escape. *)
Definition originFormURL (input base : string) : Completion URL :=
  Normal (mkURL (base +:+ input) input).

Definition sampleHandler (request : Request) : Completion Response :=
  Normal (mkResponse 404 [("content-type", "text/html")] (Some ["not found"])).

(** [new Request] on arguments it accepts. *)
Definition fetchRequest (input : string) (init : RequestInit) : Completion Request :=
  Normal (mkRequest input (initMethod init) (initHeaders init) (initBody init)).

(** [new Request] as node has it: a body that is a stream is refused
    unless [init] has the [duplex] option. *)
Definition nodeRequest (input : string) (init : RequestInit) : Completion Request :=
  match initBody init with
  | Some _ => Throw (TypeError "RequestInit: duplex option is required when sending a body.")
  | None => fetchRequest input init
  end.

(** The sample world, with the response object made for [req]. *)
Definition sampleWorldFor (req : IncomingMessage) : World :=
  mkWorld sampleStat sampleStream [] [] (responseFor req).

(** A global object on which a module loaded earlier has left a
    [handler] whose [fetch] fails. *)
Definition failingGlobal : list (string * Binding) :=
  [ ("handler",
     ObjectValue (fun member =>
       if String.eqb member "fetch"
       then Some (fun _ => throw (ThrownValue "handler failed"))
       else None)) ].

(** "Simply terminate the response body", read strictly: a failure after
    the head was sent leaves status and body as they are and only
    finishes the response. *)
Definition midstream_failure_only_terminates : Prop :=
  forall (e : JsError) (w : World),
    headersSent (res w) = true -> finished (res w) = false ->
    let w' := snd (handleError e w) in
    sentStatus (res w') = sentStatus (res w)
    /\ written (res w') = written (res w)
    /\ finished (res w') = true.

(** The response of GET /favicon.ico at the moment its stream fails. *)
Definition midstreamWorld : World :=
  withRes sampleWorld
    (mkRes 200 (staticHeaders "/app/dist/client/favicon.ico")
       (Some (200%Z, staticHeaders "/app/dist/client/favicon.ico"))
       ["icon, first half"] 0 false true).

(** ** server.js, continued *)

(** What the request callback does with the handler's response:
    [res.statusCode = response.status], the [forEach] over its headers,
    then [res.end()] or the pipe of its body. *)
Definition forwardResponse (response : Response) : M unit :=
  Res.setStatusCode (status response);;
  copyHeaders (headers response);;
  match body response with
  | None => Res.end_ None
  | Some data => writeAll data;; Res.end_ None
  end.

(** A stand-in for [new URL] that, like the platform's, rejects a target
    beginning with "//" followed by nothing (no host). *)
Definition sampleParseURL (input base : string) : Completion URL :=
  if String.eqb input "//" then Throw (TypeError "Invalid URL")
  else originFormURL input base.

(** The chunks that reach the wire: all that were written, or none
    when the response takes no payload. *)
Definition payloadOf (withBody : bool) (text : list string) : list string :=
  if withBody then text else [].

(** The response [handleError] produces when nothing was sent before;
    [others] are the headers that were pending besides Content-Type. *)
Definition errorResponse (withBody : bool) (others : Headers) : ServerResponse :=
  let hs := ("Content-Type", "text/plain") :: others in
  mkRes 500 hs (Some (500%Z, hs)) (payloadOf withBody [errorText]) 1 true withBody.

(** The error that ends the delegation step when no global [handler]
    exists: the one the Request constructor threw, or else the
    ReferenceError for [handler]. *)
Definition delegationError (built : Completion Request) : JsError :=
  match built with
  | Normal _ => ReferenceError "handler"
  | Throw e => e
  end.

(** "Every request that is no static asset gets the body Internal
    Server Error", read for every method. *)
Definition every_miss_gets_error_text : Prop :=
  forall (cwd : string) (parseURL : string -> string -> Completion URL)
         (newRequest : string -> RequestInit -> Completion Request)
         (handlerImpl : Request -> Completion Response)
         (req : IncomingMessage) (url : URL) (w : World),
    res w = responseFor req ->
    parseURL (default "/" (reqUrl req)) ("http://" +:+ hostOf req) = Normal url ->
    fst (resolveStatic cwd (pathname url) w) = Normal None ->
    let out := dispatch cwd parseURL newRequest handlerImpl [] req w in
    sentStatus (res (snd out)) = Some 500%Z
    /\ Res.payload (res (snd out)) = "Internal Server Error".


(** "Every request during which the handler call throws gets the body
    Internal Server Error", read for every method. *)
Definition every_handler_failure_gets_error_text : Prop :=
  forall (cwd : string) (parseURL : string -> string -> Completion URL)
         (newRequest : string -> RequestInit -> Completion Request)
         (handlerImpl : Request -> Completion Response)
         (globalThis : list (string * Binding))
         (req : IncomingMessage) (url : URL) (request : Request)
         (w w' : World) (e : JsError),
    res w = responseFor req ->
    parseURL (default "/" (reqUrl req)) ("http://" +:+ hostOf req) = Normal url ->
    fst (resolveStatic cwd (pathname url) w) = Normal None ->
    buildRequest newRequest req url = Normal request ->
    callHandler handlerImpl globalThis request w = (Throw e, w') ->
    res w' = res w ->
    let out := dispatch cwd parseURL newRequest handlerImpl globalThis req w in
    sentStatus (res (snd out)) = Some 500%Z
    /\ Res.payload (res (snd out)) = "Internal Server Error".

(** A world in which robots.txt is deleted between [stat] and the
    opening of its stream. *)
Definition raceWorld : World :=
  mkWorld
    (fun p => if String.eqb p "/app/dist/client/robots.txt" then Normal RegularFile
              else sampleStat p)
    (fun p => if String.eqb p "/app/dist/client/robots.txt"
              then mkReadScript [] (Some (SystemError "ENOENT"))
              else sampleStream p)
    [] [] freshResponse.


(** ** The route loaders (src/routes)

    A loader opens the SQLite file, runs one query and closes the
    database in a [finally] block.  The database is seen through what it
    does: whether opening succeeds, what the query returns or throws,
    how often the handle was opened and closed, what was logged. *)

Module Loader.

Record Db : Type := mkDb {
  opens : nat;               (* new Database(...) that succeeded *)
  closes : nat;              (* db.close() *)
  logged : list JsError      (* console.error *)
}.

Definition L (A : Type) : Type := Db -> Completion A * Db.

Definition lret {A} (a : A) : L A := fun st => (Normal a, st).

Definition lbind {A B} (m : L A) (k : A -> L B) : L B :=
  fun st =>
    match m st with
    | (Normal a, st') => k a st'
    | (Throw e, st') => (Throw e, st')
    end.

(** [try { m } catch (e) { h e }] *)
Definition lcatch {A} (m : L A) (h : JsError -> L A) : L A :=
  fun st =>
    match m st with
    | (Normal a, st') => (Normal a, st')
    | (Throw e, st') => h e st'
    end.

(** [try { m } finally { fin }]: [fin] runs on both exits; the
    completion of [m] stands unless [fin] throws. *)
Definition lfinally {A} (m : L A) (fin : L unit) : L A :=
  fun st =>
    match m st with
    | (c, st') =>
        match fin st' with
        | (Normal _, st'') => (c, st'')
        | (Throw e, st'') => (Throw e, st'')
        end
    end.

#[global] Instance L_ret : MRet L := @lret.
#[global] Instance L_bind : MBind L := fun A B k m => lbind m k.

(** [new Database(dbPath, { readonly: true })] *)
Definition openDatabase (outcome : Completion unit) : L unit :=
  fun st =>
    match outcome with
    | Normal _ => (Normal tt, mkDb (S (opens st)) (closes st) (logged st))
    | Throw e => (Throw e, st)
    end.

(** [db.query(sql).all()] *)
Definition queryAll {Row} (outcome : Completion (list Row)) : L (list Row) :=
  fun st => (outcome, st).

(** [db.close()] *)
Definition closeDatabase : L unit :=
  fun st => (Normal tt, mkDb (opens st) (S (closes st)) (logged st)).

(** [console.error(message, e)] *)
Definition logError (e : JsError) : L unit :=
  fun st => (Normal tt, mkDb (opens st) (closes st) (logged st ++ [e])).

Definition freshDb : Db := mkDb 0 0 [].

End Loader.

(** A [Map] with string keys, and a [Set] of strings: both keep their
    entries in insertion order, and setting a key that is present keeps
    its place. *)
Module JsMap.

Definition mapHas {V} (k : string) (m : list (string * V)) : bool :=
  existsb (fun kv => String.eqb (fst kv) k) m.

Fixpoint mapGet {V} (k : string) (m : list (string * V)) : option V :=
  match m with
  | [] => None
  | (k', v) :: rest => if String.eqb k' k then Some v else mapGet k rest
  end.

Definition mapSet {V} (k : string) (v : V) (m : list (string * V)) : list (string * V) :=
  if mapHas k m
  then map (fun kv => if String.eqb (fst kv) k then (k, v) else kv) m
  else m ++ [(k, v)].

Definition setHas (x : string) (s : list string) : bool :=
  existsb (String.eqb x) s.

Definition setAdd (x : string) (s : list string) : list string :=
  if setHas x s then s else s ++ [x].

End JsMap.

(** *** routes/holders.tsx *)

Module Holders.
Import Loader JsMap.

Section Sankey.

(** The numbers of the rows are carried along, never computed with. *)
Variable Num : Type.

Record HolderPoint : Type := mkHolderPoint {
  hp_day : string;
  unique_addrs : Num
}.

(** A row of the hourly query. *)
Record FlowRow : Type := mkFlowRow {
  row_hour : string;
  from_addr : string;
  to_addr : string;
  amount : Num
}.

Record SankeyNode : Type := mkSankeyNode {
  id : string;
  addr : string;
  day : string;
  hour : string;
  label : string
}.

Record SankeyLink : Type := mkSankeyLink {
  source : string;
  target : string;
  value : Num;
  link_day : string
}.

Record SankeyData : Type := mkSankeyData {
  nodes : list SankeyNode;
  links : list SankeyLink
}.

Definition nodeFor (rowHour address : string) : SankeyNode :=
  mkSankeyNode (rowHour +:+ "-" +:+ address) address rowHour rowHour
               (rowHour +:+ " – " +:+ address).

(** The body of [for (const row of rows)]. *)
Definition sankeyStep (st : list (string * SankeyNode) * list SankeyLink) (row : FlowRow)
  : list (string * SankeyNode) * list SankeyLink :=
  let '(nodesMap, links) := st in
  let sourceId := row_hour row +:+ "-" +:+ from_addr row in
  let targetId := row_hour row +:+ "-" +:+ to_addr row in
  let nodesMap :=
    if mapHas sourceId nodesMap then nodesMap
    else mapSet sourceId (nodeFor (row_hour row) (from_addr row)) nodesMap in
  let nodesMap :=
    if mapHas targetId nodesMap then nodesMap
    else mapSet targetId (nodeFor (row_hour row) (to_addr row)) nodesMap in
  (nodesMap, links ++ [mkSankeyLink sourceId targetId (amount row) (row_hour row)]).

Definition sankeyLoop (rows : list FlowRow) : list (string * SankeyNode) * list SankeyLink :=
  fold_left sankeyStep rows ([], []).

(** [{ nodes: Array.from(nodesMap.values()), links }] *)
Definition buildSankey (rows : list FlowRow) : SankeyData :=
  let '(nodesMap, links) := sankeyLoop rows in
  mkSankeyData (map snd nodesMap) links.

Definition emptySankey : SankeyData := mkSankeyData [] [].

(** Each function opens the database for itself: what the first
    [new Database] does says nothing about the second. *)
Variable holdersOpen : Completion unit.
Variable holderRows : Completion (list HolderPoint).
Variable sankeyOpen : Completion unit.
Variable flowRows : Completion (list FlowRow).

Definition getHolderSeries : L (list HolderPoint) :=
  openDatabase holdersOpen;;
  lfinally (rows ← queryAll holderRows; mret rows) closeDatabase.

Definition getSankeyData : L SankeyData :=
  openDatabase sankeyOpen;;
  lfinally
    (lcatch (rows ← queryAll flowRows; mret (buildSankey rows))
            (fun e => logError e;; mret emptySankey))
    closeDatabase.

(** The route's [loader]. *)
Definition loader : L (list HolderPoint * SankeyData) :=
  holderSeries ← getHolderSeries;
  sankeyData ← getSankeyData;
  mret (holderSeries, sankeyData).

End Sankey.

Arguments mkFlowRow {Num}.
Arguments mkSankeyLink {Num}.
Arguments mkSankeyData {Num}.
Arguments row_hour {Num}.
Arguments from_addr {Num}.
Arguments to_addr {Num}.
Arguments amount {Num}.
Arguments source {Num}.
Arguments target {Num}.
Arguments value {Num}.
Arguments link_day {Num}.
Arguments nodes {Num}.
Arguments links {Num}.
Arguments sankeyStep {Num}.
Arguments sankeyLoop {Num}.
Arguments buildSankey {Num}.
Arguments emptySankey {Num}.

End Holders.

(** *** routes/holders.tsx: what the hourly Sankey draws *)

Module HourlySankey.
Import JsMap Holders.

Section Prepared.
Context {Num : Type}.

(** [Math.max(0.0001, Number(v) || 0)] *)
Variable clampValue : Num -> Num.

(** [Array.prototype.sort()] without a comparator. *)
Variable sortStrings : list string -> list string.

(** [{ ...n, name: n.label ?? n.id }]: the label is a string. *)
Record PreparedNode : Type := mkPreparedNode {
  node : SankeyNode;
  name : string
}.

(** The links of the graph carry no [hour], so what is read from it
    is undefined ([None]). *)
Record IndexedLink : Type := mkIndexedLink {
  source_index : Z;
  target_index : Z;
  indexed_value : Num;
  link_hour : option string
}.

Record Prepared : Type := mkPrepared {
  prepared_nodes : list PreparedNode;
  prepared_links : list IndexedLink;
  hours : list string
}.

(** [nodes.forEach((n, idx) => idToIndex.set(n.id, idx))] *)
Fixpoint indexNodes (idx : Z) (ns : list PreparedNode) (idToIndex : list (string * Z))
  : list (string * Z) :=
  match ns with
  | [] => idToIndex
  | n :: rest => indexNodes (idx + 1) rest (mapSet (id (node n)) idx idToIndex)
  end.

(** [l.source && l.target && l.source !== l.target] *)
Definition drawn (l : SankeyLink Num) : bool :=
  negb (Str.isEmpty (source l)) && negb (Str.isEmpty (target l))
  && negb (String.eqb (source l) (target l)).

Definition prepared (data : SankeyData Num) : Prepared :=
  let nodes := map (fun n => mkPreparedNode n (label n)) (nodes data) in
  let links :=
    map (fun l => mkSankeyLink (source l) (target l) (clampValue (value l)) (link_day l))
        (List.filter drawn (links data)) in
  let hours :=
    sortStrings (fold_left (fun s n => setAdd (hour (node n)) s) nodes []) in
  let idToIndex := indexNodes 0 nodes [] in
  let indexedLinks :=
    List.filter (fun l => (0 <=? source_index l)%Z && (0 <=? target_index l)%Z)
      (map (fun l => mkIndexedLink (default (-1)%Z (mapGet (source l) idToIndex))
                                   (default (-1)%Z (mapGet (target l) idToIndex))
                                   (value l) None)
           links) in
  mkPrepared nodes indexedLinks hours.

End Prepared.

Arguments mkIndexedLink {Num}.
Arguments mkPrepared {Num}.
Arguments source_index {Num}.
Arguments target_index {Num}.
Arguments indexed_value {Num}.
Arguments link_hour {Num}.
Arguments prepared_nodes {Num}.
Arguments prepared_links {Num}.
Arguments hours {Num}.

End HourlySankey.

(** *** routes/transfers.tsx (the index route has the same helpers) *)

(** [String.prototype.slice], on strings of one-byte characters (the
    addresses are hexadecimal text). *)
Module JsString.

Fixpoint take (n : nat) (s : string) : string :=
  match n, s with
  | S n', String c r => String c (take n' r)
  | _, _ => EmptyString
  end.

Fixpoint drop (n : nat) (s : string) : string :=
  match n, s with
  | S n', String _ r => drop n' r
  | _, _ => s
  end.

(** A relative index: negative counts from the end, both clamped. *)
Definition clampIndex (len : nat) (i : Z) : nat :=
  if (i <? 0)%Z then Z.to_nat (Z.max (Z.of_nat len + i) 0)
  else Nat.min (Z.to_nat i) len.

(** [s.slice(start, end)]; [end] omitted is the length. *)
Definition slice (s : string) (start : Z) (end_ : option Z) : string :=
  let len := String.length s in
  let from := clampIndex len start in
  let to := match end_ with Some e => clampIndex len e | None => len end in
  take (to - from) (drop from s).

End JsString.

Module Transfers.
Import JsMap.

Record TransferRow : Type := mkTransferRow {
  block : Z;
  timestamp : Z;
  tx_hash : string;
  from_addr : option string;      (* None: null *)
  to_addr : option string;
  value : string;
  direction : option string;
  is_mint : Z;
  is_burn : Z
}.

(** Truthiness of a string that may be null, and of a number. *)
Definition truthy (s : option string) : bool :=
  match s with
  | Some s => negb (Str.isEmpty s)
  | None => false
  end.

Definition truthyNumber (n : Z) : bool := negb (n =? 0)%Z.

Record FlowLink : Type := mkFlowLink {
  source : option string;         (* None: undefined *)
  target : option string;
  link_value : nat
}.

Record FlowNode : Type := mkFlowNode { id : string }.

Record FlowData : Type := mkFlowData {
  nodes : list FlowNode;
  links : list FlowLink
}.

(** [key.split('->')] *)
Fixpoint splitArrow (s : string) : list string :=
  match s with
  | EmptyString => [EmptyString]
  | String c r =>
      let keep :=
        match splitArrow r with
        | h :: t => String c h :: t
        | [] => [String c EmptyString]
        end in
      if Ascii.eqb c "-" then
        match r with
        | String c' r' => if Ascii.eqb c' ">" then EmptyString :: splitArrow r' else keep
        | EmptyString => keep
        end
      else keep
  end.

(** The callback of [transfers.forEach]. *)
Definition countStep (st : list (string * nat) * list string) (tx : TransferRow)
  : list (string * nat) * list string :=
  let '(linkCounts, nodeIds) := st in
  if negb (truthy (from_addr tx)) || negb (truthy (to_addr tx)) then st
  else
    let from := default "" (from_addr tx) in
    let to := default "" (to_addr tx) in
    let key := from +:+ "->" +:+ to in
    (mapSet key (default 0 (mapGet key linkCounts) + 1) linkCounts,
     setAdd to (setAdd from nodeIds)).

Definition countLoop (transfers : list TransferRow) : list (string * nat) * list string :=
  fold_left countStep transfers ([], []).

(** [([key, value]) => { const [source, target] = key.split('->'); ... }] *)
Definition linkOfEntry (entry : string * nat) : FlowLink :=
  let parts := splitArrow (fst entry) in
  mkFlowLink (nth_error parts 0) (nth_error parts 1) (snd entry).

(** [.sort((a, b) => b.value - a.value)]: the sort is stable, so the
    result is the one an insertion from the right gives. *)
Fixpoint insertDesc (l : FlowLink) (sorted : list FlowLink) : list FlowLink :=
  match sorted with
  | [] => [l]
  | h :: t =>
      if (link_value l <? link_value h)%nat then h :: insertDesc l t
      else l :: sorted
  end.

Definition sortDesc (ls : list FlowLink) : list FlowLink :=
  fold_right insertDesc [] ls.

(** [l.source === id] *)
Definition isString (o : option string) (s : string) : bool :=
  match o with
  | Some x => String.eqb x s
  | None => false
  end.

Definition touches (l : FlowLink) (nodeId : string) : bool :=
  isString (source l) nodeId || isString (target l) nodeId.

Definition topLinks (linkCounts : list (string * nat)) : list FlowLink :=
  firstn 40 (sortDesc (map linkOfEntry linkCounts)).

(** The [useMemo] that computes [flowData]; [None] is a loader result
    that is undefined. *)
Definition flowData (transfers : option (list TransferRow)) : FlowData :=
  match transfers with
  | None => mkFlowData [] []
  | Some [] => mkFlowData [] []
  | Some txs =>
      let '(linkCounts, nodeIds) := countLoop txs in
      let links := topLinks linkCounts in
      let nodes :=
        map mkFlowNode (List.filter (fun nodeId => existsb (fun l => touches l nodeId) links) nodeIds) in
      mkFlowData nodes links
  end.

Definition shortenAddress (address : option string) : string :=
  match address with
  | None => "N/A"
  | Some a =>
      if Str.isEmpty a then "N/A"
      else JsString.slice a 0 (Some 6%Z) +:+ "..." +:+ JsString.slice a (-4) None
  end.

Definition labelFor (tx : TransferRow) : string :=
  if truthyNumber (is_mint tx) then "Mint"
  else if truthyNumber (is_burn tx) then "Burn"
  else match direction tx with
       | Some d => if Str.isEmpty d then "Transfer" else d
       | None => "Transfer"
       end.

Definition badgeBase : string :=
  "inline-flex items-center rounded-full border px-2 py-1 text-xs font-semibold".

Definition badgeClass (tx : TransferRow) : string :=
  if truthyNumber (is_mint tx)
  then badgeBase +:+ " border-emerald-200 bg-emerald-50 text-emerald-700"
  else if truthyNumber (is_burn tx)
  then badgeBase +:+ " border-rose-200 bg-rose-50 text-rose-700"
  else badgeBase +:+ " border-indigo-200 bg-indigo-50 text-indigo-700".

End Transfers.

(** *** routes/transfers.tsx: amounts *)

Module Format.

Definition isDigit (c : ascii) : bool :=
  let n := nat_of_ascii c in (48 <=? n)%nat && (n <=? 57)%nat.

(** [\w]: a letter, a digit or '_'. *)
Definition isWord (c : ascii) : bool :=
  let n := nat_of_ascii c in
  isDigit c
  || ((65 <=? n)%nat && (n <=? 90)%nat)
  || ((97 <=? n)%nat && (n <=? 122)%nat)
  || (n =? 95)%nat.

(** How many digits the string starts with. *)
Fixpoint digitRun (s : string) : nat :=
  match s with
  | String c r => if isDigit c then S (digitRun r) else 0
  | EmptyString => 0
  end.

(** [(?=(\d{3})+(?!\d))]: groups of three digits follow, up to a
    character that is no digit (or the end). *)
Definition groupsAhead (s : string) : bool :=
  let n := digitRun s in (0 <? n)%nat && (n mod 3 =? 0)%nat.

Definition wordBefore (prev : option ascii) : bool :=
  match prev with
  | Some c => isWord c
  | None => false
  end.

Definition wordAt (s : string) : bool :=
  match s with
  | String c _ => isWord c
  | EmptyString => false
  end.

(** [\B]: not at a word boundary. *)
Definition nonBoundary (prev : option ascii) (s : string) : bool :=
  Bool.eqb (wordBefore prev) (wordAt s).

(** [.replace(/\B(?=(\d{3})+(?!\d))/g, ',')]: every position is tried
    once, the character before it being [prev]. *)
Fixpoint insertCommasFrom (prev : option ascii) (s : string) : string :=
  let rest :=
    match s with
    | EmptyString => EmptyString
    | String c r => String c (insertCommasFrom (Some c) r)
    end in
  if nonBoundary prev s && groupsAhead s then String "," rest else rest.

Definition insertCommas (s : string) : string := insertCommasFrom None s.

(** [value.toString()] of a bigint. *)
Definition bigintToString (value : Z) : string := pretty value.

Definition addThousands (value : Z) : string :=
  insertCommas (bigintToString value).

Fixpoint repeatChar (n : nat) (c : ascii) : string :=
  match n with
  | 0 => EmptyString
  | S n' => String c (repeatChar n' c)
  end.

(** [s.padStart(targetLength, c)] *)
Definition padStart (targetLength : nat) (c : ascii) (s : string) : string :=
  repeatChar (targetLength - String.length s) c +:+ s.

Section FormatToken.

(** [BigInt(text)] of the platform: the integer, or the SyntaxError. *)
Variable toBigInt : string -> Completion Z.

(** The text returned and what [console.error] received. *)
Definition formatToken (raw : string) (decimals precision : nat) : string * list JsError :=
  let sign := if Str.startsWith raw "-" then "-" else "" in
  let magnitude := if Str.startsWith raw "-" then JsString.slice raw 1 None else raw in
  match toBigInt magnitude with
  | Throw err => (raw, [err])
  | Normal value =>
      let base := (10 ^ Z.of_nat decimals)%Z in
      let whole := Z.quot value base in
      let fraction := Z.rem value base in
      let wholeWithCommas := addThousands whole in
      let fractionStr :=
        JsString.slice (padStart decimals "0" (bigintToString fraction))
                       0 (Some (Z.of_nat precision)) in
      (sign +:+ wholeWithCommas
         +:+ (if Str.isEmpty fractionStr then "" else "." +:+ fractionStr),
       [])
  end.

End FormatToken.

(** A stand-in for [BigInt(text)] on decimal digits. *)
Fixpoint decimalValue (acc : Z) (s : string) : option Z :=
  match s with
  | EmptyString => Some acc
  | String c r =>
      if isDigit c
      then decimalValue (10 * acc + Z.of_nat (nat_of_ascii c - 48))%Z r
      else None
  end.

Definition decimalBigInt (text : string) : Completion Z :=
  match text with
  | EmptyString => Normal 0%Z
  | _ => match decimalValue 0 text with
         | Some v => Normal v
         | None => Throw (ThrownValue "SyntaxError: Cannot convert to a BigInt")
         end
  end.

(** The digit of [n mod 10], and [n] written with exactly [k] digits
    (the lowest [k] digits of [n]). *)
Fixpoint digitsFixed (k : nat) (n : N) : string :=
  match k with
  | 0 => EmptyString
  | S k' => digitsFixed k' (n / 10)%N +:+ String (pretty_N_char (n mod 10)%N) EmptyString
  end.

Fixpoint allDigits (s : string) : bool :=
  match s with
  | EmptyString => true
  | String c r => isDigit c && allDigits r
  end.

(** The string without its commas. *)
Fixpoint withoutCommas (s : string) : string :=
  match s with
  | EmptyString => EmptyString
  | String c r => if Ascii.eqb c "," then withoutCommas r else String c (withoutCommas r)
  end.

End Format.

(** Names for the parts of the loop that the statements about it use. *)
Module HoldersAux.
Import JsMap Holders.

Section Aux.
Context {Num : Type}.

(** [if (!nodesMap.has(key)) nodesMap.set(key, node)] *)
Definition ensure (key : string) (n : SankeyNode) (m : list (string * SankeyNode))
  : list (string * SankeyNode) :=
  if mapHas key m then m else mapSet key n m.

(** The link pushed for a row. *)
Definition linkOf (row : FlowRow Num) : SankeyLink Num :=
  mkSankeyLink (row_hour row +:+ "-" +:+ from_addr row)
               (row_hour row +:+ "-" +:+ to_addr row)
               (amount row) (row_hour row).

(** What the loop keeps true of the map and the links collected. *)
Record Inv (st : list (string * SankeyNode) * list (SankeyLink Num)) : Prop := mkInv {
  inv_nodup : List.NoDup (map fst (fst st));
  inv_ids : forall k n, In (k, n) (fst st) -> exists h a, n = nodeFor h a /\ k = id n;
  inv_closed : forall l, In l (snd st) ->
                 In (source l) (map fst (fst st)) /\ In (target l) (map fst (fst st));
  inv_used : forall k, In k (map fst (fst st)) ->
               exists l, In l (snd st) /\ (source l = k \/ target l = k);
  inv_size : length (fst st) <= 2 * length (snd st)
}.

End Aux.
End HoldersAux.

(** Names for what the statements about [flowData] count. *)
Module TransfersAux.
Import Transfers.

(** Both addresses are truthy: the transfer is counted. *)
Definition counted (tx : TransferRow) : bool :=
  truthy (from_addr tx) && truthy (to_addr tx).

Definition keyOf (tx : TransferRow) : string :=
  default "" (from_addr tx) +:+ "->" +:+ default "" (to_addr tx).

(** How many counted transfers have the key [k]. *)
Definition keyCount (k : string) (txs : list TransferRow) : nat :=
  length (List.filter (fun tx => counted tx && String.eqb (keyOf tx) k) txs).

(** How many transfers go from [f] to [t]. *)
Definition transfersBetween (f t : string) (txs : list TransferRow) : nat :=
  length (List.filter (fun tx => isString (from_addr tx) f && isString (to_addr tx) t) txs).

Fixpoint noGreaterThan (s : string) : bool :=
  match s with
  | EmptyString => true
  | String c r => negb (Ascii.eqb c ">") && noGreaterThan r
  end.

(** Neither address contains the character '>'. *)
Definition plainAddresses (tx : TransferRow) : bool :=
  noGreaterThan (default "" (from_addr tx)) && noGreaterThan (default "" (to_addr tx)).

Definition descending (ls : list FlowLink) : Prop :=
  StronglySorted (fun a b => link_value b <= link_value a) ls.

Definition totalValue (ls : list FlowLink) : nat :=
  fold_right (fun l acc => link_value l + acc) 0 ls.

Definition sumCounts (cs : list (string * nat)) : nat :=
  fold_right (fun kv acc => snd kv + acc) 0 cs.

(** A count as the map holds it: absent until the first transfer. *)
Definition positive (n : nat) : option nat :=
  match n with
  | 0 => None
  | S _ => Some n
  end.

(** What [forEach] keeps true of the counts and the node ids, after the
    transfers [txs]. *)
Record CountInv (txs : list TransferRow) (st : list (string * nat) * list string) : Prop :=
  mkCountInv {
    c_nodup : List.NoDup (map fst (fst st));
    c_get : forall k, JsMap.mapGet k (fst st) = positive (keyCount k txs);
    c_sum : sumCounts (fst st) = length (List.filter counted txs);
    c_ids_nodup : List.NoDup (snd st);
    c_ids : forall x, In x (snd st) <->
              exists tx, In tx txs /\ counted tx = true
                         /\ (from_addr tx = Some x \/ to_addr tx = Some x)
  }.

End TransfersAux.

(** Sample rows of the transfers table. *)
Definition sampleTransfer (f t : string) : Transfers.TransferRow :=
  Transfers.mkTransferRow 19000000 1700000000 "0xabc" (Some f) (Some t)
                          "1000000000000000000" (Some "out") 0 0.

Definition sampleTransfers : list Transfers.TransferRow :=
  [ sampleTransfer "0xaa" "0xbb"; sampleTransfer "0xbb" "0xcc";
    sampleTransfer "0xaa" "0xbb"; sampleTransfer "" "0xcc" ].

(** The three badges. *)
Definition badgeMint : string :=
  Transfers.badgeBase +:+ " border-emerald-200 bg-emerald-50 text-emerald-700".
Definition badgeBurn : string :=
  Transfers.badgeBase +:+ " border-rose-200 bg-rose-50 text-rose-700".
Definition badgeOther : string :=
  Transfers.badgeBase +:+ " border-indigo-200 bg-indigo-50 text-indigo-700".

(** * Properties *)

(** ** Worked examples of the path functions *)

Example split_ex : Str.split "/assets/../a//b/" = [""; "assets"; ".."; "a"; ""; "b"; ""].
Proof. reflexivity. Qed.
Example normalize_ex1 : Path.normalize "/assets/../../etc/passwd" = "/etc/passwd".
Proof. reflexivity. Qed.
Example normalize_ex2 : Path.normalize "/assets//./app.js" = "/assets/app.js".
Proof. reflexivity. Qed.
Example normalize_ex3 : Path.normalize "a/../../b/" = "../b/".
Proof. reflexivity. Qed.
Example normalize_ex4 : Path.normalize "/assets/.." = "/".
Proof. reflexivity. Qed.
Example normalize_ex5 : Path.normalize "./" = "./".
Proof. reflexivity. Qed.
Example join_ex : Path.join ["/app/dist/client"; "assets/app.js"] = "/app/dist/client/assets/app.js".
Proof. reflexivity. Qed.
Example resolve_ex : Path.resolve "/app" ["dist/client"] = "/app/dist/client".
Proof. reflexivity. Qed.
Example extname_ex1 : Path.extname "/app/dist/client/assets/app.js" = ".js".
Proof. reflexivity. Qed.
Example extname_ex2 : Path.extname "/x/.bashrc" = "".
Proof. reflexivity. Qed.
Example extname_ex3 : Path.extname "/x/a.b.c/" = ".c".
Proof. reflexivity. Qed.
Example extname_ex4 : Path.extname "/x/.." = "".
Proof. reflexivity. Qed.
Example extname_ex5 : Path.extname "/x/a." = ".".
Proof. reflexivity. Qed.
Example extname_ex6 : Path.extname "/x.y/a" = "".
Proof. reflexivity. Qed.

Example within_ex1 : within "/app/dist/client" "/app/dist/client/assets/app.js" = true.
Proof. reflexivity. Qed.
Example within_ex2 : within "/app/dist/client" "/app/dist/etc/passwd" = false.
Proof. reflexivity. Qed.
Example within_ex3 : within "/app/dist/client" "/app/dist/client/../x" = false.
Proof. reflexivity. Qed.
Example within_ex4 : within "/app/dist/client" "/app/dist/clientele/x" = false.
Proof. reflexivity. Qed.
Example isDescendant_ex1 : isDescendant "/app/dist/client" "/app/dist/client" = false.
Proof. reflexivity. Qed.
Example isDescendant_ex2 : isDescendant "/app/dist/client" "/app/dist/client/favicon.ico" = true.
Proof. reflexivity. Qed.

(** ** Strings *)

Module StrFacts.
Import Str.

Lemma append_nil (s : string) : "" +:+ s = s.
Proof. reflexivity. Qed.

Lemma append_cons (c : ascii) (s t : string) : String c s +:+ t = String c (s +:+ t).
Proof. reflexivity. Qed.

Lemma append_empty_r (s : string) : s +:+ "" = s.
Proof. induction s as [|c s IH]; [reflexivity | now rewrite append_cons, IH]. Qed.

Lemma append_assoc (a b c : string) : (a +:+ b) +:+ c = a +:+ (b +:+ c).
Proof. induction a as [|x a IH]; [reflexivity | now rewrite !append_cons, IH]. Qed.

Lemma isEmpty_true (s : string) : isEmpty s = true -> s = "".
Proof. destruct s; [reflexivity | discriminate]. Qed.

Lemma isEmpty_append (a b : string) : isEmpty (a +:+ b) = isEmpty a && isEmpty b.
Proof. destruct a; reflexivity. Qed.

Lemma split_not_nil (s : string) : split s <> [].
Proof.
  induction s as [|c s IH]; simpl; [discriminate |].
  destruct (isSlash c); [discriminate |].
  destruct (split s); [contradiction | discriminate].
Qed.

(** Splitting at a separator that is known to be there. *)
Lemma split_append (a b : string) :
  split (a +:+ String slash b) = split a ++ split b.
Proof.
  induction a as [|c a IH].
  - reflexivity.
  - rewrite append_cons. simpl. rewrite IH. destruct (isSlash c); [reflexivity |].
    pose proof (split_not_nil a) as Hne.
    destruct (split a) as [|h t]; [contradiction | reflexivity].
Qed.

Lemma split_slashFree (s : string) : slashFree s = true -> split s = [s].
Proof.
  induction s as [|c s IH]; simpl; [reflexivity |].
  intros H. apply andb_true_iff in H as [Hc Hs].
  apply negb_true_iff in Hc. rewrite Hc, (IH Hs). reflexivity.
Qed.

Lemma split_pieces_slashFree (s : string) :
  Forall (fun p => slashFree p = true) (split s).
Proof.
  induction s as [|c s IH]; simpl.
  - constructor; [reflexivity | constructor].
  - destruct (isSlash c) eqn:Hc.
    + constructor; [reflexivity | exact IH].
    + destruct (split s) as [|h t]; [repeat constructor; simpl; now rewrite Hc |].
      inversion IH as [|? ? Hh Ht]; subst.
      constructor; [simpl; now rewrite Hc, Hh | exact Ht].
Qed.

Lemma split_join (segs : list string) :
  segs <> [] ->
  Forall (fun p => slashFree p = true) segs ->
  split (unsplit segs) = segs.
Proof.
  induction segs as [|x [|y l] IH]; intros Hne Hall.
  - contradiction.
  - inversion Hall; subst. now apply split_slashFree.
  - inversion Hall as [|? ? Hx Hrest]; subst.
    change (unsplit (x :: y :: l)) with (x +:+ String slash (unsplit (y :: l))).
    rewrite split_append, (split_slashFree _ Hx), IH; [reflexivity | discriminate | exact Hrest].
Qed.

Lemma startsWithSlash_append (a b : string) :
  isEmpty a = false -> startsWithSlash (a +:+ b) = startsWithSlash a.
Proof. destruct a; [discriminate | reflexivity]. Qed.

Lemma stripLeadingSlashes_id (s : string) :
  startsWithSlash s = false -> stripLeadingSlashes s = s.
Proof. destruct s as [|c s]; simpl; [reflexivity | now intros ->]. Qed.

End StrFacts.

(** ** Paths *)

Module PathFacts.
Import Str StrFacts Path.

Lemma clean_inv (s : string) :
  clean s ->
  isEmpty s = false /\ isDots1 s = false /\ isDots2 s = false /\ slashFree s = true.
Proof.
  unfold clean, cleanSegment, isDotSegment. intros H.
  apply andb_true_iff in H as [H Hsf]. apply andb_true_iff in H as [He Hd].
  apply negb_true_iff in He, Hd. apply orb_false_iff in Hd as [H1 H2]. auto.
Qed.

Lemma clean_not_dot (s : string) : clean s -> isDotSegment s = false.
Proof.
  intros H. destruct (clean_inv _ H) as (_ & H1 & H2 & _).
  unfold isDotSegment. now rewrite H1, H2.
Qed.

Lemma clean_head (s t : string) :
  clean s -> startsWithSlash (s +:+ t) = false /\ isEmpty (s +:+ t) = false.
Proof.
  intros H. destruct (clean_inv _ H) as (He & _ & _ & Hsf).
  destruct s as [|c s]; [discriminate |].
  rewrite append_cons. simpl in *.
  apply andb_true_iff in Hsf as [Hc _]. apply negb_true_iff in Hc. auto.
Qed.

(** Without climbing above the root, only clean segments are kept. *)
Lemma normalizeStep_clean (res : list string) (seg : string) :
  Forall clean res -> slashFree seg = true ->
  Forall clean (normalizeStep false res seg).
Proof.
  intros Hres Hseg. unfold normalizeStep.
  destruct (isEmpty seg) eqn:He; [exact Hres |].
  destruct (isDots1 seg) eqn:H1; [exact Hres |]. simpl.
  destruct (isDots2 seg) eqn:H2.
  - destruct res as [|last res']; [constructor |].
    inversion Hres; subst.
    destruct (isDots2 last); assumption.
  - constructor; [| exact Hres].
    unfold clean, cleanSegment, isDotSegment. now rewrite He, H1, H2, Hseg.
Qed.

Lemma normalizeLoop_clean (segs res : list string) :
  Forall clean res -> Forall (fun p => slashFree p = true) segs ->
  Forall clean (normalizeLoop false res segs).
Proof.
  revert res. induction segs as [|seg rest IH]; intros res Hres Hsegs; simpl.
  - exact Hres.
  - inversion Hsegs; subst. apply IH; [now apply normalizeStep_clean | assumption].
Qed.

Lemma Forall_rev_clean (l : list string) : Forall clean l -> Forall clean (rev l).
Proof.
  intros H. apply List.Forall_forall. intros x Hx.
  apply List.in_rev in Hx. revert x Hx. now apply List.Forall_forall.
Qed.

Lemma normalizeSegments_clean (path : string) :
  Forall clean (normalizeSegments false path).
Proof.
  unfold normalizeSegments. apply Forall_rev_clean.
  apply normalizeLoop_clean; [constructor | apply split_pieces_slashFree].
Qed.

(** On pieces that are empty or clean the walk only drops the empty ones. *)
Lemma normalizeLoop_tame (segs res : list string) :
  Forall tame segs ->
  normalizeLoop false res segs
  = rev (List.filter (fun s => negb (isEmpty s)) segs) ++ res.
Proof.
  revert res. induction segs as [|seg rest IH]; intros res Hsegs; simpl.
  - reflexivity.
  - inversion Hsegs as [|? ? Hseg Hrest]; subst. rewrite (IH _ Hrest).
    unfold normalizeStep. destruct Hseg as [He | Hc].
    + now rewrite He.
    + destruct (clean_inv _ Hc) as (He & H1 & H2 & _).
      rewrite He, H1, H2. simpl. now rewrite <- List.app_assoc.
Qed.

Lemma normalizeSegments_tame (path : string) :
  Forall tame (split path) -> normalizeSegments false path = components path.
Proof.
  intros H. unfold normalizeSegments, components.
  rewrite (normalizeLoop_tame _ [] H), List.app_nil_r. apply List.rev_involutive.
Qed.

Lemma components_append (a b : string) :
  components (a +:+ String slash b) = components a ++ components b.
Proof. unfold components. now rewrite split_append, List.filter_app. Qed.

Lemma clean_slashFree (l : list string) :
  Forall clean l -> Forall (fun p => slashFree p = true) l.
Proof.
  intros H. eapply List.Forall_impl; [| exact H].
  intros s Hs. now destruct (clean_inv _ Hs) as (_ & _ & _ & ?).
Qed.

Lemma filter_clean (l : list string) :
  Forall clean l -> List.filter (fun s => negb (isEmpty s)) l = l.
Proof.
  induction 1 as [|s l Hs _ IH]; simpl; [reflexivity |].
  destruct (clean_inv _ Hs) as (He & _). now rewrite He, IH.
Qed.

Lemma split_join_clean (l : list string) :
  Forall clean l -> split (Str.unsplit l) = match l with [] => [""] | _ => l end.
Proof.
  intros H. destruct l as [|x l]; [reflexivity |].
  apply split_join; [discriminate | now apply clean_slashFree].
Qed.

Lemma components_join (l : list string) :
  Forall clean l -> components (Str.unsplit l) = l.
Proof.
  intros H. unfold components. rewrite (split_join_clean _ H).
  destruct l; [reflexivity | now apply filter_clean].
Qed.

Lemma tame_split_join (l : list string) :
  Forall clean l -> Forall tame (split (Str.unsplit l)).
Proof.
  intros H. rewrite (split_join_clean _ H). destruct l as [|x l].
  - constructor; [now left | constructor].
  - eapply List.Forall_impl; [| exact H]. intros y Hy. now right.
Qed.

Lemma tame_split_append (a b : string) :
  Forall tame (split a) -> Forall tame (split b) ->
  Forall tame (split (a +:+ String slash b)).
Proof. intros Ha Hb. rewrite split_append. now apply List.Forall_app. Qed.

Lemma tame_split_empty : Forall tame (split "").
Proof. constructor; [now left | constructor]. Qed.

Lemma tame_split_trail (l : list string) (t : string) :
  Forall clean l -> isTrail t -> Forall tame (split (Str.unsplit l +:+ t)).
Proof.
  intros H [-> | ->].
  - rewrite append_empty_r. now apply tame_split_join.
  - apply tame_split_append; [now apply tame_split_join | apply tame_split_empty].
Qed.

Lemma components_trail (l : list string) (t : string) :
  Forall clean l -> isTrail t -> components (Str.unsplit l +:+ t) = l.
Proof.
  intros H [-> | ->].
  - rewrite append_empty_r. now apply components_join.
  - change "/" with (String slash ""). rewrite components_append, (components_join _ H).
    apply List.app_nil_r.
Qed.

Lemma rooted_components (l : list string) (t : string) :
  Forall clean l -> isTrail t -> components (rooted l t) = l.
Proof.
  intros H Ht. unfold rooted.
  change ("/" +:+ Str.unsplit l +:+ t) with ("" +:+ String slash (Str.unsplit l +:+ t)).
  rewrite components_append. now apply components_trail.
Qed.

Lemma rooted_tame (l : list string) (t : string) :
  Forall clean l -> isTrail t -> Forall tame (split (rooted l t)).
Proof.
  intros H Ht. unfold rooted.
  change ("/" +:+ Str.unsplit l +:+ t) with ("" +:+ String slash (Str.unsplit l +:+ t)).
  apply tame_split_append; [apply tame_split_empty | now apply tame_split_trail].
Qed.

End PathFacts.

Module JoinFacts.
Import Str StrFacts Path PathFacts.

Lemma endsWithSlash_append (a b : string) :
  isEmpty b = false -> endsWithSlash (a +:+ b) = endsWithSlash b.
Proof.
  intros Hb. induction a as [|c a IH]; [reflexivity |].
  rewrite append_cons. simpl.
  destruct (a +:+ b) eqn:E; [| exact IH].
  destruct a; [rewrite append_nil in E; subst; discriminate | discriminate].
Qed.

Lemma endsWithSlash_slashFree (s : string) :
  slashFree s = true -> endsWithSlash s = false.
Proof.
  induction s as [|c s IH]; [reflexivity |]. simpl. intros H.
  apply andb_true_iff in H as [Hc Hs]. apply negb_true_iff in Hc.
  destruct s; [exact Hc | now apply IH].
Qed.

Lemma join_cons2 (x y : string) (l : list string) :
  Str.unsplit (x :: y :: l) = x +:+ String slash (Str.unsplit (y :: l)).
Proof. reflexivity. Qed.

Lemma join_head (x : string) (l : list string) :
  exists rest, Str.unsplit (x :: l) = x +:+ rest.
Proof.
  destruct l as [|y l].
  - exists "". simpl. now rewrite append_empty_r.
  - eexists. apply join_cons2.
Qed.

Lemma join_clean_head (x : string) (l : list string) (t : string) :
  clean x ->
  startsWithSlash (Str.unsplit (x :: l) +:+ t) = false
  /\ isEmpty (Str.unsplit (x :: l) +:+ t) = false.
Proof.
  intros Hx. destruct (join_head x l) as [rest ->].
  rewrite append_assoc. now apply clean_head.
Qed.

Lemma join_clean_tail (l : list string) :
  Forall clean l -> endsWithSlash (Str.unsplit l) = false.
Proof.
  induction l as [|x [|y l] IH]; intros H.
  - reflexivity.
  - inversion H; subst. apply endsWithSlash_slashFree.
    now destruct (clean_inv x) as (_ & _ & _ & ?).
  - inversion H as [|? ? Hx Hrest]; subst. rewrite join_cons2.
    inversion Hrest as [|? ? Hy _]; subst.
    destruct (join_clean_head y l "" Hy) as [_ Hne]. rewrite append_empty_r in Hne.
    rewrite endsWithSlash_append by reflexivity.
    change (String slash (Str.unsplit (y :: l))) with ("/" +:+ Str.unsplit (y :: l)).
    rewrite endsWithSlash_append by exact Hne. now apply IH.
Qed.

Lemma rooted_head (l : list string) (t : string) :
  startsWithSlash (rooted l t) = true /\ isEmpty (rooted l t) = false.
Proof. split; reflexivity. Qed.

Lemma rooted_tail (l : list string) :
  Forall clean l -> l <> [] -> endsWithSlash (rooted l "") = false.
Proof.
  intros H Hne. unfold rooted. rewrite append_empty_r.
  destruct l as [|x l]; [contradiction |].
  inversion H as [|? ? Hx _]; subst.
  destruct (join_clean_head x l "" Hx) as [_ Hnz]. rewrite append_empty_r in Hnz.
  rewrite endsWithSlash_append by exact Hnz. now apply join_clean_tail.
Qed.

(** [normalize] on an absolute path. *)
Lemma normalize_absolute (path : string) :
  startsWithSlash path = true ->
  let segs := normalizeSegments false path in
  let t := if isEmpty (Str.unsplit segs) then ""
           else if endsWithSlash path then "/" else "" in
  normalize path = rooted segs t.
Proof.
  intros Habs segs t. unfold normalize, normalizeString.
  destruct path as [|c path]; [discriminate |].
  change (isEmpty (String c path)) with false. cbv iota.
  rewrite Habs. change (negb true) with false. fold segs.
  unfold rooted. subst t.
  destruct (isEmpty (Str.unsplit segs)) eqn:He.
  - now rewrite (isEmpty_true _ He).
  - destruct (endsWithSlash (String c path)); [reflexivity |].
    now rewrite append_empty_r.
Qed.

Lemma normalize_absolute_trail (path : string) :
  startsWithSlash path = true ->
  exists t, isTrail t /\ normalize path = rooted (normalizeSegments false path) t
            /\ (normalizeSegments false path = [] -> t = "").
Proof.
  intros Habs. rewrite (normalize_absolute _ Habs).
  destruct (normalizeSegments false path) as [|x l] eqn:E.
  - exists "". split; [now left |]. split; reflexivity.
  - destruct (isEmpty (Str.unsplit (x :: l))).
    + exists "". split; [now left |]. split; [reflexivity | discriminate].
    + destruct (endsWithSlash path).
      * exists "/". split; [now right |]. split; [reflexivity | discriminate].
      * exists "". split; [now left |]. split; [reflexivity | discriminate].
Qed.

(** A path of the shape [/seg/.../seg] is already normal. *)
Lemma normalize_rooted (l : list string) :
  Forall clean l -> normalize (rooted l "") = rooted l "".
Proof.
  intros H. rewrite normalize_absolute by reflexivity.
  rewrite normalizeSegments_tame by (apply rooted_tame; [exact H | now left]).
  rewrite rooted_components by (exact H || now left).
  destruct l as [|x l]; [reflexivity |].
  rewrite rooted_tail by (exact H || discriminate).
  now destruct (isEmpty (Str.unsplit (x :: l))).
Qed.

Lemma join_clean_nonempty (l : list string) :
  Forall clean l -> l <> [] -> isEmpty (Str.unsplit l) = false.
Proof.
  intros H Hne. destruct l as [|x l]; [contradiction |].
  inversion H as [|? ? Hx _]; subst.
  destruct (join_clean_head x l "" Hx) as [_ Hnz]. now rewrite append_empty_r in Hnz.
Qed.

Lemma endsWithSlash_trail (l : list string) (t : string) :
  Forall clean l -> l <> [] -> isTrail t ->
  (if endsWithSlash (Str.unsplit l +:+ t) then "/" else "") = t.
Proof.
  intros H Hne [-> | ->].
  - now rewrite append_empty_r, join_clean_tail.
  - now rewrite endsWithSlash_append.
Qed.

(** [join(root, rel)] for a normal root and a normal relative path. *)
Lemma join_rooted (r s : list string) (t : string) :
  Forall clean r -> Forall clean s -> s <> [] -> isTrail t ->
  Path.join [rooted r ""; Str.unsplit s +:+ t] = rooted (r ++ s) t.
Proof.
  intros Hr Hs Hne Ht.
  assert (Hrs : Forall clean (r ++ s)) by now apply List.Forall_app.
  assert (Hnz : isEmpty (Str.unsplit s +:+ t) = false).
  { rewrite isEmpty_append, (join_clean_nonempty s) by assumption. reflexivity. }
  unfold Path.join. simpl joinArgs.
  change (isEmpty (rooted r "")) with false. cbv iota. rewrite Hnz.
  set (joined := rooted r "" +:+ "/" +:+ Str.unsplit s +:+ t).
  rewrite normalize_absolute by reflexivity.
  assert (Htame : Forall tame (split joined)).
  { apply (tame_split_append (rooted r "") (Str.unsplit s +:+ t)).
    - apply rooted_tame; [exact Hr | now left].
    - now apply tame_split_trail. }
  rewrite (normalizeSegments_tame _ Htame).
  assert (Hcomp : components joined = r ++ s).
  { unfold joined.
    change (rooted r "" +:+ "/" +:+ Str.unsplit s +:+ t)
      with (rooted r "" +:+ String slash (Str.unsplit s +:+ t)).
    rewrite components_append, rooted_components by (exact Hr || now left).
    now rewrite components_trail. }
  rewrite Hcomp.
  rewrite (join_clean_nonempty (r ++ s)) by (exact Hrs || (destruct r, s; easy)).
  f_equal. unfold joined.
  rewrite endsWithSlash_append by reflexivity.
  change ("/" +:+ Str.unsplit s +:+ t) with ("/" +:+ (Str.unsplit s +:+ t)).
  rewrite endsWithSlash_append by exact Hnz.
  now apply endsWithSlash_trail.
Qed.

End JoinFacts.

(** ** The static resolver *)

Module ResolverFacts.
Import Str StrFacts Path PathFacts JoinFacts.

Lemma clientDir_rooted (cwd : string) :
  startsWithSlash cwd = true ->
  exists r, Forall clean r /\ clientDir cwd = rooted r "".
Proof.
  intros Habs. unfold clientDir, resolve. simpl rev. simpl resolveLoop.
  destruct cwd as [|c cwd]; [discriminate |].
  change (isEmpty (String c cwd)) with false. cbv iota. rewrite Habs.
  exists (normalizeSegments false (String c cwd +:+ "/" +:+ "dist/client" +:+ "/" +:+ "")).
  split; [apply normalizeSegments_clean |].
  unfold rooted, normalizeString. now rewrite (append_empty_r (Str.unsplit _)).
Qed.

Lemma prefix_assets_absolute (pathname : string) :
  startsWith pathname "/assets/" = true -> startsWithSlash pathname = true.
Proof.
  destruct pathname as [|c p]; [discriminate |]. simpl.
  unfold isSlash, slash. rewrite (Ascii.eqb_sym c). now intros ?%andb_true_iff.
Qed.

(** The path [safeJoin] probes, for an absolute URL path. *)
Lemma safeJoinPath_absolute (r : list string) (pathname : string) :
  Forall clean r -> startsWithSlash pathname = true ->
  safeJoinPath (rooted r "") pathname = rooted r ""
  \/ exists s t, Forall clean s /\ s <> [] /\ isTrail t
       /\ safeJoinPath (rooted r "") pathname = rooted (r ++ s) t.
Proof.
  intros Hr Habs. unfold safeJoinPath.
  destruct (normalize_absolute_trail pathname Habs) as (t & Ht & -> & Hnil).
  pose proof (normalizeSegments_clean pathname) as Hs.
  destruct (normalizeSegments false pathname) as [|x s].
  - left. rewrite (Hnil eq_refl). change (stripLeadingSlashes (rooted [] "")) with "".
    unfold Path.join. simpl. now apply normalize_rooted.
  - right.
    inversion Hs as [|? ? Hx _]; subst.
    destruct (join_clean_head x s t Hx) as [Hhead _].
    change (stripLeadingSlashes (rooted (x :: s) t))
      with (stripLeadingSlashes (Str.unsplit (x :: s) +:+ t)).
    rewrite (stripLeadingSlashes_id _ Hhead).
    rewrite (join_rooted r (x :: s) t Hr Hs ltac:(discriminate) Ht).
    exists (x :: s), t. repeat split; [exact Hs | discriminate | exact Ht].
Qed.

(** The same for the bare names of the allow-list. *)
Lemma safeJoinPath_allowed (r : list string) (name : string) :
  Forall clean r -> name ∈ staticFiles ->
  exists s t, Forall clean s /\ s <> [] /\ isTrail t
    /\ safeJoinPath (rooted r "") name = rooted (r ++ s) t.
Proof.
  intros Hr Hin. unfold safeJoinPath.
  assert (Hshape : clean name /\ stripLeadingSlashes (normalize name) = Str.unsplit [name] +:+ "").
  { unfold staticFiles in Hin. set_unfold in Hin.
    repeat destruct Hin as [Hin | Hin]; subst name; split; reflexivity. }
  destruct Hshape as [Hc ->].
  assert (Hs : Forall clean [name]) by (constructor; [exact Hc | constructor]).
  rewrite (join_rooted r [name] "" Hr Hs ltac:(discriminate) ltac:(now left)).
  exists [name], "". repeat split; [exact Hs | discriminate | now left].
Qed.

Lemma safeJoinPath_candidate (r : list string) (pathname : string) :
  Forall clean r -> candidate pathname = true ->
  safeJoinPath (rooted r "") pathname = rooted r ""
  \/ exists s t, Forall clean s /\ s <> [] /\ isTrail t
       /\ safeJoinPath (rooted r "") pathname = rooted (r ++ s) t.
Proof.
  intros Hr Hcand. unfold candidate in Hcand.
  destruct (startsWithSlash pathname) eqn:Habs.
  - now apply safeJoinPath_absolute.
  - apply orb_true_iff in Hcand as [Hp | Hin].
    + apply prefix_assets_absolute in Hp. congruence.
    + apply bool_decide_eq_true in Hin.
      assert (stripOneSlash pathname = pathname) as Heq.
      { destruct pathname as [|c p]; [reflexivity |]. simpl in *. now rewrite Habs. }
      rewrite Heq in Hin. right. now apply safeJoinPath_allowed.
Qed.

Lemma isPrefixOf_app (l1 l2 : list string) : isPrefixOf l1 (l1 ++ l2) = true.
Proof.
  induction l1 as [|x l1 IH]; [reflexivity |]. simpl.
  now rewrite String.eqb_refl, IH.
Qed.

Lemma forallb_no_dots (l : list string) :
  Forall clean l -> forallb (fun s => negb (isDotSegment s)) l = true.
Proof.
  induction 1 as [|x l Hx _ IH]; [reflexivity |]. simpl.
  now rewrite (clean_not_dot _ Hx), IH.
Qed.

Lemma within_rooted (r s : list string) (t : string) :
  Forall clean r -> Forall clean s -> isTrail t ->
  within (rooted r "") (rooted (r ++ s) t) = true.
Proof.
  intros Hr Hs Ht. unfold within.
  assert (Hrs : Forall clean (r ++ s)) by now apply List.Forall_app.
  rewrite !rooted_components by (assumption || now left).
  rewrite (forallb_no_dots _ Hrs), isPrefixOf_app. reflexivity.
Qed.

Lemma isDescendant_rooted (r s : list string) (t : string) :
  Forall clean r -> Forall clean s -> s <> [] -> isTrail t ->
  isDescendant (rooted r "") (rooted (r ++ s) t) = true.
Proof.
  intros Hr Hs Hne Ht. unfold isDescendant.
  rewrite within_rooted by assumption.
  assert (Hrs : Forall clean (r ++ s)) by now apply List.Forall_app.
  rewrite !rooted_components by (assumption || now left).
  rewrite List.length_app. destruct s; [contradiction |]. simpl.
  apply Nat.ltb_lt. lia.
Qed.

(** What a successful [safeJoin] tells. *)
Lemma safeJoin_Some (root pathname p : string) (w : World) :
  fst (safeJoin root pathname w) = Normal (Some p) ->
  p = safeJoinPath root pathname /\ fileStat w p = Normal RegularFile.
Proof.
  unfold safeJoin, tryCatch, mbind, M_bind, bind, stat, mret, M_ret, ret.
  destruct (fileStat w (safeJoinPath root pathname)) as [k|e] eqn:E; simpl.
  - destruct k; simpl; intros H; inversion H; subst; auto.
  - discriminate.
Qed.

Lemma resolveStatic_Some (cwd pathname p : string) (w : World) :
  fst (resolveStatic cwd pathname w) = Normal (Some p) ->
  candidate pathname = true
  /\ p = safeJoinPath (clientDir cwd) pathname
  /\ fileStat w p = Normal RegularFile.
Proof.
  unfold resolveStatic, candidate.
  destruct (startsWith pathname "/assets/"); simpl.
  - intros H. split; [reflexivity | now apply safeJoin_Some].
  - destruct (bool_decide (stripOneSlash pathname ∈ staticFiles)).
    + intros H. split; [reflexivity | now apply safeJoin_Some].
    + discriminate.
Qed.

End ResolverFacts.

Module RootFacts.
Import Str StrFacts Path PathFacts JoinFacts ResolverFacts.

Lemma normalizeLoop_app (b : bool) (l1 l2 res : list string) :
  normalizeLoop b res (l1 ++ l2) = normalizeLoop b (normalizeLoop b res l1) l2.
Proof. revert res. induction l1 as [|x l1 IH]; intros res; simpl; [reflexivity | apply IH]. Qed.

Lemma join_app (r s : list string) :
  r <> [] -> s <> [] -> Str.unsplit (r ++ s) = Str.unsplit r +:+ "/" +:+ Str.unsplit s.
Proof.
  intros Hr Hs. induction r as [|x [|y r] IH]; [contradiction | |].
  - destruct s; [contradiction | reflexivity].
  - change ((x :: y :: r) ++ s) with (x :: (y :: r) ++ s).
    change (Str.unsplit (x :: (y :: r) ++ s)) with (x +:+ "/" +:+ Str.unsplit ((y :: r) ++ s)).
    rewrite IH by discriminate. rewrite join_cons2.
    change (String slash (Str.unsplit (y :: r))) with ("/" +:+ Str.unsplit (y :: r)).
    now rewrite !append_assoc.
Qed.

(** Below a root that is not "/", the joined path is the root, a
    separator and the relative path. *)
Lemma rooted_below (r s : list string) (t : string) :
  r <> [] -> s <> [] ->
  rooted (r ++ s) t = rooted r "" +:+ "/" +:+ Str.unsplit s +:+ t.
Proof.
  intros Hr Hs. unfold rooted. rewrite (join_app r s Hr Hs), append_empty_r.
  now rewrite !append_assoc.
Qed.

(** [clientDir] always ends in dist/client. *)
Lemma clientDir_shape (cwd : string) :
  startsWithSlash cwd = true ->
  exists r, Forall clean r /\ r <> [] /\ clientDir cwd = rooted r "".
Proof.
  intros Habs. unfold clientDir, resolve. simpl rev. simpl resolveLoop.
  destruct cwd as [|c cwd]; [discriminate |].
  change (isEmpty (String c cwd)) with false. cbv iota. rewrite Habs.
  set (joined := String c cwd +:+ "/" +:+ "dist/client" +:+ "/" +:+ "").
  exists (normalizeSegments false joined).
  split; [apply normalizeSegments_clean |]. split.
  - unfold normalizeSegments, joined.
    change (String c cwd +:+ "/" +:+ "dist/client" +:+ "/" +:+ "")
      with (String c cwd +:+ String slash "dist/client/").
    rewrite split_append. change (split "dist/client/") with ["dist"; "client"; ""].
    rewrite normalizeLoop_app.
    change (normalizeLoop false ?res ["dist"; "client"; ""])
      with ("client" :: "dist" :: res).
    simpl. intros H. now apply List.app_eq_nil in H as [_ ?].
  - unfold rooted, normalizeString. now rewrite (append_empty_r (Str.unsplit _)).
Qed.

End RootFacts.

(** ** The static resolver: the stated properties *)

Import Str StrFacts Path PathFacts JoinFacts ResolverFacts RootFacts.

(** [safeJoin] turns every outcome of [stat] into a value. *)
Lemma safeJoin_returns (root pathname : string) (w : World) :
  exists r, safeJoin root pathname w = (Normal r, w).
Proof.
  unfold safeJoin, tryCatch, mbind, M_bind, bind, stat.
  destruct (fileStat w (safeJoinPath root pathname)) as [k | e]; [| now eexists].
  destruct k; simpl; now eexists.
Qed.

Lemma safeJoin_not_file (root pathname : string) (w : World) :
  statFindsFile w (safeJoinPath root pathname) = false ->
  safeJoin root pathname w = (Normal None, w).
Proof.
  unfold statFindsFile, safeJoin, tryCatch, mbind, M_bind, bind, stat.
  destruct (fileStat w (safeJoinPath root pathname)) as [k | e]; [| reflexivity].
  destruct k; simpl; (discriminate || reflexivity).
Qed.

Lemma resolveStatic_returns (cwd pathname : string) (w : World) :
  exists r, resolveStatic cwd pathname w = (Normal r, w).
Proof.
  unfold resolveStatic.
  destruct (startsWith pathname "/assets/"); [apply safeJoin_returns |].
  destruct (bool_decide (stripOneSlash pathname ∈ staticFiles));
    [apply safeJoin_returns | now exists None].
Qed.

(** C1: whatever URL path [resolveStatic] is given (in particular every
    path beginning with '/', traversal segments included), a returned
    file path lies within the asset root: it is absolute, has no "." or
    ".." component and its components extend those of [clientDir]; it is
    a proper descendant as soon as the asset root itself is not a
    regular file. *)
Theorem resolveStatic_inside_clientDir (cwd pathname p : string) (w : World) :
  startsWithSlash cwd = true ->
  fst (resolveStatic cwd pathname w) = Normal (Some p) ->
  within (clientDir cwd) p = true
  /\ (statFindsFile w (clientDir cwd) = false -> isDescendant (clientDir cwd) p = true).
Proof.
  intros Hcwd Hres.
  destruct (resolveStatic_Some _ _ _ _ Hres) as (Hcand & -> & Hstat).
  destruct (clientDir_rooted cwd Hcwd) as (r & Hr & Hroot).
  rewrite Hroot in *.
  destruct (safeJoinPath_candidate r pathname Hr Hcand) as [Heq | (s & t & Hs & Hne & Ht & Heq)];
    rewrite Heq in *.
  - split.
    + rewrite <- (List.app_nil_r r) at 2. apply within_rooted; [exact Hr | constructor | now left].
    + unfold statFindsFile. rewrite Hstat. discriminate.
  - split; [now apply within_rooted |]. intros _. now apply isDescendant_rooted.
Qed.

Lemma resolveStatic_inside_clientDir_witness :
  fst (resolveStatic "/app" "/assets/../../etc/../index.html" sampleWorld)
    = Normal (Some "/app/dist/client/index.html")
  /\ within (clientDir "/app") "/app/dist/client/index.html" = true
  /\ isDescendant (clientDir "/app") "/app/dist/client/index.html" = true.
Proof.
  split; [reflexivity |].
  destruct (resolveStatic_inside_clientDir "/app" "/assets/../../etc/../index.html"
              "/app/dist/client/index.html" sampleWorld) as [Hin Hdesc];
    [reflexivity | reflexivity |].
  split; [exact Hin | apply Hdesc; reflexivity].
Defined.

(** C5: a path that neither starts with "/assets/" nor, once its leading
    '/' is stripped, is an allow-list entry resolves to no match (and
    the filesystem is not consulted). *)
Theorem resolveStatic_rejects_others (cwd pathname : string) (w : World) :
  startsWith pathname "/assets/" = false ->
  stripOneSlash pathname ∉ staticFiles ->
  resolveStatic cwd pathname w = (Normal None, w).
Proof.
  intros Hprefix Hnotin. unfold resolveStatic. rewrite Hprefix.
  now rewrite (bool_decide_eq_false_2 _ Hnotin).
Qed.

Lemma resolveStatic_rejects_others_witness :
  resolveStatic "/app" "/api/anything" sampleWorld = (Normal None, sampleWorld).
Proof.
  apply (resolveStatic_rejects_others "/app" "/api/anything" sampleWorld).
  - reflexivity.
  - apply (bool_decide_eq_false_1 _). vm_compute. reflexivity.
Defined.

(** C6: [resolveStatic] never raises; and for a candidate path whose
    metadata check fails (missing path, permission error, any other
    error) or finds something that is not a regular file (a directory),
    it returns no match. *)
Theorem resolveStatic_absorbs_stat_failures (cwd pathname : string) (w : World) :
  (exists r, resolveStatic cwd pathname w = (Normal r, w))
  /\ (candidate pathname = true ->
      statFindsFile w (safeJoinPath (clientDir cwd) pathname) = false ->
      resolveStatic cwd pathname w = (Normal None, w)).
Proof.
  split; [apply resolveStatic_returns |].
  unfold resolveStatic, candidate.
  destruct (startsWith pathname "/assets/"); simpl.
  - intros _. apply safeJoin_not_file.
  - destruct (bool_decide (stripOneSlash pathname ∈ staticFiles)).
    + intros _. apply safeJoin_not_file.
    + discriminate.
Qed.

Lemma resolveStatic_absorbs_stat_failures_witness :
  resolveStatic "/app" "/assets/secret.js" sampleWorld = (Normal None, sampleWorld).
Proof.
  apply (resolveStatic_absorbs_stat_failures "/app" "/assets/secret.js" sampleWorld);
    reflexivity.
Defined.

Example resolveStatic_missing :
  fileStat sampleWorld "/app/dist/client/robots.txt" = Throw (SystemError "ENOENT")
  /\ resolveStatic "/app" "/robots.txt" sampleWorld = (Normal None, sampleWorld).
Proof. split; vm_compute; reflexivity. Qed.

Example resolveStatic_directory :
  fileStat sampleWorld "/app/dist/client/assets" = Normal Directory
  /\ resolveStatic "/app" "/assets/" sampleWorld = (Normal None, sampleWorld).
Proof. split; vm_compute; reflexivity. Qed.

(** C9: [resolveStatic] leaves the world as it found it, so a second
    call with the same path gives the same result as the first. *)
Theorem resolveStatic_idempotent (cwd pathname : string) (w : World) :
  snd (resolveStatic cwd pathname w) = w
  /\ resolveStatic cwd pathname (snd (resolveStatic cwd pathname w))
     = resolveStatic cwd pathname w.
Proof.
  destruct (resolveStatic_returns cwd pathname w) as [r Hr].
  rewrite Hr. simpl. split; [reflexivity | exact Hr].
Qed.

Lemma resolveStatic_rejects_root_index (cwd : string) (w : World) :
  resolveStatic cwd "/index.html" w = (Normal None, w).
Proof.
  unfold resolveStatic. change (startsWith "/index.html" "/assets/") with false.
  cbv iota zeta. case_bool_decide as Hin; [exfalso | reflexivity].
  revert Hin. apply (bool_decide_eq_false_1 _). vm_compute. reflexivity.
Qed.

(** C10: the path "/assets/../index.html" has the "/assets/" prefix and
    a parent-directory segment; when index.html is a regular file
    directly under the asset root, [resolveStatic] returns it, although
    it is outside the assets subdirectory, its bare name is not in the
    allow-list and the request "/index.html" itself is no match. *)
Theorem assets_prefix_reaches_root_files (cwd : string) (w : World) :
  startsWithSlash cwd = true ->
  fileStat w (clientDir cwd +:+ "/index.html") = Normal RegularFile ->
  startsWith "/assets/../index.html" "/assets/" = true
  /\ fst (resolveStatic cwd "/assets/../index.html" w)
     = Normal (Some (clientDir cwd +:+ "/index.html"))
  /\ (components (clientDir cwd +:+ "/index.html")
      = components (clientDir cwd) ++ ["index.html"])
  /\ ("index.html" ∉ staticFiles)
  /\ fst (resolveStatic cwd "/index.html" w) = Normal None.
Proof.
  intros Hcwd Hfile.
  split; [reflexivity |].
  assert (Hnotin : "index.html" ∉ staticFiles).
  { apply (bool_decide_eq_false_1 _). vm_compute. reflexivity. }
  split; [| split; [| split; [exact Hnotin |]]].
  - destruct (clientDir_shape cwd Hcwd) as (r & Hr & Hne & Hroot).
    assert (Hpath : safeJoinPath (clientDir cwd) "/assets/../index.html"
                    = clientDir cwd +:+ "/index.html").
    { rewrite Hroot. unfold safeJoinPath.
      change (stripLeadingSlashes (normalize "/assets/../index.html"))
        with (Str.unsplit ["index.html"] +:+ "").
      rewrite join_rooted; [| exact Hr | | discriminate | now left].
      - now rewrite rooted_below by (exact Hne || discriminate).
      - repeat constructor. }
    unfold resolveStatic. change (startsWith "/assets/../index.html" "/assets/") with true.
    cbv iota. unfold safeJoin, tryCatch, mbind, M_bind, bind, stat.
    rewrite Hpath, Hfile. reflexivity.
  - change (clientDir cwd +:+ "/index.html")
      with (clientDir cwd +:+ String slash "index.html").
    now rewrite components_append.
  - now rewrite resolveStatic_rejects_root_index.
Qed.

Lemma assets_prefix_reaches_root_files_witness :
  fst (resolveStatic "/app" "/assets/../index.html" sampleWorld)
    = Normal (Some "/app/dist/client/index.html")
  /\ fst (resolveStatic "/app" "/index.html" sampleWorld) = Normal None.
Proof.
  destruct (assets_prefix_reaches_root_files "/app" sampleWorld) as (_ & H1 & _ & _ & H2);
    [reflexivity | reflexivity |].
  split; [exact H1 | exact H2].
Defined.

(** ** The dispatcher *)

Module DispatchFacts.

Ltac run := unfold mbind, M_bind, bind, mret, M_ret, ret, throw, getWorld,
                   liftCompletion, tryCatch, Res.update; simpl.

Lemma handleError_unsent (e : JsError) (w : World) :
  headersSent (res w) = false ->
  handleError e w
  = (Normal tt,
     withRes (withConsole w (consoleErrors w ++ [e]))
       (Res.endRaw (Some errorText)
          (mkRes 500
             (("Content-Type", "text/plain")
                :: Res.remove "Content-Type" (pendingHeaders (res w)))
             (sentHead (res w)) (written (res w)) (endCalls (res w))
             (finished (res w)) (hasBody (res w))))).
Proof.
  intros Hsent. unfold handleError, consoleError, Res.setStatusCode, Res.setHeader, Res.end_.
  run. rewrite Hsent. simpl. unfold headersSent in *. simpl.
  destruct (sentHead (res w)); [discriminate | reflexivity].
Qed.

Lemma handleError_sent (e : JsError) (w : World) :
  headersSent (res w) = true ->
  handleError e w
  = (Normal tt,
     withRes (withConsole w (consoleErrors w ++ [e]))
       (Res.endRaw (Some errorText) (res w))).
Proof.
  intros Hsent. unfold handleError, consoleError, Res.end_.
  run. rewrite Hsent. reflexivity.
Qed.

(** Without a global of that name, the call stops at the identifier
    [handler]. *)
Lemma callHandler_unbound (handlerImpl : Request -> Completion Response)
      (globalThis : list (string * Binding)) (request : Request) (w : World) :
  assoc "handler" globalThis = None ->
  callHandler handlerImpl globalThis request w = (Throw (ReferenceError "handler"), w).
Proof.
  intros Hnone. unfold callHandler, identifier. run. now rewrite Hnone.
Qed.

(** The delegation step then ends in the constructor's error or in the
    ReferenceError. *)
Lemma delegate_throws (newRequest : string -> RequestInit -> Completion Request)
      (handlerImpl : Request -> Completion Response)
      (globalThis : list (string * Binding))
      (req : IncomingMessage) (url : URL) (w : World) :
  assoc "handler" globalThis = None ->
  delegate newRequest handlerImpl globalThis req url w
  = (Throw (delegationError (buildRequest newRequest req url)), w).
Proof.
  intros Hnone. unfold delegate. run.
  destruct (buildRequest newRequest req url) as [request | e]; [| reflexivity].
  change (callHandler handlerImpl globalThis request w) with
    (callHandler handlerImpl globalThis request w).
  unfold mbind, M_bind, bind.
  now rewrite (callHandler_unbound handlerImpl globalThis request w Hnone).
Qed.

(** When the call of the handler throws, so does the delegation step. *)
Lemma delegate_call_throws (newRequest : string -> RequestInit -> Completion Request)
      (handlerImpl : Request -> Completion Response)
      (globalThis : list (string * Binding))
      (req : IncomingMessage) (url : URL) (request : Request) (w w' : World) (e : JsError) :
  buildRequest newRequest req url = Normal request ->
  callHandler handlerImpl globalThis request w = (Throw e, w') ->
  delegate newRequest handlerImpl globalThis req url w = (Throw e, w').
Proof.
  intros Hbuilt Hcall. unfold delegate. run. rewrite Hbuilt.
  unfold mbind, M_bind, bind. now rewrite Hcall.
Qed.

Lemma writeAll_fold (data : list string) (w : World) :
  writeAll data w
  = (Normal tt, withRes w (fold_left (fun r c => Res.writeRaw c r) data (res w))).
Proof.
  revert w. induction data as [|c data IH]; intros w.
  - destruct w; reflexivity.
  - simpl. unfold Res.write. run. now rewrite IH.
Qed.

(** Writing chunks to a response that is not finished. *)
Lemma writeRaw_fold (data : list string) (r : ServerResponse) :
  finished r = false ->
  fold_left (fun r c => Res.writeRaw c r) data r
  = match data with
    | [] => r
    | _ => mkRes (statusCode r) (pendingHeaders r)
                 (Some (default (statusCode r, pendingHeaders r) (sentHead r)))
                 (written r ++ payloadOf (hasBody r) data) (endCalls r) false (hasBody r)
    end.
Proof.
  revert r. induction data as [|c data IH]; intros r Hfin; [reflexivity |].
  simpl fold_left. rewrite IH.
  - unfold Res.writeRaw, Res.flushHead. rewrite Hfin.
    destruct r as [sc ph [h|] wr ec fin [|]]; simpl in *; subst;
      destruct data; simpl; rewrite <- ?List.app_assoc, ?List.app_nil_r; reflexivity.
  - unfold Res.writeRaw, Res.flushHead.
    destruct r as [sc ph [h|] wr ec fin [|]]; simpl in *; subst; reflexivity.
Qed.

Lemma normalize_nonempty (path : string) : Str.isEmpty (Path.normalize path) = false.
Proof.
  unfold Path.normalize.
  destruct (Str.isEmpty path); [reflexivity |].
  destruct (Str.isEmpty (Path.normalizeString path _)) eqn:He.
  - destruct (Str.startsWithSlash path), (Str.endsWithSlash path); reflexivity.
  - destruct (Str.startsWithSlash path); [reflexivity |].
    destruct (Str.endsWithSlash path); [| exact He].
    now rewrite StrFacts.isEmpty_append, He.
Qed.

Lemma join_nonempty (args : list string) : Str.isEmpty (Path.join args) = false.
Proof.
  unfold Path.join. destruct (Path.joinArgs None args); [apply normalize_nonempty | reflexivity].
Qed.

End DispatchFacts.

Import DispatchFacts.

Section Dispatch.

Variable cwd : string.
Variable parseURL : string -> string -> Completion URL.
Variable newRequest : string -> RequestInit -> Completion Request.
Variable handlerImpl : Request -> Completion Response.
Variable globalThis : list (string * Binding).

Variable req : IncomingMessage.
Variable url : URL.
Variable w : World.
Variable withBody : bool.

(** Each request comes with a response object of its own. *)
Hypothesis fresh : res w = newResponse withBody.
Hypothesis parsed :
  parseURL (default "/" (reqUrl req)) ("http://" +:+ hostOf req) = Normal url.

(** The try block of a request that is no static asset is the
    delegation step. *)
Lemma dispatch_miss :
  fst (resolveStatic cwd (pathname url) w) = Normal None ->
  dispatch cwd parseURL newRequest handlerImpl globalThis req w
  = tryCatch (delegate newRequest handlerImpl globalThis req url) handleError w.
Proof.
  intros Hmiss.
  destruct (resolveStatic_returns cwd (pathname url) w) as [r Hr].
  rewrite Hr in Hmiss. simpl in Hmiss. injection Hmiss as ->.
  unfold dispatch. run. now rewrite parsed, Hr.
Qed.

(** [handleError] on the response of a request, nothing sent yet. *)
Lemma handleError_new (e : JsError) (w' : World) :
  res w' = res w ->
  handleError e w'
  = (Normal tt,
     withRes (withConsole w' (consoleErrors w' ++ [e])) (errorResponse withBody [])).
Proof.
  intros Hres. rewrite handleError_unsent by now rewrite Hres, fresh.
  rewrite Hres, fresh. now destruct withBody.
Qed.

(** A request that is no static asset ends in [handleError] when no
    global [handler] exists. *)
Lemma dispatch_delegated :
  fst (resolveStatic cwd (pathname url) w) = Normal None ->
  assoc "handler" globalThis = None ->
  dispatch cwd parseURL newRequest handlerImpl globalThis req w
  = (Normal tt,
     withRes (withConsole w
                (consoleErrors w ++ [delegationError (buildRequest newRequest req url)]))
       (errorResponse withBody [])).
Proof.
  intros Hmiss Hnone. rewrite (dispatch_miss Hmiss).
  unfold tryCatch. rewrite (delegate_throws _ _ _ _ _ _ Hnone).
  now apply handleError_new.
Qed.

(** The same when the call of the handler throws. *)
Lemma dispatch_call_throws (request : Request) (w' : World) (e : JsError) :
  fst (resolveStatic cwd (pathname url) w) = Normal None ->
  buildRequest newRequest req url = Normal request ->
  callHandler handlerImpl globalThis request w = (Throw e, w') ->
  res w' = res w ->
  dispatch cwd parseURL newRequest handlerImpl globalThis req w
  = (Normal tt,
     withRes (withConsole w' (consoleErrors w' ++ [e])) (errorResponse withBody [])).
Proof.
  intros Hmiss Hbuilt Hcall Hres. rewrite (dispatch_miss Hmiss).
  unfold tryCatch. rewrite (delegate_call_throws _ _ _ _ _ _ _ _ _ Hbuilt Hcall).
  now apply handleError_new.
Qed.

(** A static asset whose stream delivers [data] and ends. *)
Lemma dispatch_static (p : string) (data : list string) :
  fst (resolveStatic cwd (pathname url) w) = Normal (Some p) ->
  fileStream w p = mkReadScript data None ->
  dispatch cwd parseURL newRequest handlerImpl globalThis req w
  = (Normal tt,
     withRes w (mkRes 200 (staticHeaders p) (Some (200%Z, staticHeaders p))
                      (payloadOf withBody data) 1 true withBody)).
Proof.
  intros Hhit Hstream.
  destruct (resolveStatic_returns cwd (pathname url) w) as [r Hr].
  rewrite Hr in Hhit. simpl in Hhit. injection Hhit as ->.
  assert (Hp : Str.isEmpty p = false).
  { pose proof Hr as Hr'. apply (f_equal fst) in Hr'. simpl in Hr'.
    apply resolveStatic_Some in Hr' as (_ & -> & _). apply join_nonempty. }
  unfold dispatch. run. rewrite parsed, Hr, Hp.
  unfold respondStatic, pipeFile, createReadStream, Res.setStatusCode, Res.setHeader, Res.end_.
  run. rewrite fresh. simpl. rewrite Hstream. simpl.
  rewrite writeAll_fold. simpl. rewrite writeRaw_fold by reflexivity.
  destruct data, withBody; reflexivity.
Qed.

End Dispatch.

(** C3, as stated, fails for HEAD /api/anything: the answer is the 500
    head and no body at all. *)
Lemma head_miss_gets_no_error_text :
  let req := headRequest "/api/anything" in
  let w := sampleWorldFor req in
  let out := dispatch "/app" originFormURL fetchRequest sampleHandler [] req w in
  fst (resolveStatic "/app" "/api/anything" w) = Normal None
  /\ sentStatus (res (snd out)) = Some 500%Z
  /\ written (res (snd out)) = []
  /\ finished (res (snd out)) = true
  /\ ~ every_miss_gets_error_text.
Proof.
  do 4 (split; [vm_compute; reflexivity |]).
  intros H.
  destruct (H "/app" originFormURL fetchRequest sampleHandler (headRequest "/api/anything")
              (mkURL "http://localhost:4173/api/anything" "/api/anything")
              (sampleWorldFor (headRequest "/api/anything"))
              eq_refl eq_refl ltac:(vm_compute; reflexivity)) as [_ Hbody].
  vm_compute in Hbody. discriminate Hbody.
Qed.

(** C3 (amended): a request that resolves to no static asset is
    answered with status 500 and Content-Type text/plain, and with the
    body "Internal Server Error" unless its method is HEAD, which gets
    no body; the configured handler is not called.  When the Request
    object is constructed, the error logged is the ReferenceError for
    the identifier [handler], which nothing binds; when its constructor
    throws, that error is logged instead. *)
Theorem dispatch_never_reaches_handler
    (cwd : string) (parseURL : string -> string -> Completion URL)
    (newRequest : string -> RequestInit -> Completion Request)
    (handlerImpl : Request -> Completion Response)
    (globalThis : list (string * Binding))
    (req : IncomingMessage) (url : URL) (w : World) :
  res w = responseFor req ->
  parseURL (default "/" (reqUrl req)) ("http://" +:+ hostOf req) = Normal url ->
  fst (resolveStatic cwd (pathname url) w) = Normal None ->
  assoc "handler" globalThis = None ->
  let out := dispatch cwd parseURL newRequest handlerImpl globalThis req w in
  fst out = Normal tt
  /\ sentStatus (res (snd out)) = Some 500%Z
  /\ sentHeader "Content-Type" (res (snd out)) = Some "text/plain"
  /\ written (res (snd out)) = (if isHead req then [] else ["Internal Server Error"])
  /\ finished (res (snd out)) = true
  /\ handlerCalls (snd out) = handlerCalls w
  /\ assoc "handler" (scope handlerImpl) = None
  /\ consoleErrors (snd out)
     = consoleErrors w ++ [match buildRequest newRequest req url with
                           | Normal _ => ReferenceError "handler"
                           | Throw e => e
                           end].
Proof.
  intros Hfresh Hparsed Hmiss Hnone out. subst out.
  rewrite (dispatch_delegated cwd parseURL newRequest handlerImpl globalThis req url w
             (negb (isHead req)) Hfresh Hparsed Hmiss Hnone).
  simpl. destruct (isHead req); repeat split.
Qed.

Lemma dispatch_never_reaches_handler_witness :
  let out := dispatch "/app" originFormURL fetchRequest sampleHandler []
               (getRequest "/api/anything") sampleWorld in
  sentStatus (res (snd out)) = Some 500%Z
  /\ written (res (snd out)) = ["Internal Server Error"]
  /\ handlerCalls (snd out) = []
  /\ consoleErrors (snd out) = [ReferenceError "handler"].
Proof.
  destruct (dispatch_never_reaches_handler "/app" originFormURL fetchRequest sampleHandler []
              (getRequest "/api/anything")
              (mkURL "http://localhost:4173/api/anything" "/api/anything") sampleWorld)
    as (_ & Hstatus & _ & Hbody & _ & Hcalls & _ & Hlog);
    [reflexivity | reflexivity | vm_compute; reflexivity | reflexivity |].
  split; [exact Hstatus |]. split; [exact Hbody |]. split; [exact Hcalls | exact Hlog].
Defined.

(** Under node the constructor refuses the body stream of a POST: the
    request is answered with 500 before the identifier [handler] is
    reached. *)
Example dispatch_post_under_node :
  let out := dispatch "/app" originFormURL nodeRequest sampleHandler []
               (postRequest "/submit" ["{}"])
               (sampleWorldFor (postRequest "/submit" ["{}"])) in
  sentStatus (res (snd out)) = Some 500%Z
  /\ handlerCalls (snd out) = []
  /\ consoleErrors (snd out)
     = [TypeError "RequestInit: duplex option is required when sending a body."].
Proof. vm_compute. repeat split. Qed.

(** With a global [handler] the delegation step does run it. *)
Example dispatch_global_handler :
  let answering :=
    [("handler",
      ObjectValue (fun member =>
        if String.eqb member "fetch"
        then Some (fun _ : Request =>
                     mret (mkResponse 204 [("x-served-by", "global")] None) : M Response)
        else None))] in
  let out := dispatch "/app" originFormURL fetchRequest sampleHandler answering
               (getRequest "/api/anything") sampleWorld in
  sentStatus (res (snd out)) = Some 204%Z
  /\ sentHeader "x-served-by" (res (snd out)) = Some "global"
  /\ handlerCalls (snd out) = [] /\ consoleErrors (snd out) = [].
Proof. vm_compute. repeat split. Qed.

(** C7, as stated, fails for HEAD /robots.txt, a path that is not on
    disk: the call of the handler throws (the ReferenceError when
    nothing is bound to [handler], the handler's own error when a
    global [handler] fails), one entry is logged, and the answer is the
    500 head and no body. *)
Lemma head_handler_failure_gets_no_error_text :
  let req := headRequest "/robots.txt" in
  let w := sampleWorldFor req in
  let request := mkRequest "http://localhost:4173/robots.txt" "HEAD"
                           [("host", "localhost:4173")] None in
  let out := dispatch "/app" originFormURL fetchRequest sampleHandler [] req w in
  let out' := dispatch "/app" originFormURL fetchRequest sampleHandler failingGlobal req w in
  (callHandler sampleHandler [] request w = (Throw (ReferenceError "handler"), w)
   /\ sentStatus (res (snd out)) = Some 500%Z
   /\ written (res (snd out)) = []
   /\ consoleErrors (snd out) = [ReferenceError "handler"])
  /\ (callHandler sampleHandler failingGlobal request w
      = (Throw (ThrownValue "handler failed"), w)
      /\ sentStatus (res (snd out')) = Some 500%Z
      /\ written (res (snd out')) = []
      /\ consoleErrors (snd out') = [ThrownValue "handler failed"])
  /\ ~ every_handler_failure_gets_error_text.
Proof.
  split; [repeat split; vm_compute; reflexivity |].
  split; [repeat split; vm_compute; reflexivity |].
  intros H.
  destruct (H "/app" originFormURL fetchRequest sampleHandler []
              (headRequest "/robots.txt")
              (mkURL "http://localhost:4173/robots.txt" "/robots.txt")
              (mkRequest "http://localhost:4173/robots.txt" "HEAD"
                         [("host", "localhost:4173")] None)
              (sampleWorldFor (headRequest "/robots.txt"))
              (sampleWorldFor (headRequest "/robots.txt"))
              (ReferenceError "handler")
              eq_refl eq_refl ltac:(vm_compute; reflexivity) eq_refl eq_refl eq_refl)
    as [_ Hbody].
  vm_compute in Hbody. discriminate Hbody.
Qed.

(** C7 (amended): when the call of the handler throws, whatever the
    error, the request gets exactly one response (the head is sent once,
    [end] is called once) with status 500 and, unless its method is
    HEAD, the body "Internal Server Error" (a HEAD request gets no
    body), and exactly one entry, the error thrown, is added to the
    error log. *)
Theorem dispatch_handler_failure
    (cwd : string) (parseURL : string -> string -> Completion URL)
    (newRequest : string -> RequestInit -> Completion Request)
    (handlerImpl : Request -> Completion Response)
    (globalThis : list (string * Binding))
    (req : IncomingMessage) (url : URL) (request : Request)
    (w w' : World) (e : JsError) :
  res w = responseFor req ->
  parseURL (default "/" (reqUrl req)) ("http://" +:+ hostOf req) = Normal url ->
  fst (resolveStatic cwd (pathname url) w) = Normal None ->
  buildRequest newRequest req url = Normal request ->
  callHandler handlerImpl globalThis request w = (Throw e, w') ->
  res w' = res w ->
  let out := dispatch cwd parseURL newRequest handlerImpl globalThis req w in
  fst out = Normal tt
  /\ sentStatus (res (snd out)) = Some 500%Z
  /\ Res.payload (res (snd out)) = (if isHead req then "" else "Internal Server Error")
  /\ endCalls (res (snd out)) = 1
  /\ finished (res (snd out)) = true
  /\ consoleErrors (snd out) = consoleErrors w' ++ [e].
Proof.
  intros Hfresh Hparsed Hmiss Hbuilt Hcall Hres out. subst out.
  rewrite (dispatch_call_throws cwd parseURL newRequest handlerImpl globalThis req url w
             (negb (isHead req)) Hfresh Hparsed request w' e Hmiss Hbuilt Hcall Hres).
  simpl. destruct (isHead req); repeat split.
Qed.

Lemma dispatch_handler_failure_witness :
  let out := dispatch "/app" originFormURL fetchRequest sampleHandler failingGlobal
               (getRequest "/robots.txt") sampleWorld in
  sentStatus (res (snd out)) = Some 500%Z
  /\ Res.payload (res (snd out)) = "Internal Server Error"
  /\ consoleErrors (snd out) = [ThrownValue "handler failed"].
Proof.
  destruct (dispatch_handler_failure "/app" originFormURL fetchRequest sampleHandler
              failingGlobal (getRequest "/robots.txt")
              (mkURL "http://localhost:4173/robots.txt" "/robots.txt")
              (mkRequest "http://localhost:4173/robots.txt" "GET"
                         [("host", "localhost:4173")] None)
              sampleWorld sampleWorld (ThrownValue "handler failed"))
    as (_ & Hstatus & Hbody & _ & _ & Hlog);
    [reflexivity | reflexivity | vm_compute; reflexivity | reflexivity | reflexivity
     | reflexivity |].
  split; [exact Hstatus |]. split; [exact Hbody | exact Hlog].
Defined.




Example contentType_js : contentTypeOf ".js" = "application/javascript".
Proof. reflexivity. Qed.
Example contentType_upper : contentTypeOf ".JS" = "application/octet-stream".
Proof. reflexivity. Qed.
Example contentType_none : contentTypeOf "" = "application/octet-stream".
Proof. reflexivity. Qed.
Example contentType_map : contentTypeOf ".map" = "application/octet-stream".
Proof. reflexivity. Qed.

(** C2: on GET /api/anything, which is no static asset, the configured
    handler would answer 404 with its own headers and body; the
    dispatcher answers 500 and the handler has not been called. *)
Theorem dispatch_api_request_skips_handler :
  let req := getRequest "/api/anything" in
  let out := dispatch "/app" originFormURL fetchRequest sampleHandler [] req sampleWorld in
  fst (resolveStatic "/app" "/api/anything" sampleWorld) = Normal None
  /\ (exists request,
        buildRequest fetchRequest req
          (mkURL "http://localhost:4173/api/anything" "/api/anything") = Normal request
        /\ sampleHandler request
           = Normal (mkResponse 404 [("content-type", "text/html")] (Some ["not found"])))
  /\ handlerCalls (snd out) = []
  /\ sentStatus (res (snd out)) = Some 500%Z
  /\ written (res (snd out)) = ["Internal Server Error"].
Proof.
  split; [vm_compute; reflexivity |]. split.
  - eexists. split; reflexivity.
  - vm_compute. repeat split.
Qed.

(** C8, as stated, fails: when the stream of /favicon.ico breaks after
    its first chunk, the head (200) is on the wire and the response is
    open; [handleError] then appends "Internal Server Error" to the
    body. *)
Lemma midstream_failure_writes_error_text :
  headersSent (res midstreamWorld) = true
  /\ finished (res midstreamWorld) = false
  /\ written (res midstreamWorld) = ["icon, first half"]
  /\ written (res (snd (handleError (SystemError "EIO") midstreamWorld)))
     = ["icon, first half"; "Internal Server Error"]
  /\ ~ midstream_failure_only_terminates.
Proof.
  repeat (split; [reflexivity |]).
  intros H.
  destruct (H (SystemError "EIO") midstreamWorld eq_refl eq_refl) as (_ & Hbody & _).
  vm_compute in Hbody. discriminate Hbody.
Qed.

Example dispatch_midstream_failure :
  let out := dispatch "/app" originFormURL fetchRequest sampleHandler []
               (getRequest "/favicon.ico") sampleWorld in
  sentStatus (res (snd out)) = Some 200%Z
  /\ written (res (snd out)) = ["icon, first half"; "Internal Server Error"]
  /\ consoleErrors (snd out) = [SystemError "EIO"].
Proof. vm_compute. repeat split. Qed.

(** C8 (amended): a failure after the head was sent changes neither the
    status nor the headers, pending or sent; it logs the error, appends
    the text "Internal Server Error" to the body already started and
    finishes the response.  (The response to a HEAD request has no
    body: it is finished and nothing is appended.) *)
Theorem handleError_after_headers_sent (e : JsError) (w : World) :
  headersSent (res w) = true -> finished (res w) = false ->
  let w' := snd (handleError e w) in
  sentHead (res w') = sentHead (res w)
  /\ statusCode (res w') = statusCode (res w)
  /\ pendingHeaders (res w') = pendingHeaders (res w)
  /\ written (res w')
     = written (res w) ++ (if hasBody (res w) then ["Internal Server Error"] else [])
  /\ finished (res w') = true
  /\ consoleErrors w' = consoleErrors w ++ [e].
Proof.
  intros Hsent Hfin w'. subst w'. rewrite (handleError_sent e w Hsent).
  unfold headersSent in Hsent.
  destruct w as [fs st co hc [sc ph [h|] wr ec fin [|]]]; simpl in *; try discriminate;
    subst fin; simpl; rewrite ?List.app_nil_r; repeat split.
Qed.

Lemma handleError_after_headers_sent_witness :
  let w' := snd (handleError (SystemError "EIO") midstreamWorld) in
  sentStatus (res w') = Some 200%Z
  /\ written (res w') = ["icon, first half"; "Internal Server Error"].
Proof.
  destruct (handleError_after_headers_sent (SystemError "EIO") midstreamWorld)
    as (Hhead & _ & _ & Hbody & _); [reflexivity | reflexivity |].
  split; [unfold sentStatus; now rewrite Hhead | exact Hbody].
Defined.

(** The same seen from [dispatch]: a static asset whose stream breaks
    after at least one chunk keeps its 200 head and gets the error text
    after the chunks delivered. *)
Lemma dispatch_static_midstream
    (cwd : string) (parseURL : string -> string -> Completion URL)
    (newRequest : string -> RequestInit -> Completion Request)
    (handlerImpl : Request -> Completion Response)
    (globalThis : list (string * Binding))
    (req : IncomingMessage) (url : URL) (w : World) (withBody : bool)
    (p chunk : string) (more : list string) (e : JsError) :
  res w = newResponse withBody ->
  parseURL (default "/" (reqUrl req)) ("http://" +:+ hostOf req) = Normal url ->
  fst (resolveStatic cwd (pathname url) w) = Normal (Some p) ->
  fileStream w p = mkReadScript (chunk :: more) (Some e) ->
  dispatch cwd parseURL newRequest handlerImpl globalThis req w
  = (Normal tt,
     withRes (withConsole w (consoleErrors w ++ [e]))
       (mkRes 200 (staticHeaders p) (Some (200%Z, staticHeaders p))
          (payloadOf withBody (chunk :: more ++ [errorText])) 1 true withBody)).
Proof.
  intros Hfresh Hparsed Hhit Hstream.
  destruct (resolveStatic_returns cwd (pathname url) w) as [r Hr].
  rewrite Hr in Hhit. simpl in Hhit. injection Hhit as ->.
  assert (Hp : Str.isEmpty p = false).
  { pose proof Hr as Hr'. apply (f_equal fst) in Hr'. simpl in Hr'.
    apply resolveStatic_Some in Hr' as (_ & -> & _). apply join_nonempty. }
  unfold dispatch. run. rewrite Hparsed, Hr, Hp.
  unfold respondStatic, pipeFile, createReadStream, Res.setStatusCode, Res.setHeader.
  run. rewrite Hfresh. simpl. rewrite Hstream. simpl.
  change (Res.write chunk ≫= (fun _ : () => writeAll more)) with (writeAll (chunk :: more)).
  rewrite writeAll_fold. simpl res. rewrite writeRaw_fold by reflexivity.
  rewrite handleError_sent by reflexivity. simpl.
  now destruct withBody.
Qed.

(** ** The dispatcher: every way a request can end *)

Module OutcomeFacts.
Import DispatchFacts.

Lemma sameName_trans_false (a b c : string) :
  Res.sameName a b = true -> Res.sameName b c = false -> Res.sameName a c = false.
Proof.
  unfold Res.sameName. intros Hab Hbc.
  apply String.eqb_eq in Hab. now rewrite Hab.
Qed.

Lemma lookup_remove_other (k name : string) (hs : Headers) :
  Res.sameName k name = false ->
  Res.lookup name (Res.remove k hs) = Res.lookup name hs.
Proof.
  intros Hk. unfold Res.remove, Headers in *.
  induction hs as [|[k' v'] hs IH]; [reflexivity |].
  rewrite filter_cons. simpl fst. destruct (decide (Res.sameName k' k = false)) as [Hd | Hd].
  - simpl. now rewrite IH.
  - apply not_false_is_true in Hd. simpl.
    now rewrite (sameName_trans_false _ _ _ Hd Hk).
Qed.

(** [setHeader] replaces the header of that name and no other. *)
Lemma lookup_setHeader (k v name : string) (hs : Headers) :
  Res.lookup name ((k, v) :: Res.remove k hs)
  = if Res.sameName k name then Some v else Res.lookup name hs.
Proof.
  simpl. destruct (Res.sameName k name) eqn:Hk; [reflexivity |].
  now apply lookup_remove_other.
Qed.

Lemma handleError_fresh (e : JsError) (w : World) (withBody : bool) :
  res w = newResponse withBody ->
  handleError e w
  = (Normal tt,
     withRes (withConsole w (consoleErrors w ++ [e])) (errorResponse withBody [])).
Proof.
  intros Hfresh. rewrite handleError_unsent by now rewrite Hfresh.
  rewrite Hfresh. now destruct withBody.
Qed.

End OutcomeFacts.

Section Outcomes.
Import DispatchFacts OutcomeFacts.

Variable cwd : string.
Variable parseURL : string -> string -> Completion URL.
Variable newRequest : string -> RequestInit -> Completion Request.
Variable handlerImpl : Request -> Completion Response.
Variable globalThis : list (string * Binding).
Variable req : IncomingMessage.
Variable w : World.
Variable withBody : bool.
Hypothesis fresh : res w = newResponse withBody.

(** [new URL] throws: the catch block answers. *)
Lemma dispatch_parse_failure (e : JsError) :
  parseURL (default "/" (reqUrl req)) ("http://" +:+ hostOf req) = Throw e ->
  dispatch cwd parseURL newRequest handlerImpl globalThis req w
  = (Normal tt,
     withRes (withConsole w (consoleErrors w ++ [e])) (errorResponse withBody [])).
Proof.
  intros Hparse. unfold dispatch. run. rewrite Hparse.
  now apply handleError_fresh.
Qed.

(** The stream of a resolved file fails before its first chunk. *)
Lemma dispatch_static_unopened (url : URL) (p : string) (e : JsError) :
  parseURL (default "/" (reqUrl req)) ("http://" +:+ hostOf req) = Normal url ->
  fst (resolveStatic cwd (pathname url) w) = Normal (Some p) ->
  fileStream w p = mkReadScript [] (Some e) ->
  dispatch cwd parseURL newRequest handlerImpl globalThis req w
  = (Normal tt,
     withRes (withConsole w (consoleErrors w ++ [e]))
       (errorResponse withBody [("Cache-Control", cacheControl)])).
Proof.
  intros Hparsed Hhit Hstream.
  destruct (resolveStatic_returns cwd (pathname url) w) as [r Hr].
  rewrite Hr in Hhit. simpl in Hhit. injection Hhit as ->.
  assert (Hp : Str.isEmpty p = false).
  { pose proof Hr as Hr'. apply (f_equal fst) in Hr'. simpl in Hr'.
    apply resolveStatic_Some in Hr' as (_ & -> & _). apply join_nonempty. }
  unfold dispatch. run. rewrite Hparsed, Hr, Hp.
  unfold respondStatic, pipeFile, createReadStream, Res.setStatusCode, Res.setHeader.
  run. rewrite fresh. simpl. rewrite Hstream.
  rewrite writeAll_fold. cbn -[handleError].
  rewrite handleError_unsent by reflexivity. now destruct withBody.
Qed.

(** The ways [dispatch] ends when no global [handler] exists, in one
    statement: what is added to the error log and the response left
    behind. *)
Lemma dispatch_outcome :
  assoc "handler" globalThis = None ->
  exists (log : list JsError) (r : ServerResponse),
    dispatch cwd parseURL newRequest handlerImpl globalThis req w
    = (Normal tt, withRes (withConsole w (consoleErrors w ++ log)) r)
    /\ finished r = true /\ endCalls r = 1
    /\ ((exists others, length log = 1 /\ r = errorResponse withBody others)
        \/ (exists url p,
              parseURL (default "/" (reqUrl req)) ("http://" +:+ hostOf req) = Normal url
              /\ fst (resolveStatic cwd (pathname url) w) = Normal (Some p)
              /\ sentHead r = Some (200%Z, staticHeaders p))).
Proof.
  intros Hnone.
  destruct (parseURL (default "/" (reqUrl req)) ("http://" +:+ hostOf req))
    as [url | e] eqn:Hparse.
  2: { exists [e], (errorResponse withBody []). rewrite (dispatch_parse_failure e Hparse).
       do 3 (split; [reflexivity |]). left. now exists []. }
  destruct (resolveStatic_returns cwd (pathname url) w) as [[p |] Hr].
  2: { exists [delegationError (buildRequest newRequest req url)], (errorResponse withBody []).
       rewrite (dispatch_delegated cwd parseURL newRequest handlerImpl globalThis req url w
                  withBody fresh Hparse) by (try assumption; now rewrite Hr).
       do 3 (split; [reflexivity |]). left. now exists []. }
  assert (Hhit : fst (resolveStatic cwd (pathname url) w) = Normal (Some p))
    by now rewrite Hr.
  destruct (fileStream w p) as [data [e |]] eqn:Hstream.
  - destruct data as [| chunk more].
    + eexists [e], _. rewrite (dispatch_static_unopened url p e Hparse Hhit Hstream).
      do 3 (split; [reflexivity |]). left. now eexists.
    + eexists [e], _.
      rewrite (dispatch_static_midstream cwd parseURL newRequest handlerImpl globalThis
                 req url w withBody p chunk more e fresh Hparse Hhit Hstream).
      do 3 (split; [reflexivity |]). right. now exists url, p.
  - eexists [], _.
    rewrite (dispatch_static cwd parseURL newRequest handlerImpl globalThis req url w
               withBody fresh Hparse p data Hhit Hstream).
    split; [unfold withRes, withConsole; simpl; now rewrite List.app_nil_r |].
    do 2 (split; [reflexivity |]). right. now exists url, p.
Qed.

End Outcomes.

(** X1: whatever the request, the URL parser, the Request constructor,
    the filesystem and the streams do, the request callback does not
    throw, and it leaves the response with its head sent, finished,
    after exactly one call of [end].  (The global object has no
    [handler], as on the platform.) *)
Theorem dispatch_always_answers
    (cwd : string) (parseURL : string -> string -> Completion URL)
    (newRequest : string -> RequestInit -> Completion Request)
    (handlerImpl : Request -> Completion Response)
    (globalThis : list (string * Binding))
    (req : IncomingMessage) (w : World) (withBody : bool) :
  res w = newResponse withBody ->
  assoc "handler" globalThis = None ->
  let out := dispatch cwd parseURL newRequest handlerImpl globalThis req w in
  fst out = Normal tt
  /\ headersSent (res (snd out)) = true
  /\ finished (res (snd out)) = true
  /\ endCalls (res (snd out)) = 1.
Proof.
  intros Hfresh Hnone out. subst out.
  destruct (dispatch_outcome cwd parseURL newRequest handlerImpl globalThis req w withBody
              Hfresh Hnone) as (log & r & -> & Hfin & Hend & Hhead).
  simpl. repeat split; try assumption.
  unfold headersSent.
  destruct Hhead as [(others & _ & ->) | (url & p & _ & _ & ->)]; reflexivity.
Qed.

Lemma dispatch_always_answers_witness :
  let out := dispatch "/app" sampleParseURL nodeRequest sampleHandler []
               (headRequest "//") (sampleWorldFor (headRequest "//")) in
  fst out = Normal tt /\ finished (res (snd out)) = true /\ endCalls (res (snd out)) = 1.
Proof.
  destruct (dispatch_always_answers "/app" sampleParseURL nodeRequest sampleHandler []
              (headRequest "//") (sampleWorldFor (headRequest "//")) false)
    as (H1 & _ & H2 & H3); [reflexivity | reflexivity |].
  split; [exact H1 |]. split; [exact H2 | exact H3].
Defined.

(** X2: the status sent is 500, or 200 when the path resolved to a
    static file; no request at all reaches the application handler.
    (The global object has no [handler], as on the platform.) *)
Theorem dispatch_status_and_handler
    (cwd : string) (parseURL : string -> string -> Completion URL)
    (newRequest : string -> RequestInit -> Completion Request)
    (handlerImpl : Request -> Completion Response)
    (globalThis : list (string * Binding))
    (req : IncomingMessage) (w : World) (withBody : bool) :
  res w = newResponse withBody ->
  assoc "handler" globalThis = None ->
  let out := dispatch cwd parseURL newRequest handlerImpl globalThis req w in
  handlerCalls (snd out) = handlerCalls w
  /\ (sentStatus (res (snd out)) = Some 500%Z
      \/ (sentStatus (res (snd out)) = Some 200%Z
          /\ exists url p,
               parseURL (default "/" (reqUrl req)) ("http://" +:+ hostOf req) = Normal url
               /\ fst (resolveStatic cwd (pathname url) w) = Normal (Some p))).
Proof.
  intros Hfresh Hnone out. subst out.
  destruct (dispatch_outcome cwd parseURL newRequest handlerImpl globalThis req w withBody
              Hfresh Hnone) as (log & r & -> & _ & _ & Hhead).
  simpl. split; [reflexivity |].
  destruct Hhead as [(others & _ & ->) | (url & p & Hparse & Hhit & Hsent)].
  - now left.
  - right. unfold sentStatus. rewrite Hsent. split; [reflexivity | now exists url, p].
Qed.

Lemma dispatch_status_and_handler_witness :
  let out := dispatch "/app" originFormURL fetchRequest sampleHandler []
               (postRequest "/submit" ["{}"]) sampleWorld in
  handlerCalls (snd out) = [] /\ sentStatus (res (snd out)) = Some 500%Z.
Proof.
  destruct (dispatch_status_and_handler "/app" originFormURL fetchRequest sampleHandler []
              (postRequest "/submit" ["{}"]) sampleWorld true)
    as (Hcalls & Hstatus); [reflexivity | reflexivity |].
  split; [exact Hcalls |].
  destruct Hstatus as [H500 | [H200 _]]; [exact H500 |].
  vm_compute in H200. discriminate H200.
Defined.

(** X3: when [new URL] rejects the request target, the request is
    answered with 500, text/plain and, unless its method is HEAD, the
    body "Internal Server Error" (a HEAD request gets no body); the
    parser's error is the one entry added to the log. *)
Theorem dispatch_unparsable_target
    (cwd : string) (parseURL : string -> string -> Completion URL)
    (newRequest : string -> RequestInit -> Completion Request)
    (handlerImpl : Request -> Completion Response)
    (globalThis : list (string * Binding))
    (req : IncomingMessage) (w : World) (e : JsError) :
  res w = responseFor req ->
  parseURL (default "/" (reqUrl req)) ("http://" +:+ hostOf req) = Throw e ->
  let out := dispatch cwd parseURL newRequest handlerImpl globalThis req w in
  fst out = Normal tt
  /\ sentStatus (res (snd out)) = Some 500%Z
  /\ sentHeader "Content-Type" (res (snd out)) = Some "text/plain"
  /\ written (res (snd out)) = (if isHead req then [] else ["Internal Server Error"])
  /\ consoleErrors (snd out) = consoleErrors w ++ [e].
Proof.
  intros Hfresh Hparse out. subst out.
  rewrite (dispatch_parse_failure cwd parseURL newRequest handlerImpl globalThis req w
             (negb (isHead req)) Hfresh e Hparse).
  simpl. destruct (isHead req); repeat split.
Qed.

Lemma dispatch_unparsable_target_witness :
  let out := dispatch "/app" sampleParseURL fetchRequest sampleHandler []
               (getRequest "//") sampleWorld in
  sentStatus (res (snd out)) = Some 500%Z
  /\ written (res (snd out)) = ["Internal Server Error"]
  /\ consoleErrors (snd out) = [TypeError "Invalid URL"].
Proof.
  destruct (dispatch_unparsable_target "/app" sampleParseURL fetchRequest sampleHandler []
              (getRequest "//") sampleWorld (TypeError "Invalid URL"))
    as (_ & Hstatus & _ & Hbody & Hlog); [reflexivity | reflexivity |].
  split; [exact Hstatus |]. split; [exact Hbody | exact Hlog].
Defined.

Example dispatch_unparsable_target_head :
  let out := dispatch "/app" sampleParseURL fetchRequest sampleHandler []
               (headRequest "//") (sampleWorldFor (headRequest "//")) in
  sentStatus (res (snd out)) = Some 500%Z /\ written (res (snd out)) = [].
Proof. vm_compute. repeat split. Qed.

(** X4: when a file passes the [stat] check but its stream fails before
    the first chunk (deleted or unreadable in between), the answer is
    500, text/plain and, unless the method is HEAD, the body "Internal
    Server Error"; it still carries the header Cache-Control: public,
    max-age=31536000, immutable that was set for the asset. *)
Theorem dispatch_open_failure
    (cwd : string) (parseURL : string -> string -> Completion URL)
    (newRequest : string -> RequestInit -> Completion Request)
    (handlerImpl : Request -> Completion Response)
    (globalThis : list (string * Binding))
    (req : IncomingMessage) (url : URL) (w : World) (p : string) (e : JsError) :
  res w = responseFor req ->
  parseURL (default "/" (reqUrl req)) ("http://" +:+ hostOf req) = Normal url ->
  fst (resolveStatic cwd (pathname url) w) = Normal (Some p) ->
  fileStream w p = mkReadScript [] (Some e) ->
  let out := dispatch cwd parseURL newRequest handlerImpl globalThis req w in
  sentStatus (res (snd out)) = Some 500%Z
  /\ sentHeader "Content-Type" (res (snd out)) = Some "text/plain"
  /\ sentHeader "Cache-Control" (res (snd out))
     = Some "public, max-age=31536000, immutable"
  /\ written (res (snd out)) = (if isHead req then [] else ["Internal Server Error"])
  /\ consoleErrors (snd out) = consoleErrors w ++ [e].
Proof.
  intros Hfresh Hparse Hhit Hstream out. subst out.
  rewrite (dispatch_static_unopened cwd parseURL newRequest handlerImpl globalThis req w
             (negb (isHead req)) Hfresh url p e Hparse Hhit Hstream).
  simpl. destruct (isHead req); repeat split.
Qed.

Lemma dispatch_open_failure_witness :
  let out := dispatch "/app" originFormURL fetchRequest sampleHandler []
               (getRequest "/robots.txt") raceWorld in
  sentStatus (res (snd out)) = Some 500%Z
  /\ sentHeader "Cache-Control" (res (snd out)) = Some "public, max-age=31536000, immutable"
  /\ written (res (snd out)) = ["Internal Server Error"].
Proof.
  destruct (dispatch_open_failure "/app" originFormURL fetchRequest sampleHandler []
              (getRequest "/robots.txt")
              (mkURL "http://localhost:4173/robots.txt" "/robots.txt") raceWorld
              "/app/dist/client/robots.txt" (SystemError "ENOENT"))
    as (Hstatus & _ & Hcache & Hbody & _);
    [reflexivity | reflexivity | vm_compute; reflexivity | reflexivity |].
  split; [exact Hstatus |]. split; [exact Hcache | exact Hbody].
Defined.

(** ** The static resolver: what it returns *)

Lemma safeJoin_file (root pathname : string) (w : World) :
  fileStat w (safeJoinPath root pathname) = Normal RegularFile ->
  safeJoin root pathname w = (Normal (Some (safeJoinPath root pathname)), w).
Proof.
  intros Hstat. unfold safeJoin, tryCatch, mbind, M_bind, bind, stat.
  now rewrite Hstat.
Qed.

Lemma resolveStatic_candidate (cwd pathname : string) :
  candidate pathname = true ->
  resolveStatic cwd pathname = safeJoin (clientDir cwd) pathname.
Proof.
  unfold candidate, resolveStatic. intros H.
  destruct (startsWith pathname "/assets/"); [reflexivity |].
  simpl in H. now rewrite H.
Qed.

Lemma startsWith_append (prefix s : string) : startsWith (prefix +:+ s) prefix = true.
Proof.
  induction prefix as [|c prefix IH]; [now destruct s |].
  rewrite append_cons. simpl. now rewrite Ascii.eqb_refl, IH.
Qed.

(** A path without empty, "." or ".." segments is joined as it is. *)
Lemma safeJoinPath_plain (r s : list string) :
  Forall clean r -> r <> [] -> Forall clean s -> s <> [] ->
  safeJoinPath (rooted r "") (rooted s "") = rooted r "" +:+ "/" +:+ Str.unsplit s.
Proof.
  intros Hr Hrne Hs Hsne. unfold safeJoinPath.
  rewrite (normalize_rooted s Hs).
  destruct s as [|x s]; [contradiction |].
  inversion Hs as [|? ? Hx _]; subst.
  destruct (join_clean_head x s "" Hx) as [Hhead _].
  change (stripLeadingSlashes (rooted (x :: s) ""))
    with (stripLeadingSlashes (Str.unsplit (x :: s) +:+ "")).
  rewrite (stripLeadingSlashes_id _ Hhead).
  rewrite (join_rooted r (x :: s) "" Hr Hs Hsne) by now left.
  rewrite (rooted_below r (x :: s) "" Hrne Hsne).
  now rewrite (append_empty_r (Str.unsplit (x :: s))).
Qed.

Lemma resolveStatic_plain (cwd : string) (s : list string) (w : World) :
  startsWithSlash cwd = true ->
  Forall clean s -> s <> [] ->
  candidate ("/" +:+ Str.unsplit s) = true ->
  fileStat w (clientDir cwd +:+ "/" +:+ Str.unsplit s) = Normal RegularFile ->
  resolveStatic cwd ("/" +:+ Str.unsplit s) w
  = (Normal (Some (clientDir cwd +:+ "/" +:+ Str.unsplit s)), w).
Proof.
  intros Hcwd Hs Hne Hcand Hfile.
  destruct (clientDir_shape cwd Hcwd) as (r & Hr & Hrne & Hroot).
  assert (Hpath : safeJoinPath (clientDir cwd) ("/" +:+ Str.unsplit s)
                  = clientDir cwd +:+ "/" +:+ Str.unsplit s).
  { rewrite Hroot. rewrite <- (safeJoinPath_plain r s Hr Hrne Hs Hne).
    unfold rooted. now rewrite (append_empty_r (Str.unsplit s)). }
  rewrite (resolveStatic_candidate _ _ Hcand).
  rewrite <- Hpath in *. now apply safeJoin_file.
Qed.

(** X5: [resolveStatic] returns a path exactly when the URL path is a
    candidate (prefix /assets/ or allow-list name) and [stat] reports a
    regular file at the joined path; the path returned is that joined
    path, never another one. *)
Theorem resolveStatic_Some_iff (cwd pathname q : string) (w : World) :
  fst (resolveStatic cwd pathname w) = Normal (Some q)
  <-> candidate pathname = true
      /\ q = safeJoinPath (clientDir cwd) pathname
      /\ fileStat w q = Normal RegularFile.
Proof.
  split; [apply resolveStatic_Some |].
  intros (Hcand & -> & Hstat).
  rewrite (resolveStatic_candidate _ _ Hcand), (safeJoin_file _ _ _ Hstat). reflexivity.
Qed.

(** X6: a path "/assets/seg/.../seg" whose segments are non-empty,
    not "." or ".." is looked up as it is: when clientDir followed by
    that path is a regular file, that is the path returned. *)
Theorem resolveStatic_assets_path (cwd : string) (segs : list string) (w : World) :
  startsWithSlash cwd = true ->
  Forall (fun s => cleanSegment s = true) segs -> segs <> [] ->
  fileStat w (clientDir cwd +:+ "/assets/" +:+ Str.unsplit segs) = Normal RegularFile ->
  fst (resolveStatic cwd ("/assets/" +:+ Str.unsplit segs) w)
  = Normal (Some (clientDir cwd +:+ "/assets/" +:+ Str.unsplit segs)).
Proof.
  intros Hcwd Hs Hne Hfile.
  assert (Heq : "/assets/" +:+ Str.unsplit segs = "/" +:+ Str.unsplit ("assets" :: segs))
    by (destruct segs; [contradiction | reflexivity]).
  rewrite Heq in *.
  rewrite (resolveStatic_plain cwd ("assets" :: segs) w); try assumption; try discriminate.
  - reflexivity.
  - constructor; [reflexivity | exact Hs].
  - rewrite <- Heq. unfold candidate. now rewrite startsWith_append.
Qed.

Lemma resolveStatic_assets_path_witness :
  fst (resolveStatic "/app" "/assets/app.js" sampleWorld)
  = Normal (Some "/app/dist/client/assets/app.js").
Proof.
  apply (resolveStatic_assets_path "/app" ["app.js"] sampleWorld).
  - reflexivity.
  - repeat constructor.
  - discriminate.
  - reflexivity.
Defined.

(** X7: every name of the allow-list is served from the top of the
    asset root: when clientDir/name is a regular file, the URL path
    "/name" resolves to it. *)
Theorem resolveStatic_allowed_name (cwd name : string) (w : World) :
  startsWithSlash cwd = true ->
  name ∈ staticFiles ->
  fileStat w (clientDir cwd +:+ "/" +:+ name) = Normal RegularFile ->
  fst (resolveStatic cwd ("/" +:+ name) w) = Normal (Some (clientDir cwd +:+ "/" +:+ name)).
Proof.
  intros Hcwd Hin Hfile.
  assert (Hname : clean name /\ candidate ("/" +:+ name) = true).
  { unfold staticFiles in Hin. set_unfold in Hin.
    repeat destruct Hin as [Hin | Hin]; subst name; split; vm_compute; reflexivity. }
  destruct Hname as [Hclean Hcand].
  change name with (Str.unsplit [name]) in *.
  rewrite (resolveStatic_plain cwd [name] w); try assumption; try discriminate.
  - reflexivity.
  - constructor; [exact Hclean | constructor].
Qed.

Lemma resolveStatic_allowed_name_witness :
  fst (resolveStatic "/app" "/favicon.ico" sampleWorld)
  = Normal (Some "/app/dist/client/favicon.ico").
Proof.
  apply (resolveStatic_allowed_name "/app" "favicon.ico" sampleWorld).
  - reflexivity.
  - apply (bool_decide_eq_true_1 _). vm_compute. reflexivity.
  - reflexivity.
Defined.

(** ** Sending: [handleError] on an untouched head, and the forwarding
    of a handler response *)

Module ForwardFacts.
Import DispatchFacts OutcomeFacts.




End ForwardFacts.

Import ForwardFacts OutcomeFacts.

(** The request callback continues from the handler's response with
    [forwardResponse]. *)
Lemma delegate_forward (newRequest : string -> RequestInit -> Completion Request)
      (handlerImpl : Request -> Completion Response)
      (globalThis : list (string * Binding))
      (req : IncomingMessage) (url : URL) :
  delegate newRequest handlerImpl globalThis req url
  = (request ← liftCompletion (buildRequest newRequest req url);
     response ← callHandler handlerImpl globalThis request;
     forwardResponse response).
Proof. reflexivity. Qed.




(** X9: [handleError] on a response whose head is not yet sent sets the
    status to 500 and Content-Type to text/plain, keeps every other
    header that was pending, appends "Internal Server Error" to what
    was written (nothing when the response, made for a HEAD request,
    takes no body), finishes the response and logs the error. *)
Theorem handleError_before_headers_sent (e : JsError) (w : World) :
  headersSent (res w) = false -> finished (res w) = false ->
  let w' := snd (handleError e w) in
  sentStatus (res w') = Some 500%Z
  /\ (forall name,
        sentHeader name (res w')
        = if Res.sameName "Content-Type" name then Some "text/plain"
          else Res.lookup name (pendingHeaders (res w)))
  /\ written (res w')
     = written (res w) ++ (if hasBody (res w) then ["Internal Server Error"] else [])
  /\ finished (res w') = true
  /\ consoleErrors w' = consoleErrors w ++ [e].
Proof.
  intros Hsent Hfin w'. subst w'. rewrite (handleError_unsent e w Hsent).
  unfold headersSent in Hsent.
  destruct w as [fs st co hc [sc ph [h|] wr ec fin [|]]]; simpl in *; try discriminate;
    subst fin; unfold sentStatus, sentHeader; simpl; rewrite ?List.app_nil_r;
    (repeat split; intros name; apply lookup_setHeader).
Qed.

Lemma handleError_before_headers_sent_witness :
  let w := withRes sampleWorld
             (mkRes 200 [("Cache-Control", cacheControl); ("content-type", "image/png")]
                    None [] 0 false true) in
  let w' := snd (handleError (SystemError "ENOENT") w) in
  sentStatus (res w') = Some 500%Z
  /\ sentHeader "content-type" (res w') = Some "text/plain"
  /\ sentHeader "cache-control" (res w') = Some cacheControl.
Proof.
  destruct (handleError_before_headers_sent (SystemError "ENOENT")
              (withRes sampleWorld
                 (mkRes 200 [("Cache-Control", cacheControl); ("content-type", "image/png")]
                        None [] 0 false true)))
    as (Hstatus & Hheaders & _); [reflexivity | reflexivity |].
  split; [exact Hstatus |]. split; rewrite Hheaders; reflexivity.
Defined.

(** ** routes/holders.tsx: the Sankey graph *)

Module HoldersFacts.
Import JsMap Holders HoldersAux.

Section Graph.
Context {Num : Type}.

Lemma mapHas_In {V} (k : string) (m : list (string * V)) :
  mapHas k m = true <-> In k (map fst m).
Proof.
  unfold mapHas. rewrite existsb_exists. split.
  - intros ([k' v] & Hin & Heq). apply String.eqb_eq in Heq. simpl in Heq. subst k'.
    apply in_map_iff. now exists (k, v).
  - intros Hin. apply in_map_iff in Hin as ([k' v] & Heq & Hin). simpl in Heq. subst k'.
    exists (k, v). split; [exact Hin | apply String.eqb_refl].
Qed.

Lemma mapHas_false {V} (k : string) (m : list (string * V)) :
  mapHas k m = false -> ~ In k (map fst m).
Proof. intros H Hin. apply mapHas_In in Hin. congruence. Qed.

Lemma mapSet_fresh {V} (k : string) (v : V) (m : list (string * V)) :
  mapHas k m = false -> mapSet k v m = m ++ [(k, v)].
Proof. unfold mapSet. now intros ->. Qed.

Lemma ensure_keys (key : string) (n : SankeyNode) (m : list (string * SankeyNode)) :
  map fst (ensure key n m)
  = if mapHas key m then map fst m else map fst m ++ [key].
Proof.
  unfold ensure. destruct (mapHas key m) eqn:H; [reflexivity |].
  rewrite (mapSet_fresh _ _ _ H), map_app. reflexivity.
Qed.

Lemma ensure_has (key : string) (n : SankeyNode) (m : list (string * SankeyNode)) :
  In key (map fst (ensure key n m)).
Proof.
  rewrite ensure_keys. destruct (mapHas key m) eqn:H.
  - now apply mapHas_In.
  - apply in_or_app. right. now left.
Qed.

Lemma ensure_keeps (key k : string) (n : SankeyNode) (m : list (string * SankeyNode)) :
  In k (map fst m) -> In k (map fst (ensure key n m)).
Proof.
  intros H. rewrite ensure_keys. destruct (mapHas key m); [exact H |].
  apply in_or_app. now left.
Qed.

Lemma ensure_new (key k : string) (n : SankeyNode) (m : list (string * SankeyNode)) :
  In k (map fst (ensure key n m)) -> In k (map fst m) \/ k = key.
Proof.
  rewrite ensure_keys. destruct (mapHas key m); [now left |].
  intros H. apply in_app_or in H as [H | [H | []]]; auto.
Qed.

Lemma ensure_NoDup (key : string) (n : SankeyNode) (m : list (string * SankeyNode)) :
  List.NoDup (map fst m) -> List.NoDup (map fst (ensure key n m)).
Proof.
  intros H. rewrite ensure_keys. destruct (mapHas key m) eqn:Hhas; [exact H |].
  apply mapHas_false in Hhas.
  apply List.NoDup_app; repeat split; try assumption.
  - constructor; [intros [] | constructor].
  - intros x Hx [<- | []]. contradiction.
Qed.

Lemma ensure_entries (key k : string) (n n' : SankeyNode) (m : list (string * SankeyNode)) :
  In (k, n') (ensure key n m) -> In (k, n') m \/ (k = key /\ n' = n).
Proof.
  unfold ensure. destruct (mapHas key m) eqn:H; [now left |].
  rewrite (mapSet_fresh _ _ _ H). intros Hin.
  apply in_app_or in Hin as [Hin | [Heq | []]]; [now left |].
  right. now inversion Heq.
Qed.

Lemma ensure_length (key : string) (n : SankeyNode) (m : list (string * SankeyNode)) :
  length (ensure key n m) <= S (length m).
Proof.
  unfold ensure. destruct (mapHas key m) eqn:H; [lia |].
  rewrite (mapSet_fresh _ _ _ H), length_app. simpl. lia.
Qed.

Lemma sankeyStep_eq (nm : list (string * SankeyNode)) (ls : list (SankeyLink Num))
      (row : FlowRow Num) :
  sankeyStep (nm, ls) row
  = (ensure (target (linkOf row)) (nodeFor (row_hour row) (to_addr row))
       (ensure (source (linkOf row)) (nodeFor (row_hour row) (from_addr row)) nm),
     ls ++ [linkOf row]).
Proof. reflexivity. Qed.

Lemma Inv_init : Inv (Num:=Num) ([], []).
Proof. constructor; simpl; try easy. constructor. Qed.

Lemma Inv_step (st : list (string * SankeyNode) * list (SankeyLink Num)) (row : FlowRow Num) :
  Inv st -> Inv (sankeyStep st row).
Proof.
  destruct st as [nm ls]. intros [Hnd Hids Hcl Hused Hsize].
  rewrite sankeyStep_eq. simpl in Hnd, Hids, Hcl, Hused, Hsize.
  set (s := source (linkOf row)). set (t := target (linkOf row)).
  set (ns := nodeFor (row_hour row) (from_addr row)).
  set (nt := nodeFor (row_hour row) (to_addr row)).
  constructor; simpl.
  - now do 2 apply ensure_NoDup.
  - intros k n Hin.
    apply ensure_entries in Hin as [Hin | [-> ->]]; [| now exists (row_hour row), (to_addr row)].
    apply ensure_entries in Hin as [Hin | [-> ->]]; [| now exists (row_hour row), (from_addr row)].
    now apply Hids.
  - intros l Hin. apply in_app_or in Hin as [Hin | [<- | []]].
    + destruct (Hcl l Hin). split; now do 2 apply ensure_keeps.
    + split; [apply ensure_keeps, ensure_has | apply ensure_has].
  - intros k Hin.
    apply ensure_new in Hin as [Hin | ->].
    + apply ensure_new in Hin as [Hin | ->].
      * destruct (Hused k Hin) as (l & Hl & Hk). exists l. split; [| exact Hk].
        apply in_or_app. now left.
      * exists (linkOf row). split; [apply in_or_app; right; now left | now left].
    + exists (linkOf row). split; [apply in_or_app; right; now left | now right].
  - rewrite length_app. simpl.
    pose proof (ensure_length t nt (ensure s ns nm)).
    pose proof (ensure_length s ns nm). lia.
Qed.

Lemma Inv_loop (rows : list (FlowRow Num)) : Inv (sankeyLoop rows).
Proof.
  unfold sankeyLoop. generalize Inv_init.
  generalize (@nil (string * SankeyNode), @nil (SankeyLink Num)).
  induction rows as [|row rows IH]; intros st Hst; simpl; [exact Hst |].
  apply IH. now apply Inv_step.
Qed.

Lemma sankeyLoop_links (rows : list (FlowRow Num)) :
  snd (sankeyLoop rows) = map linkOf rows.
Proof.
  unfold sankeyLoop.
  assert (H : forall st, snd (fold_left sankeyStep rows st) = snd st ++ map linkOf rows).
  { induction rows as [|row rows IH]; intros [nm ls]; cbn [fold_left].
    - simpl. now rewrite List.app_nil_r.
    - rewrite IH, sankeyStep_eq. simpl. now rewrite <- List.app_assoc. }
  now rewrite H.
Qed.

Lemma buildSankey_nodes (rows : list (FlowRow Num)) :
  nodes (buildSankey rows) = map snd (fst (sankeyLoop rows))
  /\ links (buildSankey rows) = snd (sankeyLoop rows).
Proof. unfold buildSankey. now destruct (sankeyLoop rows). Qed.

Lemma node_ids (rows : list (FlowRow Num)) :
  map id (nodes (buildSankey rows)) = map fst (fst (sankeyLoop rows)).
Proof.
  destruct (buildSankey_nodes rows) as [-> _].
  pose proof (inv_ids _ (Inv_loop rows)) as Hids.
  induction (fst (sankeyLoop rows)) as [|[k n] m IH]; [reflexivity |].
  simpl. destruct (Hids k n (or_introl eq_refl)) as (h & a & _ & ->).
  f_equal. apply IH. intros k' n' Hin. apply Hids. now right.
Qed.

End Graph.
End HoldersFacts.

Import Holders HoldersAux HoldersFacts.

(** X10: the graph has one link per row of the query, in row order,
    from the node id "hour-from_addr" to the node id "hour-to_addr",
    and both ends of every link are ids of nodes of the graph. *)
Theorem buildSankey_links_join_nodes {Num : Type} (rows : list (FlowRow Num)) :
  links (buildSankey rows) = map linkOf rows
  /\ Forall (fun l => In (source l) (map id (nodes (buildSankey rows)))
                      /\ In (target l) (map id (nodes (buildSankey rows))))
            (links (buildSankey rows)).
Proof.
  rewrite node_ids. destruct (buildSankey_nodes rows) as [_ ->].
  split; [apply sankeyLoop_links |].
  apply List.Forall_forall. intros l Hl.
  exact (inv_closed _ (Inv_loop rows) l Hl).
Qed.

(** X11: the ids of the nodes are pairwise distinct, and every node is
    the one built from an hour and an address: its id is "hour-addr",
    its label "hour – addr", its day equals its hour. *)
Theorem buildSankey_node_ids_distinct {Num : Type} (rows : list (FlowRow Num)) :
  List.NoDup (map id (nodes (buildSankey rows)))
  /\ Forall (fun n => id n = hour n +:+ "-" +:+ addr n
                      /\ label n = hour n +:+ " – " +:+ addr n
                      /\ day n = hour n)
            (nodes (buildSankey rows)).
Proof.
  split.
  - rewrite node_ids. exact (inv_nodup _ (Inv_loop rows)).
  - destruct (buildSankey_nodes rows) as [-> _].
    apply List.Forall_forall. intros n Hn.
    apply in_map_iff in Hn as ([k n'] & Heq & Hin). simpl in Heq. subst n'.
    destruct (inv_ids _ (Inv_loop rows) k n Hin) as (h & a & -> & _).
    repeat split.
Qed.

(** X12: every node of the graph is an end of at least one link, and
    there are at most two nodes per row; no rows give the empty graph. *)
Theorem buildSankey_no_orphans {Num : Type} (rows : list (FlowRow Num)) :
  Forall (fun n => Exists (fun l => source l = id n \/ target l = id n)
                          (links (buildSankey rows)))
         (nodes (buildSankey rows))
  /\ length (nodes (buildSankey rows)) <= 2 * length rows
  /\ buildSankey (@nil (FlowRow Num)) = emptySankey.
Proof.
  split; [| split; [| reflexivity]].
  - apply List.Forall_forall. intros n Hn.
    assert (Hid : In (id n) (map id (nodes (buildSankey rows)))) by now apply in_map.
    rewrite node_ids in Hid.
    destruct (inv_used _ (Inv_loop rows) _ Hid) as (l & Hl & Hk).
    destruct (buildSankey_nodes rows) as [_ ->].
    apply List.Exists_exists. now exists l.
  - destruct (buildSankey_nodes rows) as [-> _]. rewrite length_map.
    pose proof (inv_size _ (Inv_loop rows)) as Hsize.
    rewrite sankeyLoop_links, length_map in Hsize. exact Hsize.
Qed.

Import Loader.

(** X13: once the database is open, [getSankeyData] does not throw: a
    query that throws gives the empty graph and one log entry, a query
    that returns gives the graph built from its rows; in both cases the
    handle opened is closed once. *)
Theorem getSankeyData_absorbs_query_errors {Num : Type}
    (flowRows : Completion (list (FlowRow Num))) (st : Db) :
  let out := getSankeyData Num (Normal tt) flowRows st in
  fst out = Normal (match flowRows with
                    | Normal rows => buildSankey rows
                    | Throw _ => emptySankey
                    end)
  /\ logged (snd out) = logged st ++ match flowRows with
                                      | Normal _ => []
                                      | Throw e => [e]
                                      end
  /\ opens (snd out) = S (opens st)
  /\ closes (snd out) = S (closes st).
Proof.
  destruct flowRows as [rows | e]; simpl; repeat split.
  now rewrite List.app_nil_r.
Qed.

(** X14: the loader of the route closes every database handle it
    opened, whatever the two openings and the two queries do.  It
    throws what the first opening, the holder query or the second
    opening threw (after a failure the later steps are not run); an
    error of the Sankey query alone does not make it throw. *)
Theorem loader_closes_what_it_opens {Num : Type}
    (holdersOpen : Completion unit)
    (holderRows : Completion (list (HolderPoint Num)))
    (sankeyOpen : Completion unit)
    (flowRows : Completion (list (FlowRow Num))) (st : Db) :
  let out := loader Num holdersOpen holderRows sankeyOpen flowRows st in
  opens (snd out) + closes st = closes (snd out) + opens st
  /\ match holdersOpen, holderRows, sankeyOpen with
     | Throw e, _, _ => fst out = Throw e /\ snd out = st
     | Normal _, Throw e, _ => fst out = Throw e /\ opens (snd out) = S (opens st)
     | Normal _, Normal _, Throw e => fst out = Throw e /\ opens (snd out) = S (opens st)
     | Normal _, Normal points, Normal _ =>
         opens (snd out) = S (S (opens st))
         /\ exists graph, fst out = Normal (points, graph)
     end.
Proof.
  destruct holdersOpen as [[] | e], holderRows as [points | e'],
           sankeyOpen as [[] | e2], flowRows as [rows | e''];
    simpl; repeat split; try lia; try reflexivity; eauto; now destruct st.
Qed.

Example loader_second_open_fails :
  let out := loader Z (Normal tt) (Normal []) (Throw (SystemError "SQLITE_BUSY"))
                    (Normal []) freshDb in
  fst out = Throw (SystemError "SQLITE_BUSY")
  /\ opens (snd out) = 1 /\ closes (snd out) = 1.
Proof. repeat split. Qed.

(** ** routes/transfers.tsx: the flow chart data *)

Module MapFacts.
Import JsMap.

Section WithValues.
Context {V : Type}.
Implicit Types (m : list (string * V)) (k : string) (v : V).

Lemma mapHas_iff k m : mapHas k m = true <-> In k (map fst m).
Proof.
  unfold mapHas. rewrite existsb_exists. split.
  - intros ([k' v] & Hin & Heq). apply String.eqb_eq in Heq. simpl in Heq. subst k'.
    apply in_map_iff. now exists (k, v).
  - intros Hin. apply in_map_iff in Hin as ([k' v] & Heq & Hin). simpl in Heq. subst k'.
    exists (k, v). split; [exact Hin | apply String.eqb_refl].
Qed.

Lemma mapGet_None k m : mapHas k m = false -> mapGet k m = None.
Proof.
  unfold mapHas. induction m as [|[k' v] m IH]; [reflexivity |]. simpl.
  destruct (String.eqb k' k); [discriminate | exact IH].
Qed.

Lemma mapGet_app k m1 m2 :
  mapGet k (m1 ++ m2) = match mapGet k m1 with Some v => Some v | None => mapGet k m2 end.
Proof.
  induction m1 as [|[k' v] m1 IH]; [reflexivity |]. simpl.
  destruct (String.eqb k' k); [reflexivity | exact IH].
Qed.

Lemma mapGet_replace k k' v m :
  mapGet k' (map (fun kv => if String.eqb (fst kv) k then (k, v) else kv) m)
  = if String.eqb k k' then (if mapHas k m then Some v else None) else mapGet k' m.
Proof.
  unfold mapHas. induction m as [|[k0 v0] m IH]; simpl; [now destruct (String.eqb k k') |].
  destruct (String.eqb k0 k) eqn:H0; simpl.
  - apply String.eqb_eq in H0. subst k0.
    destruct (String.eqb k k'); [reflexivity | exact IH].
  - destruct (String.eqb k0 k') eqn:H1.
    + apply String.eqb_eq in H1. subst k0.
      rewrite String.eqb_sym, H0. reflexivity.
    + exact IH.
Qed.

(** Reading a key after a [set]. *)
Lemma mapGet_mapSet k k' v m :
  mapGet k' (mapSet k v m) = if String.eqb k k' then Some v else mapGet k' m.
Proof.
  unfold mapSet. destruct (mapHas k m) eqn:Hhas.
  - rewrite mapGet_replace, Hhas. reflexivity.
  - rewrite mapGet_app. simpl. destruct (String.eqb k k') eqn:Hk.
    + apply String.eqb_eq in Hk. subst k'. now rewrite (mapGet_None _ _ Hhas).
    + now destruct (mapGet k' m).
Qed.

Lemma mapSet_keys k v m :
  map fst (mapSet k v m) = if mapHas k m then map fst m else map fst m ++ [k].
Proof.
  unfold mapSet. destruct (mapHas k m); [| now rewrite map_app].
  induction m as [|[k0 v0] m IH]; [reflexivity |]. simpl.
  destruct (String.eqb k0 k) eqn:H0; simpl; rewrite IH; [| reflexivity].
  apply String.eqb_eq in H0. now subst.
Qed.

Lemma mapSet_NoDup k v m :
  List.NoDup (map fst m) -> List.NoDup (map fst (mapSet k v m)).
Proof.
  intros H. rewrite mapSet_keys. destruct (mapHas k m) eqn:Hhas; [exact H |].
  apply List.NoDup_app; repeat split; try assumption.
  - constructor; [intros [] | constructor].
  - intros x Hx [<- | []]. apply mapHas_iff in Hx. congruence.
Qed.

Lemma mapGet_In k v m :
  List.NoDup (map fst m) -> In (k, v) m -> mapGet k m = Some v.
Proof.
  induction m as [|[k0 v0] m IH]; [intros _ [] |].
  simpl. intros Hnd [Heq | Hin].
  - inversion Heq; subst. now rewrite String.eqb_refl.
  - inversion Hnd as [|? ? Hnot Hnd']; subst.
    destruct (String.eqb k0 k) eqn:H0; [| now apply IH].
    apply String.eqb_eq in H0. subst k0. exfalso. apply Hnot.
    apply in_map_iff. now exists (k, v).
Qed.

End WithValues.

Lemma setHas_iff (x : string) (s : list string) : setHas x s = true <-> In x s.
Proof.
  unfold setHas. rewrite existsb_exists. split.
  - intros (y & Hin & Heq). apply String.eqb_eq in Heq. now subst.
  - intros Hin. exists x. split; [exact Hin | apply String.eqb_refl].
Qed.

Lemma setAdd_In (x y : string) (s : list string) :
  In x (setAdd y s) <-> x = y \/ In x s.
Proof.
  unfold setAdd. destruct (setHas y s) eqn:H.
  - apply setHas_iff in H. split; [now right | intros [-> | ?]; assumption].
  - rewrite in_app_iff. simpl. intuition.
Qed.

Lemma setAdd_NoDup (y : string) (s : list string) :
  List.NoDup s -> List.NoDup (setAdd y s).
Proof.
  intros Hnd. unfold setAdd. destruct (setHas y s) eqn:H; [exact Hnd |].
  apply List.NoDup_app; repeat split; try assumption.
  - constructor; [intros [] | constructor].
  - intros x Hx [<- | []]. apply setHas_iff in Hx. congruence.
Qed.

End MapFacts.

Module SortFacts.
Import Transfers TransfersAux.

Lemma insertDesc_perm (l : FlowLink) (s : list FlowLink) :
  Permutation (insertDesc l s) (l :: s).
Proof.
  induction s as [|h t IH]; [reflexivity |]. simpl.
  destruct (link_value l <? link_value h)%nat; [| reflexivity].
  rewrite IH. apply perm_swap.
Qed.

Lemma sortDesc_perm (ls : list FlowLink) : Permutation (sortDesc ls) ls.
Proof.
  induction ls as [|l ls IH]; [reflexivity |]. simpl.
  rewrite insertDesc_perm. now constructor.
Qed.

Lemma insertDesc_descending (l : FlowLink) (s : list FlowLink) :
  descending s -> descending (insertDesc l s).
Proof.
  unfold descending. induction s as [|h t IH]; intros Hs; simpl.
  - repeat constructor.
  - inversion Hs as [|? ? Ht Hh]; subst.
    destruct (link_value l <? link_value h)%nat eqn:Hcmp.
    + apply Nat.ltb_lt in Hcmp. constructor; [now apply IH |].
      apply List.Forall_forall. intros x Hx.
      apply (Permutation_in _ (insertDesc_perm l t)) in Hx as [<- | Hx]; [lia |].
      revert x Hx. now apply List.Forall_forall.
    + apply Nat.ltb_ge in Hcmp. constructor; [exact Hs |].
      constructor; [exact Hcmp |].
      eapply List.Forall_impl; [| exact Hh]. simpl. intros; lia.
Qed.

Lemma sortDesc_descending (ls : list FlowLink) : descending (sortDesc ls).
Proof.
  induction ls as [|l ls IH]; [constructor |]. simpl. now apply insertDesc_descending.
Qed.

Lemma firstn_subset {A} (n : nat) (l : list A) (x : A) :
  In x (firstn n l) -> In x l.
Proof.
  revert n. induction l as [|y l IH]; intros [|n]; simpl; try easy.
  intros [-> | H]; [now left | right; now apply (IH n)].
Qed.

Lemma firstn_descending (n : nat) (ls : list FlowLink) :
  descending ls -> descending (firstn n ls).
Proof.
  unfold descending. revert n. induction ls as [|l ls IH]; intros n Hs.
  - now rewrite firstn_nil.
  - destruct n as [|n]; [constructor |]. simpl.
    inversion Hs as [|? ? Ht Hh]; subst. constructor; [now apply IH |].
    apply List.Forall_forall. intros x Hx.
    apply (proj1 (List.Forall_forall _ _) Hh). revert Hx. apply firstn_subset.
Qed.

Lemma topLinks_In (l : FlowLink) (cs : list (string * nat)) :
  In l (topLinks cs) -> exists entry, In entry cs /\ l = linkOfEntry entry.
Proof.
  unfold topLinks. intros Hin. apply firstn_subset in Hin.
  apply (Permutation_in _ (sortDesc_perm _)) in Hin.
  apply in_map_iff in Hin as (entry & <- & Hin). now exists entry.
Qed.

Lemma totalValue_perm (l1 l2 : list FlowLink) :
  Permutation l1 l2 -> totalValue l1 = totalValue l2.
Proof.
  unfold totalValue. induction 1; simpl; lia.
Qed.

Lemma totalValue_firstn (n : nat) (ls : list FlowLink) :
  totalValue (firstn n ls) <= totalValue ls.
Proof.
  unfold totalValue. revert n. induction ls as [|l ls IH]; intros [|n]; simpl; try lia.
  specialize (IH n). lia.
Qed.

End SortFacts.

Module CountFacts.
Import JsMap MapFacts Transfers TransfersAux.

Lemma countStep_eq (cs : list (string * nat)) (ids : list string) (tx : TransferRow) :
  countStep (cs, ids) tx
  = if counted tx
    then (mapSet (keyOf tx) (default 0 (mapGet (keyOf tx) cs) + 1) cs,
          setAdd (default "" (to_addr tx)) (setAdd (default "" (from_addr tx)) ids))
    else (cs, ids).
Proof.
  unfold countStep, counted, keyOf.
  destruct (truthy (from_addr tx)), (truthy (to_addr tx)); reflexivity.
Qed.

Lemma keyCount_snoc (k : string) (txs : list TransferRow) (tx : TransferRow) :
  keyCount k (txs ++ [tx])
  = keyCount k txs + (if counted tx && String.eqb (keyOf tx) k then 1 else 0).
Proof.
  unfold keyCount. rewrite List.filter_app, length_app. simpl.
  now destruct (counted tx && String.eqb (keyOf tx) k).
Qed.

Lemma default_positive (n : nat) : default 0 (positive n) = n.
Proof. now destruct n. Qed.

Lemma positive_succ (n : nat) : positive (n + 1) = Some (n + 1).
Proof. rewrite Nat.add_1_r. reflexivity. Qed.

Lemma replace_absent (k : string) (v : nat) (m : list (string * nat)) :
  ~ In k (map fst m) ->
  map (fun kv => if String.eqb (fst kv) k then (k, v) else kv) m = m.
Proof.
  induction m as [|[k0 v0] m IH]; [reflexivity |]. simpl. intros Hnot.
  destruct (String.eqb k0 k) eqn:H0.
  - apply String.eqb_eq in H0. subst. exfalso. apply Hnot. now left.
  - f_equal. apply IH. intros Hin. apply Hnot. now right.
Qed.

Lemma sumCounts_app (m1 m2 : list (string * nat)) :
  sumCounts (m1 ++ m2) = sumCounts m1 + sumCounts m2.
Proof. unfold sumCounts. induction m1 as [|kv m1 IH]; simpl; lia. Qed.

(** Setting one key changes the sum by the change of that key. *)
Lemma sumCounts_mapSet (k : string) (v : nat) (m : list (string * nat)) :
  List.NoDup (map fst m) ->
  sumCounts (mapSet k v m) + default 0 (mapGet k m) = sumCounts m + v.
Proof.
  intros Hnd. unfold mapSet. destruct (mapHas k m) eqn:Hhas.
  - induction m as [|[k0 v0] m IH]; [discriminate |].
    inversion Hnd as [|? ? Hnot Hnd']; subst.
    unfold mapHas in Hhas. simpl in Hhas. simpl.
    destruct (String.eqb k0 k) eqn:H0.
    + apply String.eqb_eq in H0. subst k0.
      rewrite (replace_absent k v m Hnot). unfold sumCounts. simpl. lia.
    + specialize (IH Hnd' Hhas). unfold sumCounts in *. simpl. lia.
  - rewrite (mapGet_None _ _ Hhas), sumCounts_app. unfold sumCounts. simpl. lia.
Qed.

Lemma default_truthy (o : option string) (x : string) :
  truthy o = true -> (o = Some x <-> default "" o = x).
Proof.
  destruct o as [s |]; [| discriminate]. simpl. intros _.
  split; [now intros [= ->] | now intros ->].
Qed.

Lemma CountInv_init : CountInv [] ([], []).
Proof.
  constructor; simpl; try easy; try constructor.
  - intros [].
  - intros (tx & [] & _).
Qed.

Lemma CountInv_step (txs : list TransferRow) (st : list (string * nat) * list string)
      (tx : TransferRow) :
  CountInv txs st -> CountInv (txs ++ [tx]) (countStep st tx).
Proof.
  destruct st as [cs ids]. intros [Hnd Hget Hsum Hind Hids].
  simpl in Hnd, Hget, Hsum, Hind, Hids.
  rewrite countStep_eq. destruct (counted tx) eqn:Hc.
  - constructor; simpl.
    + now apply mapSet_NoDup.
    + intros k. rewrite mapGet_mapSet, keyCount_snoc, Hc, Hget, default_positive. simpl.
      destruct (String.eqb (keyOf tx) k) eqn:Hk.
      * apply String.eqb_eq in Hk. subst k. apply eq_sym, positive_succ.
      * now rewrite Nat.add_0_r.
    + pose proof (sumCounts_mapSet (keyOf tx) (default 0 (mapGet (keyOf tx) cs) + 1) cs Hnd).
      rewrite List.filter_app, length_app. simpl. rewrite Hc. simpl. lia.
    + now do 2 apply setAdd_NoDup.
    + intros x. rewrite !setAdd_In, Hids.
      unfold counted in Hc. apply andb_true_iff in Hc as [Hf Ht].
      split.
      * intros [Hx | [Hx | (tx' & Hin & Hc' & Hx)]].
        -- exists tx. split; [apply in_or_app; right; now left |].
           split; [unfold counted; now rewrite Hf, Ht |]. right.
           now apply (default_truthy _ _ Ht).
        -- exists tx. split; [apply in_or_app; right; now left |].
           split; [unfold counted; now rewrite Hf, Ht |]. left.
           now apply (default_truthy _ _ Hf).
        -- exists tx'. split; [apply in_or_app; now left | auto].
      * intros (tx' & Hin & Hc' & Hx).
        apply in_app_or in Hin as [Hin | [<- | []]].
        -- right. right. now exists tx'.
        -- destruct Hx as [Hx | Hx].
           ++ right. left. symmetry. now apply (default_truthy _ _ Hf).
           ++ left. symmetry. now apply (default_truthy _ _ Ht).
  - constructor; simpl; try assumption.
    + intros k. rewrite keyCount_snoc, Hc. simpl. now rewrite Nat.add_0_r.
    + rewrite List.filter_app, length_app. simpl. rewrite Hc. simpl. lia.
    + intros x. rewrite Hids. split.
      * intros (tx' & Hin & H). exists tx'. split; [apply in_or_app; now left | exact H].
      * intros (tx' & Hin & Hc' & Hx).
        apply in_app_or in Hin as [Hin | [<- | []]]; [now exists tx' | congruence].
Qed.

Lemma CountInv_loop (txs : list TransferRow) : CountInv txs (countLoop txs).
Proof.
  unfold countLoop.
  assert (H : forall pre st, CountInv pre st -> CountInv (pre ++ txs) (fold_left countStep txs st)).
  { induction txs as [|tx txs IH]; intros pre st Hst; simpl.
    - now rewrite List.app_nil_r.
    - replace (pre ++ tx :: txs) with ((pre ++ [tx]) ++ txs) by now rewrite <- List.app_assoc.
      apply IH. now apply CountInv_step. }
  exact (H [] _ CountInv_init).
Qed.

End CountFacts.

Module FlowFacts.
Import JsMap MapFacts Transfers TransfersAux SortFacts CountFacts StrFacts.

Lemma flowData_Some (txs : list TransferRow) :
  flowData (Some txs)
  = mkFlowData
      (map mkFlowNode
         (List.filter (fun nodeId => existsb (fun l => touches l nodeId)
                                             (topLinks (fst (countLoop txs))))
                      (snd (countLoop txs))))
      (topLinks (fst (countLoop txs))).
Proof.
  destruct txs as [|tx txs]; [reflexivity |].
  unfold flowData. now destruct (countLoop (tx :: txs)).
Qed.

Lemma flowData_None : flowData None = mkFlowData [] [].
Proof. reflexivity. Qed.

Lemma touches_iff (l : FlowLink) (x : string) :
  touches l x = true <-> source l = Some x \/ target l = Some x.
Proof.
  unfold touches, isString. rewrite orb_true_iff.
  destruct (source l) as [s |], (target l) as [t |];
    rewrite ?String.eqb_eq; intuition congruence.
Qed.

(** Where no "->" can start, [split] keeps the character. *)
Lemma splitArrow_keep (c : ascii) (r : string) :
  Ascii.eqb c ">" = false -> noGreaterThan (JsString.take 1 r) = true ->
  splitArrow (String c r)
  = match splitArrow r with
    | h :: t => String c h :: t
    | [] => [String c EmptyString]
    end.
Proof.
  intros _ Hnext. simpl. destruct (Ascii.eqb c "-"); [| reflexivity].
  destruct r as [|c' r']; [reflexivity |].
  simpl in Hnext. rewrite andb_true_r in Hnext. apply negb_true_iff in Hnext.
  now rewrite Hnext.
Qed.

Lemma noGreaterThan_take (s : string) :
  noGreaterThan s = true -> noGreaterThan (JsString.take 1 s) = true.
Proof.
  destruct s as [|c r]; [reflexivity |]. simpl.
  intros H. apply andb_true_iff in H as [-> _]. reflexivity.
Qed.

Lemma splitArrow_plain (s : string) : noGreaterThan s = true -> splitArrow s = [s].
Proof.
  induction s as [|c r IH]; [reflexivity |]. intros H.
  pose proof H as H'. simpl in H'. apply andb_true_iff in H' as [Hc Hr].
  apply negb_true_iff in Hc.
  rewrite (splitArrow_keep c r Hc (noGreaterThan_take _ Hr)), (IH Hr). reflexivity.
Qed.

(** The key of a transfer splits back into its two addresses. *)
Lemma splitArrow_key (f t : string) :
  noGreaterThan f = true -> noGreaterThan t = true ->
  splitArrow (f +:+ "->" +:+ t) = [f; t].
Proof.
  intros Hf Ht. induction f as [|c f IH].
  - change ("" +:+ "->" +:+ t) with (String "-" (String ">" t)).
    simpl. now rewrite (splitArrow_plain t Ht).
  - simpl in Hf. apply andb_true_iff in Hf as [Hc Hf]. apply negb_true_iff in Hc.
    rewrite append_cons, splitArrow_keep, (IH Hf); [reflexivity | exact Hc |].
    destruct f as [|c' f']; [reflexivity |].
    rewrite append_cons. simpl in Hf |- *.
    apply andb_true_iff in Hf as [-> _]. reflexivity.
Qed.

Lemma key_inj (f t f' t' : string) :
  noGreaterThan f = true -> noGreaterThan t = true ->
  noGreaterThan f' = true -> noGreaterThan t' = true ->
  f +:+ "->" +:+ t = f' +:+ "->" +:+ t' -> f = f' /\ t = t'.
Proof.
  intros Hf Ht Hf' Ht' Heq.
  pose proof (splitArrow_key f t Hf Ht) as H1.
  rewrite Heq, (splitArrow_key f' t' Hf' Ht') in H1. now inversion H1.
Qed.

Lemma truthy_Some (o : option string) :
  truthy o = true -> exists s, o = Some s /\ Str.isEmpty s = false.
Proof.
  destruct o as [s |]; [| discriminate]. simpl. intros H.
  exists s. split; [reflexivity | now apply negb_true_iff].
Qed.

Lemma isString_falsy (o : option string) (s : string) :
  truthy o = false -> Str.isEmpty s = false -> isString o s = false.
Proof.
  destruct o as [x |]; [| reflexivity]. simpl. intros Hx Hs.
  apply negb_false_iff in Hx. destruct x; [| discriminate].
  destruct s; [discriminate | reflexivity].
Qed.

(** Among transfers with plain addresses, counting a key is counting the
    transfers between its two addresses. *)
Lemma keyCount_between (tx0 : TransferRow) (txs : list TransferRow) :
  Forall (fun tx => plainAddresses tx = true) txs ->
  plainAddresses tx0 = true -> counted tx0 = true ->
  keyCount (keyOf tx0) txs
  = transfersBetween (default "" (from_addr tx0)) (default "" (to_addr tx0)) txs.
Proof.
  intros Hplain Hp0 Hc0. unfold keyCount, transfersBetween. f_equal.
  apply List.filter_ext_in. intros tx Hin.
  pose proof (proj1 (List.Forall_forall _ _) Hplain tx Hin) as Hp.
  unfold counted in Hc0. apply andb_true_iff in Hc0 as [Hf0 Ht0].
  destruct (truthy_Some _ Hf0) as (f0 & Ef0 & Nf0).
  destruct (truthy_Some _ Ht0) as (t0 & Et0 & Nt0).
  unfold plainAddresses in Hp, Hp0. unfold keyOf. rewrite Ef0, Et0 in *. simpl in Hp0 |- *.
  apply andb_true_iff in Hp0 as [Pf0 Pt0]. apply andb_true_iff in Hp as [Pf Pt].
  unfold counted. destruct (truthy (from_addr tx)) eqn:Hf.
  2: { simpl. now rewrite (isString_falsy _ _ Hf Nf0). }
  destruct (truthy (to_addr tx)) eqn:Ht.
  2: { simpl. rewrite (isString_falsy _ _ Ht Nt0). now rewrite andb_false_r. }
  destruct (truthy_Some _ Hf) as (f & Ef & _). destruct (truthy_Some _ Ht) as (t & Et & _).
  rewrite Ef, Et in *. simpl in Pf, Pt |- *.
  destruct (String.eqb (f +:+ "->" +:+ t) (f0 +:+ "->" +:+ t0)) eqn:Hk.
  - apply String.eqb_eq in Hk. destruct (key_inj _ _ _ _ Pf Pt Pf0 Pt0 Hk) as [-> ->].
    now rewrite !String.eqb_refl.
  - symmetry. apply andb_false_iff.
    destruct (String.eqb f f0) eqn:H1; [| now left].
    destruct (String.eqb t t0) eqn:H2; [| now right].
    apply String.eqb_eq in H1, H2. subst. now rewrite String.eqb_refl in Hk.
Qed.

Lemma positive_Some (n c : nat) : positive n = Some c -> c = n /\ 1 <= n.
Proof. destruct n; [discriminate |]. intros [= <-]. split; [reflexivity | lia]. Qed.

Lemma filter_nonempty {A} (f : A -> bool) (l : list A) :
  1 <= length (List.filter f l) -> exists x, In x l /\ f x = true.
Proof.
  intros H. destruct (List.filter f l) as [|x r] eqn:E; [simpl in H; lia |].
  exists x. apply List.filter_In. rewrite E. now left.
Qed.

Lemma totalValue_entries (cs : list (string * nat)) :
  totalValue (map linkOfEntry cs) = sumCounts cs.
Proof.
  unfold totalValue, sumCounts. induction cs as [|kv cs IH]; [reflexivity |].
  simpl. now rewrite IH.
Qed.

End FlowFacts.

Import Transfers TransfersAux.
Import JsMap MapFacts SortFacts CountFacts FlowFacts.

Lemma flowData_links (transfers : option (list TransferRow)) :
  exists cs, links (flowData transfers) = topLinks cs.
Proof.
  destruct transfers as [txs |]; [| now exists []].
  rewrite flowData_Some. now eexists.
Qed.

(** X15: the chart gets at most 40 links, in descending order of their
    counts (no link is followed by one with a larger count). *)
Theorem flowData_top_links (transfers : option (list TransferRow)) :
  length (links (flowData transfers)) <= 40
  /\ descending (links (flowData transfers)).
Proof.
  destruct (flowData_links transfers) as [cs ->]. unfold topLinks. split.
  - rewrite length_firstn. lia.
  - apply firstn_descending, sortDesc_descending.
Qed.

(** X16: the node ids are pairwise distinct and every node is the
    source or the target of one of the links kept. *)
Theorem flowData_nodes_used (transfers : option (list TransferRow)) :
  List.NoDup (map Transfers.id (nodes (flowData transfers)))
  /\ Forall (fun n => Exists (fun l => source l = Some (Transfers.id n)
                                       \/ target l = Some (Transfers.id n))
                             (links (flowData transfers)))
            (nodes (flowData transfers)).
Proof.
  destruct transfers as [txs |]; [| split; constructor].
  rewrite flowData_Some. simpl. rewrite map_map. simpl. rewrite map_id. split.
  - apply List.NoDup_filter. exact (c_ids_nodup _ _ (CountInv_loop txs)).
  - apply List.Forall_forall. intros n Hn.
    apply in_map_iff in Hn as (x & <- & Hx). simpl.
    apply List.filter_In in Hx as [_ Hx]. apply existsb_exists in Hx as (l & Hl & Ht).
    apply List.Exists_exists. exists l. split; [exact Hl | now apply touches_iff].
Qed.

(** X17: when no address contains '>', every link kept has a source and
    a target, its value is the number of transfers from that source to
    that target (at least one), and both ends are among the nodes. *)
Theorem flowData_links_count (txs : list TransferRow) :
  Forall (fun tx => plainAddresses tx = true) txs ->
  Forall (fun l => exists f t,
                     source l = Some f /\ target l = Some t
                     /\ link_value l = transfersBetween f t txs
                     /\ 1 <= link_value l
                     /\ In f (map Transfers.id (nodes (flowData (Some txs))))
                     /\ In t (map Transfers.id (nodes (flowData (Some txs)))))
         (links (flowData (Some txs))).
Proof.
  intros Hplain. rewrite flowData_Some. simpl.
  pose proof (CountInv_loop txs) as Hinv.
  apply List.Forall_forall. intros l Hl.
  destruct (topLinks_In l _ Hl) as ([k c] & Hentry & ->).
  pose proof (mapGet_In k c _ (c_nodup _ _ Hinv) Hentry) as Hget.
  rewrite (c_get _ _ Hinv) in Hget. apply positive_Some in Hget as [-> Hpos].
  destruct (filter_nonempty _ _ Hpos) as (tx0 & Hin0 & Hsel).
  apply andb_true_iff in Hsel as [Hc0 Hk0]. apply String.eqb_eq in Hk0. subst k.
  pose proof (proj1 (List.Forall_forall _ _) Hplain tx0 Hin0) as Hp0.
  pose proof Hp0 as Hp0'. unfold plainAddresses in Hp0'.
  apply andb_true_iff in Hp0' as [Pf Pt].
  set (f := default "" (from_addr tx0)) in *. set (t := default "" (to_addr tx0)) in *.
  assert (Hlink : linkOfEntry (keyOf tx0, keyCount (keyOf tx0) txs)
                  = mkFlowLink (Some f) (Some t) (keyCount (keyOf tx0) txs)).
  { unfold linkOfEntry, keyOf. simpl. fold f t. now rewrite (splitArrow_key f t Pf Pt). }
  rewrite Hlink in *. exists f, t. simpl.
  split; [reflexivity |]. split; [reflexivity |].
  split; [now apply keyCount_between |]. split; [exact Hpos |].
  pose proof Hc0 as Hc0'. unfold counted in Hc0'. apply andb_true_iff in Hc0' as [Hf0 Ht0].
  assert (Hnode : forall x, In x (snd (countLoop txs)) ->
            touches (mkFlowLink (Some f) (Some t) (keyCount (keyOf tx0) txs)) x = true ->
            In x (map Transfers.id
                    (map mkFlowNode
                       (List.filter (fun nodeId => existsb (fun l => touches l nodeId)
                                                           (topLinks (fst (countLoop txs))))
                                    (snd (countLoop txs)))))).
  { intros x Hx Ht. rewrite map_map. simpl. rewrite map_id.
    apply List.filter_In. split; [exact Hx |].
    apply existsb_exists. eexists. split; [exact Hl | exact Ht]. }
  split; apply Hnode.
  - apply (c_ids _ _ Hinv). exists tx0. split; [exact Hin0 |]. split; [exact Hc0 |].
    left. now apply (default_truthy _ _ Hf0).
  - apply touches_iff. now left.
  - apply (c_ids _ _ Hinv). exists tx0. split; [exact Hin0 |]. split; [exact Hc0 |].
    right. now apply (default_truthy _ _ Ht0).
  - apply touches_iff. now right.
Qed.

(** X18: the values of the links kept add up to at most the number of
    transfers that have both addresses. *)
Theorem flowData_total_value (transfers : list TransferRow) :
  totalValue (links (flowData (Some transfers)))
  <= length (List.filter counted transfers)
  /\ length (List.filter counted transfers) <= length transfers.
Proof.
  rewrite flowData_Some. simpl. split; [| apply List.filter_length_le].
  unfold topLinks. etransitivity; [apply totalValue_firstn |].
  rewrite (totalValue_perm _ _ (sortDesc_perm _)), totalValue_entries.
  now rewrite (c_sum _ _ (CountInv_loop transfers)).
Qed.

Lemma flowData_links_count_witness :
  Forall (fun l => exists f t,
                     source l = Some f /\ target l = Some t
                     /\ link_value l = transfersBetween f t sampleTransfers
                     /\ 1 <= link_value l
                     /\ In f (map Transfers.id (nodes (flowData (Some sampleTransfers))))
                     /\ In t (map Transfers.id (nodes (flowData (Some sampleTransfers)))))
         (links (flowData (Some sampleTransfers))).
Proof.
  apply (flowData_links_count sampleTransfers). repeat constructor.
Defined.

Example flowData_sample :
  flowData (Some sampleTransfers)
  = mkFlowData [mkFlowNode "0xaa"; mkFlowNode "0xbb"; mkFlowNode "0xcc"]
               [mkFlowLink (Some "0xaa") (Some "0xbb") 2;
                mkFlowLink (Some "0xbb") (Some "0xcc") 1].
Proof. reflexivity. Qed.

(** ** routes/transfers.tsx: the cell formatters *)

Module SliceFacts.
Import JsString StrFacts.

Lemma take_drop (n : nat) (s : string) : take n s +:+ drop n s = s.
Proof.
  revert s. induction n as [|n IH]; intros [|c r]; try reflexivity.
  simpl. rewrite append_cons. now rewrite IH.
Qed.

Lemma length_take (n : nat) (s : string) :
  String.length (take n s) = Nat.min n (String.length s).
Proof.
  revert s. induction n as [|n IH]; intros [|c r]; try reflexivity.
  simpl. now rewrite IH.
Qed.

Lemma length_drop (n : nat) (s : string) :
  String.length (drop n s) = String.length s - n.
Proof.
  revert s. induction n as [|n IH]; intros [|c r]; try reflexivity. simpl. apply IH.
Qed.

Lemma take_all (n : nat) (s : string) : String.length s <= n -> take n s = s.
Proof.
  revert s. induction n as [|n IH]; intros [|c r]; simpl; try reflexivity; try lia.
  intros H. rewrite IH; [reflexivity | lia].
Qed.

Lemma take_min (n : nat) (s : string) : take (Nat.min n (String.length s)) s = take n s.
Proof.
  revert s. induction n as [|n IH]; intros [|c r]; try reflexivity.
  simpl. now rewrite IH.
Qed.

Lemma drop_drop (n m : nat) (s : string) : drop m (drop n s) = drop (n + m) s.
Proof.
  revert s. induction n as [|n IH]; intros s; [reflexivity |].
  destruct s as [|c r]; [now destruct m |]. simpl. apply IH.
Qed.

Lemma drop_0 (s : string) : drop 0 s = s.
Proof. now destruct s. Qed.

(** [a.slice(0, 6)] *)
Lemma slice_head (a : string) (n : nat) :
  slice a 0 (Some (Z.of_nat n)) = take n a.
Proof.
  unfold slice, clampIndex. simpl.
  assert ((Z.of_nat n <? 0)%Z = false) as -> by (apply Z.ltb_ge; lia).
  rewrite Nat2Z.id, Nat.sub_0_r. apply take_min.
Qed.

(** [a.slice(-4)] *)
Lemma slice_tail (a : string) (n : nat) :
  0 < n -> slice a (- Z.of_nat n) None = drop (String.length a - n) a.
Proof.
  intros Hn. unfold slice, clampIndex.
  assert ((- Z.of_nat n <? 0)%Z = true) as -> by (apply Z.ltb_lt; lia).
  replace (Z.to_nat (Z.max (Z.of_nat (String.length a) + - Z.of_nat n) 0))
    with (String.length a - n) by lia.
  apply take_all. rewrite length_drop. lia.
Qed.

Lemma length_append (a b : string) :
  String.length (a +:+ b) = String.length a + String.length b.
Proof. induction a as [|c a IH]; [reflexivity |]. rewrite append_cons. simpl. now rewrite IH. Qed.

End SliceFacts.

Import JsString SliceFacts.

Lemma shortenAddress_nonempty (a : string) :
  Str.isEmpty a = false ->
  shortenAddress (Some a) = take 6 a +:+ "..." +:+ drop (String.length a - 4) a.
Proof.
  intros Ha. unfold shortenAddress. rewrite Ha.
  change (slice a 0 (Some 6%Z)) with (slice a 0 (Some (Z.of_nat 6))).
  change (slice a (-4) None) with (slice a (- Z.of_nat 4) None).
  now rewrite (slice_head a 6), (slice_tail a 4) by lia.
Qed.

(** X19: an address of ten characters or more is shown as its first six
    characters, "..." and its last four: thirteen characters in all. *)
Theorem shortenAddress_long (a : string) :
  10 <= String.length a ->
  exists pre mid suf,
    a = pre +:+ mid +:+ suf
    /\ String.length pre = 6 /\ String.length suf = 4
    /\ shortenAddress (Some a) = pre +:+ "..." +:+ suf
    /\ String.length (shortenAddress (Some a)) = 13.
Proof.
  intros Hlen.
  assert (Ha : Str.isEmpty a = false) by (destruct a; [simpl in Hlen; lia | reflexivity]).
  rewrite (shortenAddress_nonempty a Ha).
  exists (take 6 a), (take (String.length a - 10) (drop 6 a)), (drop (String.length a - 4) a).
  assert (Hlast : drop (String.length a - 4) a = drop (String.length a - 10) (drop 6 a))
    by (rewrite drop_drop; f_equal; lia).
  split; [| split; [| split; [| split]]].
  - rewrite Hlast, (take_drop _ (drop 6 a)). now rewrite take_drop.
  - rewrite length_take. lia.
  - rewrite length_drop. lia.
  - reflexivity.
  - rewrite !length_append, length_take, length_drop.
    change (String.length "...") with 3. lia.
Qed.

Lemma shortenAddress_long_witness :
  exists pre mid suf,
    "0x52908400098527886E0F7030069857D2E4169EE7" = pre +:+ mid +:+ suf
    /\ String.length pre = 6 /\ String.length suf = 4
    /\ shortenAddress (Some "0x52908400098527886E0F7030069857D2E4169EE7")
       = pre +:+ "..." +:+ suf
    /\ String.length (shortenAddress (Some "0x52908400098527886E0F7030069857D2E4169EE7")) = 13.
Proof.
  apply (shortenAddress_long "0x52908400098527886E0F7030069857D2E4169EE7").
  simpl. lia.
Defined.

Example shortenAddress_sample :
  shortenAddress (Some "0x52908400098527886E0F7030069857D2E4169EE7") = "0x5290...9EE7".
Proof. reflexivity. Qed.

(** X20: a missing or empty address is shown as "N/A"; an address of one
    to four characters is shown twice, around the dots, so the short
    form is longer than the address. *)
Theorem shortenAddress_short (a : string) :
  1 <= String.length a <= 4 ->
  shortenAddress (Some a) = a +:+ "..." +:+ a
  /\ shortenAddress None = "N/A" /\ shortenAddress (Some "") = "N/A".
Proof.
  intros [Hlo Hhi].
  assert (Ha : Str.isEmpty a = false) by (destruct a; [simpl in Hlo; lia | reflexivity]).
  rewrite (shortenAddress_nonempty a Ha).
  replace (String.length a - 4) with 0 by lia.
  rewrite drop_0, take_all by lia. repeat split.
Qed.

Lemma shortenAddress_short_witness : shortenAddress (Some "0x0") = "0x0...0x0".
Proof.
  destruct (shortenAddress_short "0x0") as [H _]; [simpl; lia | exact H].
Defined.

(** X21: the label of a transfer is never empty, and label and badge go
    together: Mint with the emerald badge when is_mint is set, else
    Burn with the rose badge when is_burn is set, else the indigo badge
    with the direction, or "Transfer" when there is none. *)
Theorem labelFor_badgeClass (tx : TransferRow) :
  Str.isEmpty (labelFor tx) = false
  /\ ((labelFor tx = "Mint" /\ badgeClass tx = badgeMint /\ is_mint tx <> 0%Z)
      \/ (labelFor tx = "Burn" /\ badgeClass tx = badgeBurn
          /\ is_mint tx = 0%Z /\ is_burn tx <> 0%Z)
      \/ (badgeClass tx = badgeOther /\ is_mint tx = 0%Z /\ is_burn tx = 0%Z
          /\ (direction tx = Some (labelFor tx) \/ labelFor tx = "Transfer"))).
Proof.
  unfold labelFor, badgeClass, truthyNumber.
  destruct (Z.eqb_spec (is_mint tx) 0) as [Hm | Hm]; simpl.
  2: { split; [reflexivity | left; repeat split; assumption]. }
  destruct (Z.eqb_spec (is_burn tx) 0) as [Hb | Hb]; simpl.
  2: { split; [reflexivity | right; left; repeat split; assumption]. }
  destruct (direction tx) as [[|c d] |]; simpl;
    (split; [reflexivity | right; right; repeat split; auto]).
Qed.

(** ** Amounts *)

Module FormatFacts.
Import Format JsString StrFacts SliceFacts.

Lemma isDigit_pretty_N_char (x : N) : isDigit (pretty_N_char x) = true.
Proof. unfold pretty_N_char. repeat case_match; reflexivity. Qed.

Lemma isDigit_isWord (c : ascii) : isDigit c = true -> isWord c = true.
Proof. unfold isWord. now intros ->. Qed.

Lemma isDigit_not_comma (c : ascii) : isDigit c = true -> Ascii.eqb c "," = false.
Proof.
  intros H. destruct (Ascii.eqb_spec c ",") as [-> |]; [discriminate | reflexivity].
Qed.

Lemma allDigits_append (a b : string) :
  allDigits (a +:+ b) = allDigits a && allDigits b.
Proof.
  induction a as [|c a IH]; [reflexivity |].
  rewrite append_cons. simpl. rewrite IH. now rewrite andb_assoc.
Qed.

Lemma digitRun_allDigits (d : string) : allDigits d = true -> digitRun d = String.length d.
Proof.
  induction d as [|c d IH]; [reflexivity |]. simpl.
  intros [-> Hd]%andb_true_iff. now rewrite IH.
Qed.

Lemma length_digitsFixed (k : nat) (n : N) : String.length (digitsFixed k n) = k.
Proof.
  revert n. induction k as [|k IH]; intros n; [reflexivity |].
  simpl. rewrite length_append, IH. simpl. lia.
Qed.

Lemma allDigits_digitsFixed (k : nat) (n : N) : allDigits (digitsFixed k n) = true.
Proof.
  revert n. induction k as [|k IH]; intros n; [reflexivity |].
  simpl. rewrite allDigits_append, IH. simpl. now rewrite isDigit_pretty_N_char.
Qed.

Lemma digitsFixed_zero (k : nat) : digitsFixed k 0 = repeatChar k "0".
Proof.
  induction k as [|k IH]; [reflexivity |].
  simpl. change (0 / 10)%N with 0%N. change (0 mod 10)%N with 0%N. rewrite IH.
  clear IH. induction k as [|k IH]; [reflexivity |].
  simpl. rewrite append_cons. now rewrite IH.
Qed.

(** The high digits, then the low ones. *)
Lemma digitsFixed_split (j k : nat) (x : N) :
  digitsFixed (j + k) x = digitsFixed j (x / 10 ^ N.of_nat k)%N +:+ digitsFixed k x.
Proof.
  revert x. induction k as [|k IH]; intros x.
  - rewrite Nat.add_0_r. simpl. now rewrite N.div_1_r, append_empty_r.
  - replace (j + S k) with (S (j + k)) by lia.
    cbn [digitsFixed]. rewrite IH, append_assoc.
    rewrite N.Div0.div_div.
    replace (10 * 10 ^ N.of_nat k)%N with (10 ^ N.of_nat (S k))%N; [reflexivity |].
    rewrite Nat2N.inj_succ, N.pow_succ_r'. reflexivity.
Qed.

Lemma take_append_length (a b : string) : take (String.length a) (a +:+ b) = a.
Proof.
  induction a as [|c a IH]; [now destruct b |].
  rewrite append_cons. simpl. now rewrite IH.
Qed.

(** The first [p] of [d] digits are the digits of the quotient. *)
Lemma take_digitsFixed (p d : nat) (x : N) :
  p <= d ->
  take p (digitsFixed d x) = digitsFixed p (x / 10 ^ N.of_nat (d - p))%N.
Proof.
  intros Hpd. replace d with (p + (d - p)) at 1 by lia.
  rewrite digitsFixed_split.
  rewrite <- (length_digitsFixed p (x / 10 ^ N.of_nat (d - p))%N) at 1.
  apply take_append_length.
Qed.

(** What [toString] writes for a natural number: as many digits as
    the number has. *)
Lemma pretty_N_go_digits (x : N) :
  exists k : nat,
    (forall s, pretty_N_go x s = digitsFixed k x +:+ s)
    /\ (x < 10 ^ N.of_nat k)%N
    /\ (x = 0%N -> k = 0)
    /\ (0 < x -> 10 ^ N.of_nat k <= 10 * x)%N.
Proof.
  induction (N.lt_wf_0 x) as [x _ IH].
  destruct (N.eq_dec x 0%N) as [-> | Hx].
  - exists 0. repeat split; try reflexivity; try lia.
  - assert (Hpos : (0 < x)%N) by lia.
    destruct (IH (x / 10)%N) as (k & Hgo & Hlt & Hzero & Hlow).
    { apply N.div_lt; lia. }
    exists (S k). split; [| split; [| split]].
    + intros s. rewrite pretty_N_go_step by assumption.
      rewrite Hgo. cbn [digitsFixed]. now rewrite append_assoc.
    + rewrite Nat2N.inj_succ, N.pow_succ_r'.
      pose proof (N.div_mod x 10%N ltac:(lia)). pose proof (N.mod_lt x 10%N ltac:(lia)). lia.
    + intros ->. lia.
    + intros _. rewrite Nat2N.inj_succ, N.pow_succ_r'.
      destruct (N.eq_dec (x / 10)%N 0%N) as [H0 | H0].
      * rewrite (Hzero H0). simpl. lia.
      * pose proof (N.Div0.mul_div_le x 10%N).
        specialize (Hlow (proj1 (N.neq_0_lt_0 _) H0)). lia.
Qed.

Lemma pow10_lt (a b : nat) : (10 ^ N.of_nat a < 10 ^ N.of_nat b)%N -> a < b.
Proof. intros H. apply N.pow_lt_mono_r_iff in H; lia. Qed.

Lemma pretty_N_digits (x : N) :
  exists k : nat,
    pretty x = digitsFixed k x /\ 0 < k
    /\ (x < 10 ^ N.of_nat k)%N /\ (10 ^ N.of_nat k <= 10 * N.max x 1)%N.
Proof.
  unfold pretty, pretty_N. destruct (decide (x = 0%N)) as [-> | Hx].
  - exists 1. repeat split; try lia.
  - destruct (pretty_N_go_digits x) as (k & Hgo & Hlt & Hzero & Hlow).
    exists k. rewrite Hgo, append_empty_r. repeat split; try assumption.
    + destruct k; [simpl in Hlt; lia | lia].
    + assert (Hpos : (0 < x)%N) by lia. specialize (Hlow Hpos). lia.
Qed.

Lemma pretty_Z_nonneg (z : Z) : (0 <= z)%Z -> pretty z = pretty (Z.to_N z).
Proof. destruct z; [reflexivity | reflexivity | lia]. Qed.

Lemma allDigits_pretty_N (x : N) : allDigits (pretty x) = true.
Proof.
  destruct (pretty_N_digits x) as (k & -> & _). apply allDigits_digitsFixed.
Qed.

Lemma pretty_N_nonempty (x : N) : Str.isEmpty (pretty x) = false.
Proof.
  destruct (pretty_N_digits x) as (k & -> & Hk & _).
  pose proof (length_digitsFixed k x) as Hlen.
  destruct (digitsFixed k x); [simpl in Hlen; lia | reflexivity].
Qed.

(** Padding with zeros gives the fixed-width digits. *)
Lemma padStart_pretty (d : nat) (x : N) :
  0 < d -> (x < 10 ^ N.of_nat d)%N ->
  padStart d "0" (pretty x) = digitsFixed d x.
Proof.
  intros Hd Hx.
  destruct (pretty_N_digits x) as (k & -> & Hk & Hlt & Hlow).
  unfold padStart. rewrite length_digitsFixed.
  assert (Hkd : k <= d).
  { destruct (N.eq_dec x 0%N) as [-> | Hne].
    - assert (k < 2); [| lia].
      apply pow10_lt. change (10 ^ N.of_nat 2)%N with 100%N. lia.
    - assert (k < S d); [| lia].
      apply pow10_lt. rewrite (Nat2N.inj_succ d), N.pow_succ_r'. lia. }
  replace d with ((d - k) + k) at 2 by lia.
  rewrite digitsFixed_split.
  rewrite N.div_small by assumption.
  now rewrite digitsFixed_zero.
Qed.


(** The lowest [k] digits do not depend on the higher ones. *)
Lemma digitsFixed_mod (k : nat) (x : N) :
  digitsFixed k (x mod 10 ^ N.of_nat k)%N = digitsFixed k x.
Proof.
  revert x. induction k as [|k IH]; intros x; [reflexivity |].
  cbn [digitsFixed]. rewrite Nat2N.inj_succ, N.pow_succ_r'.
  set (P := (10 ^ N.of_nat k)%N).
  rewrite N.Div0.mod_mul_r.
  assert (Hq : ((x mod 10 + 10 * ((x / 10) mod P)) / 10 = (x / 10) mod P)%N).
  { rewrite (N.mul_comm 10), N.div_add by discriminate.
    rewrite N.div_small; [reflexivity | now apply N.mod_lt]. }
  assert (Hr : ((x mod 10 + 10 * ((x / 10) mod P)) mod 10 = x mod 10)%N).
  { rewrite (N.mul_comm 10), N.Div0.mod_add. apply N.Div0.mod_mod. }
  rewrite Hq, Hr. unfold P. now rewrite IH.
Qed.

(** The digits of a number of four digits or more: those of its
    thousands, then its last three. *)
Lemma pretty_N_thousands (x : N) :
  (1000 <= x)%N -> pretty x = pretty (x / 1000)%N +:+ digitsFixed 3 x.
Proof.
  intros Hx.
  assert (H1 : (0 < x)%N) by lia.
  assert (H2 : (0 < x / 10)%N).
  { apply N.div_str_pos. lia. }
  assert (H3 : (0 < x / 10 / 10)%N).
  { rewrite N.Div0.div_div. apply N.div_str_pos. lia. }
  assert (H4 : (0 < x / 1000)%N).
  { apply N.div_str_pos. lia. }
  assert (Hdiv : (x / 10 / 10 / 10 = x / 1000)%N) by now rewrite !N.Div0.div_div.
  unfold pretty, pretty_N.
  destruct (decide (x = 0%N)) as [-> | _]; [lia |].
  destruct (decide ((x / 1000)%N = 0%N)) as [H0 | _]; [lia |].
  rewrite 3!pretty_N_go_step by assumption. rewrite Hdiv.
  destruct (pretty_N_go_digits (x / 1000)%N) as (k & Hgo & _).
  rewrite !Hgo, append_empty_r. cbn [digitsFixed].
  rewrite append_nil. now rewrite !append_cons, !append_nil.
Qed.

Lemma insertCommasFrom_nil (prev : option ascii) : insertCommasFrom prev "" = "".
Proof. unfold insertCommasFrom, groupsAhead. simpl. now rewrite andb_false_r. Qed.

Lemma insertCommasFrom_cons (prev : option ascii) (c : ascii) (r : string) :
  insertCommasFrom prev (String c r)
  = if nonBoundary prev (String c r) && groupsAhead (String c r)
    then String "," (String c (insertCommasFrom (Some c) r))
    else String c (insertCommasFrom (Some c) r).
Proof. reflexivity. Qed.

(** Only whether the character before is a word character matters. *)
Lemma insertCommasFrom_prev (p q : option ascii) (s : string) :
  wordBefore p = wordBefore q -> insertCommasFrom p s = insertCommasFrom q s.
Proof.
  intros H. destruct s as [|c r]; [now rewrite !insertCommasFrom_nil |].
  rewrite !insertCommasFrom_cons. unfold nonBoundary. now rewrite H.
Qed.

Lemma groupsAhead_short (d : string) :
  allDigits d = true -> String.length d < 3 -> groupsAhead d = false.
Proof.
  intros Hd Hlen. unfold groupsAhead. rewrite digitRun_allDigits by assumption.
  destruct d as [|a [|b [|c r]]]; simpl in Hlen; try lia; reflexivity.
Qed.

Lemma insertCommasFrom_short (d : string) :
  allDigits d = true -> String.length d < 3 ->
  forall prev, insertCommasFrom prev d = d.
Proof.
  induction d as [|c d IH]; intros Hd Hlen prev; [apply insertCommasFrom_nil |].
  rewrite insertCommasFrom_cons, groupsAhead_short, andb_false_r by assumption.
  simpl in Hd, Hlen. apply andb_true_iff in Hd as [_ Hd].
  rewrite IH; [reflexivity | assumption | lia].
Qed.

(** A number below a thousand gets no comma. *)
Lemma insertCommas_short (d : string) :
  allDigits d = true -> String.length d <= 3 -> insertCommas d = d.
Proof.
  intros Hd Hlen. unfold insertCommas.
  destruct d as [|c r]; [apply insertCommasFrom_nil |].
  simpl in Hd, Hlen. apply andb_true_iff in Hd as [Hc Hr].
  rewrite insertCommasFrom_cons. unfold nonBoundary, wordBefore, wordAt.
  rewrite (isDigit_isWord c Hc). cbn [Bool.eqb andb].
  rewrite insertCommasFrom_short; [reflexivity | assumption | lia].
Qed.

Lemma groupsAhead_append (d t : string) :
  allDigits d = true -> allDigits t = true -> String.length t = 3 ->
  Str.isEmpty d = false ->
  groupsAhead (d +:+ t) = groupsAhead d.
Proof.
  intros Hd Ht Hlen Hne. unfold groupsAhead.
  rewrite !digitRun_allDigits by (try rewrite allDigits_append, Hd, Ht; auto).
  rewrite length_append, Hlen.
  assert (0 < String.length d) as Hpos by (destruct d; [discriminate | simpl; lia]).
  replace (String.length d + 3) with (String.length d + 1 * 3) by lia.
  rewrite Nat.Div0.mod_add.
  destruct (String.length d); [lia | reflexivity].
Qed.

Lemma insertCommasFrom_three (c : ascii) (t : string) :
  isDigit c = true -> allDigits t = true -> String.length t = 3 ->
  insertCommasFrom (Some c) t = String "," t.
Proof.
  intros Hc Ht Hlen. destruct t as [|t0 r]; [discriminate |].
  rewrite insertCommasFrom_cons.
  assert (groupsAhead (String t0 r) = true) as ->.
  { unfold groupsAhead. rewrite digitRun_allDigits, Hlen by assumption. reflexivity. }
  simpl in Ht, Hlen. apply andb_true_iff in Ht as [Ht0 Hr].
  unfold nonBoundary, wordBefore, wordAt.
  rewrite (isDigit_isWord c Hc), (isDigit_isWord t0 Ht0). cbn [Bool.eqb andb].
  rewrite insertCommasFrom_short; [reflexivity | assumption | lia].
Qed.

(** Three more digits at the end: one more comma, before them. *)
Lemma insertCommasFrom_group (d t : string) :
  allDigits d = true -> Str.isEmpty d = false ->
  allDigits t = true -> String.length t = 3 ->
  forall prev,
    insertCommasFrom prev (d +:+ t) = insertCommasFrom prev d +:+ String "," t.
Proof.
  intros Hd Hne Ht Hlen.
  induction d as [|c d IH]; intros prev; [discriminate |].
  pose proof Hd as Hcd. simpl in Hd. apply andb_true_iff in Hd as [Hc Hd].
  rewrite append_cons, !insertCommasFrom_cons.
  rewrite <- (append_cons c d t), (groupsAhead_append (String c d) t) by assumption.
  assert (Hin : insertCommasFrom (Some c) (d +:+ t)
                = insertCommasFrom (Some c) d +:+ String "," t).
  { destruct d as [|c' d'].
    - rewrite append_nil, insertCommasFrom_nil, append_nil.
      now apply insertCommasFrom_three.
    - apply IH; [assumption | reflexivity]. }
  rewrite append_cons.
  change (nonBoundary prev (String c (d +:+ t))) with (nonBoundary prev (String c d)).
  rewrite Hin.
  destruct (nonBoundary prev (String c d) && groupsAhead (String c d));
    now rewrite !append_cons.
Qed.

Lemma insertCommas_minus (d : string) :
  insertCommas (String "-" d) = String "-" (insertCommas d).
Proof.
  unfold insertCommas. rewrite insertCommasFrom_cons.
  change (nonBoundary None (String "-" d) && groupsAhead (String "-" d)) with false.
  cbn iota. f_equal. now apply insertCommasFrom_prev.
Qed.

Lemma withoutCommas_insert (s : string) (prev : option ascii) :
  withoutCommas (insertCommasFrom prev s) = withoutCommas s.
Proof.
  revert prev. induction s as [|c s IH]; intros prev.
  - now rewrite insertCommasFrom_nil.
  - rewrite insertCommasFrom_cons.
    destruct (nonBoundary prev (String c s) && groupsAhead (String c s)).
    + change (withoutCommas (String "," (String c (insertCommasFrom (Some c) s))))
        with (withoutCommas (String c (insertCommasFrom (Some c) s))).
      cbn [withoutCommas]. now rewrite IH.
    + cbn [withoutCommas]. now rewrite IH.
Qed.

Lemma withoutCommas_digits (d : string) : allDigits d = true -> withoutCommas d = d.
Proof.
  induction d as [|c d IH]; [reflexivity |]. simpl.
  intros [Hc Hd]%andb_true_iff. rewrite (isDigit_not_comma c Hc). now rewrite IH.
Qed.

Lemma slice_rest (c : ascii) (t : string) : slice (String c t) 1 None = t.
Proof.
  unfold slice, clampIndex. cbn [String.length Z.ltb Z.compare].
  replace (Nat.min (Z.to_nat 1) (S (String.length t))) with 1 by lia.
  replace (S (String.length t) - 1) with (String.length t) by lia.
  cbn [drop]. apply take_all. lia.
Qed.

Lemma pow10_N (k : nat) : Z.to_N (10 ^ Z.of_nat k) = (10 ^ N.of_nat k)%N.
Proof.
  rewrite Z2N.inj_pow by lia. f_equal. lia.
Qed.

(** Zero-padded digits of an integer, as digits of a natural number. *)
Lemma padStart_pretty_Z (d : nat) (z : Z) :
  0 < d -> (0 <= z < 10 ^ Z.of_nat d)%Z ->
  padStart d "0" (pretty z) = digitsFixed d (Z.to_N z).
Proof.
  intros Hd [Hlo Hhi]. rewrite pretty_Z_nonneg by assumption.
  apply padStart_pretty; [assumption |].
  rewrite <- pow10_N. apply Z2N.inj_lt; lia.
Qed.

End FormatFacts.

Import Format FormatFacts StrFacts JsString SliceFacts.

(** X22: addThousands writes a number below a thousand as it is, and a
    larger one as its thousands (grouped in the same way), a comma and
    its last three digits; a negative number is the minus sign and the
    grouping of its absolute value. *)
Theorem addThousands_groups (v : Z) :
  (0 <= v)%Z ->
  addThousands v
  = (if (v <? 1000)%Z then bigintToString v
     else addThousands (v / 1000)
          +:+ "," +:+ padStart 3 "0" (bigintToString (v mod 1000)))
  /\ (v <> 0%Z -> addThousands (- v) = "-" +:+ addThousands v).
Proof.
  intros Hv. unfold addThousands, bigintToString. split.
  - destruct (Z.ltb_spec v 1000) as [Hlt | Hge].
    + rewrite pretty_Z_nonneg by assumption.
      destruct (pretty_N_digits (Z.to_N v)) as (k & Hk & Hpos & Hup & Hlow).
      apply insertCommas_short; [apply allDigits_pretty_N |].
      rewrite Hk, length_digitsFixed.
      assert (k < 4); [| lia].
      apply pow10_lt. change (10 ^ N.of_nat 4)%N with 10000%N. lia.
    + rewrite (pretty_Z_nonneg v), (pretty_Z_nonneg (v / 1000)) by (try apply Z.div_pos; lia).
      rewrite (padStart_pretty_Z 3) by (try apply Z.mod_pos_bound; lia).
      rewrite Z2N.inj_mod, Z2N.inj_div by lia.
      change (Z.to_N 1000) with (10 ^ N.of_nat 3)%N at 2.
      rewrite digitsFixed_mod.
      change (Z.to_N 1000) with 1000%N.
      rewrite pretty_N_thousands by lia.
      unfold insertCommas. rewrite append_cons, append_nil.
      apply insertCommasFrom_group.
      * apply allDigits_pretty_N.
      * apply pretty_N_nonempty.
      * apply allDigits_digitsFixed.
      * apply length_digitsFixed.
  - intros Hne. destruct v as [|p|p]; [contradiction | | lia].
    change (- Z.pos p)%Z with (Z.neg p).
    change (pretty (Z.neg p)) with ("-" +:+ pretty (Z.pos p)).
    rewrite append_cons, !append_nil. apply insertCommas_minus.
Qed.

Lemma addThousands_groups_witness :
  addThousands 1234567 = "1,234,567" /\ addThousands (- 1234567) = "-1,234,567".
Proof.
  destruct (addThousands_groups 1234567 ltac:(lia)) as [_ Hneg].
  split; [reflexivity | apply Hneg; discriminate].
Defined.

(** X23: removing the commas from addThousands gives back the digits
    that toString wrote: the replacement only inserts commas. *)
Theorem addThousands_only_commas (v : Z) :
  withoutCommas (addThousands v) = bigintToString v.
Proof.
  unfold addThousands, insertCommas. rewrite withoutCommas_insert.
  unfold bigintToString. destruct v as [|p|p].
  - reflexivity.
  - apply withoutCommas_digits. apply (allDigits_pretty_N (N.pos p)).
  - change (pretty (Z.neg p)) with ("-" +:+ pretty (N.pos p)).
    rewrite append_cons, append_nil. cbn [withoutCommas].
    change (Ascii.eqb "-" ",") with false. cbn iota.
    f_equal. apply withoutCommas_digits. apply allDigits_pretty_N.
Qed.

(** X24: for an amount that BigInt reads as [v >= 0], with an optional
    minus sign in front, formatToken writes the sign, the units
    (v / 10^decimals) grouped by addThousands, a dot, and the first
    [precision] fraction digits: the fraction is cut off, not rounded,
    and nothing is logged. *)
Theorem formatToken_truncates (toBigInt : string -> Completion Z)
    (negative : bool) (text : string) (decimals precision : nat) (v : Z) :
  Str.startsWith text "-" = false ->
  toBigInt text = Normal v ->
  (0 <= v)%Z ->
  0 < precision <= decimals ->
  formatToken toBigInt ((if negative then "-" else "") +:+ text) decimals precision
  = ((if negative then "-" else "")
       +:+ addThousands (v / 10 ^ Z.of_nat decimals)
       +:+ "."
       +:+ padStart precision "0"
             (bigintToString
                ((v mod 10 ^ Z.of_nat decimals) / 10 ^ Z.of_nat (decimals - precision))),
     []).
Proof.
  intros Htext Hbig Hv [Hp Hpd]. unfold formatToken, bigintToString.
  assert (Hraw : (if Str.startsWith ((if negative then "-" else "") +:+ text) "-"
                  then JsString.slice ((if negative then "-" else "") +:+ text) 1 None
                  else (if negative then "-" else "") +:+ text) = text
                 /\ (if Str.startsWith ((if negative then "-" else "") +:+ text) "-"
                     then "-" else "") = (if negative then "-" else "")).
  { destruct negative.
    - rewrite append_cons, append_nil.
      assert (Str.startsWith (String "-" text) "-" = true) as ->
        by (destruct text; reflexivity).
      now rewrite slice_rest.
    - rewrite append_nil, Htext. now split. }
  destruct Hraw as [-> ->]. rewrite Hbig.
  set (base := (10 ^ Z.of_nat decimals)%Z).
  assert (Hbase : (0 < base)%Z) by (apply Z.pow_pos_nonneg; lia).
  rewrite Z.quot_div_nonneg, Z.rem_mod_nonneg by assumption.
  pose proof (Z.mod_pos_bound v base Hbase) as Hf.
  set (f := (v mod base)%Z) in *.
  rewrite slice_head.
  rewrite (padStart_pretty_Z decimals f) by (fold base; lia).
  rewrite take_digitsFixed by assumption.
  set (cut := (10 ^ Z.of_nat (decimals - precision))%Z).
  assert (Hcut : (0 < cut)%Z) by (apply Z.pow_pos_nonneg; lia).
  assert (Hsplit : (base = cut * 10 ^ Z.of_nat precision)%Z).
  { unfold base, cut. rewrite <- Z.pow_add_r by lia. f_equal. lia. }
  assert (Hq : (0 <= f / cut < 10 ^ Z.of_nat precision)%Z).
  { split; [apply Z.div_pos; lia |].
    apply Z.div_lt_upper_bound; [assumption | lia]. }
  rewrite (padStart_pretty_Z precision (f / cut)) by assumption.
  rewrite Z2N.inj_div by lia. unfold cut. rewrite pow10_N.
  set (digits := digitsFixed precision _).
  assert (Hne : Str.isEmpty digits = false).
  { pose proof (length_digitsFixed precision
                  (Z.to_N f / 10 ^ N.of_nat (decimals - precision))%N) as Hlen.
    fold digits in Hlen. destruct digits; [simpl in Hlen; lia | reflexivity]. }
  rewrite Hne. reflexivity.
Qed.

Lemma formatToken_truncates_witness :
  formatToken decimalBigInt "-1234567899999999999999" 18 4 = ("-1,234.5678", []).
Proof.
  apply (formatToken_truncates decimalBigInt true "1234567899999999999999" 18 4
           1234567899999999999999%Z);
    [reflexivity | reflexivity | lia | lia].
Defined.

Example formatToken_small_negative :
  formatToken decimalBigInt "-1" 18 4 = ("-0.0000", []).
Proof. reflexivity. Qed.

Example formatToken_rejected :
  formatToken decimalBigInt "12.5" 18 4
  = ("12.5", [ThrownValue "SyntaxError: Cannot convert to a BigInt"]).
Proof. reflexivity. Qed.

(** ** What the hourly Sankey draws *)

Module PreparedFacts.
Import JsMap MapFacts Holders HoldersAux HoldersFacts HourlySankey StrFacts.

Lemma append_inj_l (a b c : string) : a +:+ b = a +:+ c -> b = c.
Proof.
  induction a as [|x a IH]; [trivial |].
  rewrite !append_cons. intros H. injection H as H. now apply IH.
Qed.

Lemma In_lookup {A B} (f : A -> B) (k : B) (l : list A) :
  In k (map f l) -> exists i x, l !! i = Some x /\ f x = k.
Proof.
  induction l as [|y l IH]; [intros [] |].
  simpl. intros [Hy | Hin].
  - now exists 0, y.
  - destruct (IH Hin) as (i & x & Hi & Hx). now exists (S i), x.
Qed.

(** Ids that are not among the nodes keep what the map had. *)
Lemma indexNodes_other (k : string) (ns : list PreparedNode) :
  forall idx m,
    ~ In k (map (fun n => id (node n)) ns) ->
    mapGet k (indexNodes idx ns m) = mapGet k m.
Proof.
  induction ns as [|n ns IH]; intros idx m Hk; [reflexivity |].
  cbn [indexNodes]. rewrite IH by (intros H; apply Hk; now right).
  rewrite mapGet_mapSet.
  destruct (String.eqb_spec (id (node n)) k) as [Heq | _]; [| reflexivity].
  exfalso. apply Hk. now left.
Qed.

(** With distinct ids, every id is mapped to the position of its node. *)
Lemma indexNodes_get (ns : list PreparedNode) :
  List.NoDup (map (fun n => id (node n)) ns) ->
  forall idx m i n,
    ns !! i = Some n ->
    mapGet (id (node n)) (indexNodes idx ns m) = Some (idx + Z.of_nat i)%Z.
Proof.
  induction ns as [|n0 ns IH]; intros Hnd idx m i n Hi; [discriminate |].
  inversion Hnd as [|? ? Hnot Hnd']; subst.
  cbn [indexNodes]. destruct i as [|i].
  - injection Hi as <-.
    rewrite indexNodes_other by assumption.
    rewrite mapGet_mapSet, String.eqb_refl. f_equal. lia.
  - rewrite (IH Hnd' (idx + 1)%Z _ i n Hi). f_equal. lia.
Qed.

Section Graph.
Context {Num : Type}.
Variable clampValue : Num -> Num.
Variable sortStrings : list string -> list string.

Lemma drawn_linkOf (row : FlowRow Num) :
  drawn (linkOf row) = negb (String.eqb (from_addr row) (to_addr row)).
Proof.
  unfold drawn, linkOf. cbn [source target].
  assert (Hne : forall a, Str.isEmpty (row_hour row +:+ "-" +:+ a) = false).
  { intros a. rewrite isEmpty_append. now destruct (Str.isEmpty (row_hour row)). }
  rewrite !Hne. cbn [negb andb]. f_equal.
  destruct (String.eqb_spec (from_addr row) (to_addr row)) as [-> | Hdiff].
  - apply String.eqb_refl.
  - apply String.eqb_neq. intros H. apply Hdiff.
    apply append_inj_l in H. now apply (append_inj_l "-") in H.
Qed.

Lemma filter_map_linkOf (rows : list (FlowRow Num)) :
  List.filter drawn (map linkOf rows)
  = map linkOf
        (List.filter (fun row => negb (String.eqb (from_addr row) (to_addr row))) rows).
Proof.
  induction rows as [|row rows IH]; [reflexivity |].
  cbn [map List.filter]. rewrite drawn_linkOf, IH.
  now destruct (negb (String.eqb (from_addr row) (to_addr row))).
Qed.

End Graph.
End PreparedFacts.

Import JsMap MapFacts Holders HoldersAux HoldersFacts HourlySankey PreparedFacts.

(** X25: what the hourly Sankey draws of the graph that getSankeyData
    built: the nodes in their order, and one link for every row whose
    two addresses differ (a transfer of an address to itself is not
    drawn), in row order; the link's source and target are the
    positions of the nodes "hour-from_addr" and "hour-to_addr", its
    value is the clamped amount, and its hour is undefined, since the
    links of the graph carry a day and no hour. *)
Theorem prepared_links_index_nodes {Num : Type}
    (clampValue : Num -> Num) (sortStrings : list string -> list string)
    (rows : list (FlowRow Num)) :
  let data := buildSankey rows in
  let p := prepared clampValue sortStrings data in
  map node (prepared_nodes p) = nodes data
  /\ Forall (fun n => name n = label (node n)) (prepared_nodes p)
  /\ Forall2
       (fun row l =>
          (exists i j n m,
              source_index l = Z.of_nat i /\ target_index l = Z.of_nat j
              /\ nodes data !! i = Some n
              /\ id n = row_hour row +:+ "-" +:+ from_addr row
              /\ nodes data !! j = Some m
              /\ id m = row_hour row +:+ "-" +:+ to_addr row)
          /\ indexed_value l = clampValue (amount row)
          /\ link_hour l = None)
       (List.filter (fun row => negb (String.eqb (from_addr row) (to_addr row))) rows)
       (prepared_links p).
Proof.
  intros data p.
  assert (Hnodes : map node (prepared_nodes p) = nodes data).
  { unfold p, prepared. cbn [prepared_nodes]. rewrite List.map_map.
    cbn [node]. apply List.map_id. }
  split; [exact Hnodes |]. split.
  { unfold p, prepared. cbn [prepared_nodes].
    apply List.Forall_forall. intros n Hn.
    apply in_map_iff in Hn as (n0 & <- & _). reflexivity. }
  assert (Hids : map (fun n => id (node n)) (prepared_nodes p) = map id (nodes data)).
  { rewrite <- Hnodes. now rewrite List.map_map. }
  assert (Hnd : List.NoDup (map (fun n => id (node n)) (prepared_nodes p))).
  { rewrite Hids. unfold data. rewrite node_ids. exact (inv_nodup _ (Inv_loop rows)). }
  assert (Hget : forall k, In k (map id (nodes data)) ->
            exists i n, nodes data !! i = Some n /\ id n = k
                        /\ mapGet k (indexNodes 0 (prepared_nodes p) []) = Some (Z.of_nat i)).
  { intros k Hk. rewrite <- Hids in Hk.
    destruct (In_lookup _ _ _ Hk) as (i & pn & Hi & Hpn).
    exists i, (node pn). split; [| split; [exact Hpn |]].
    - rewrite <- Hnodes. change (map node (prepared_nodes p)) with (node <$> prepared_nodes p).
      rewrite list_lookup_fmap, Hi. reflexivity.
    - rewrite <- Hpn. rewrite (indexNodes_get _ Hnd 0%Z [] i pn Hi). f_equal. }
  assert (Hclosed : forall row, In row rows ->
            In (row_hour row +:+ "-" +:+ from_addr row) (map id (nodes data))
            /\ In (row_hour row +:+ "-" +:+ to_addr row) (map id (nodes data))).
  { intros row Hrow. unfold data. rewrite node_ids.
    apply (inv_closed _ (Inv_loop rows) (linkOf row)).
    rewrite sankeyLoop_links. now apply in_map. }
  assert (Hlinks : links data = map linkOf rows).
  { unfold data. destruct (buildSankey_nodes rows) as [_ ->]. apply sankeyLoop_links. }
  unfold p at 1. unfold prepared. cbn [prepared_links].
  fold (prepared_nodes p).
  change (map (fun n => mkPreparedNode n (label n)) (nodes data)) with (prepared_nodes p).
  rewrite Hlinks, filter_map_linkOf.
  assert (Hsub : forall row,
            In row (List.filter (fun row => negb (String.eqb (from_addr row) (to_addr row))) rows)
            -> In row rows).
  { intros row Hin. now apply filter_In in Hin as [Hin _]. }
  induction (List.filter (fun row => negb (String.eqb (from_addr row) (to_addr row))) rows)
    as [|row kept IH]; [constructor |].
  destruct (Hclosed row (Hsub row (or_introl eq_refl))) as [Hsrc Htgt].
  destruct (Hget _ Hsrc) as (i & n & Hi & Hn & Hgi).
  destruct (Hget _ Htgt) as (j & m & Hj & Hm & Hgj).
  cbn [map List.filter linkOf source target value source_index target_index].
  rewrite Hgi, Hgj. cbn [from_option Datatypes.id].
  assert ((0 <=? Z.of_nat i)%Z && (0 <=? Z.of_nat j)%Z = true) as ->
    by (apply andb_true_iff; split; apply Z.leb_le; lia).
  constructor.
  - split; [| split; reflexivity]. now exists i, j, n, m.
  - apply IH. intros row' Hin. apply Hsub. now right.
Qed.

Example prepared_sample :
  prepared_links
    (prepared (fun v : Z => Z.max 1 v) (fun l => l)
       (buildSankey [mkFlowRow "2024-05-01 10:00" "0xa" "0xb" 5%Z;
                     mkFlowRow "2024-05-01 10:00" "0xc" "0xc" 7%Z;
                     mkFlowRow "2024-05-01 11:00" "0xb" "0xa" 0%Z]))
  = [mkIndexedLink 0 1 5%Z None; mkIndexedLink 3 4 1%Z None].
Proof. reflexivity. Qed.
